(** * google-cal-importer: the ICS parsing, de-duplication and reconciliation
    core of [gas.ts], embedded in Rocq.

    - Part I models the fragment of the JavaScript platform that [gas.ts]
      relies on: strings as sequences of UTF-16 code units, [parseInt],
      and the [Date] arithmetic of ECMA-262 ("Date Objects").
    - Part II translates the functions of [gas.ts] one by one, and fixes
      the vocabulary in which the specification is stated.
    - Part III proves the properties of the specification.
    - Part IV evaluates the program on concrete inputs.

    What the platform leaves open is a parameter of the development: the
    offset of the script's time zone (taken to be constant, as in a zone
    without daylight saving), the Unicode lower-casing of strings,
    [Date.parse], and the answers of the calendar service.  A thrown
    exception is a result of its own ([Throw]); an invalid [Date] and a
    [NaN] Number are values. *)

From Stdlib Require Import ZArith NArith List Bool String Ascii Lia.
From stdpp Require Import base option list gmap sets pretty.

Open Scope Z_scope.

Set Default Proof Using "Type".

(* ===================================================================== *)
(** * Part I.  The JavaScript platform                                     *)
(* ===================================================================== *)

(** ** Strings

    A JavaScript string is a finite sequence of 16-bit code units. *)

Abbreviation jsstring := (list N).

(** String literals of the source are written [lit "..."]. *)
Fixpoint lit (s : string) : jsstring :=
  match s with
  | EmptyString => []
  | String a s' => N_of_ascii a :: lit s'
  end.

(** [WhiteSpace] and [LineTerminator] code points (ECMA-262, sections
    "White Space" and "Line Terminators"): the characters removed by
    [String.prototype.trim] and skipped by [parseInt]. *)
Definition isWhiteSpace (c : N) : bool :=
  ((c =? 9) || (c =? 10) || (c =? 11) || (c =? 12) || (c =? 13) || (c =? 32)
   || (c =? 160) || (c =? 5760) || ((8192 <=? c) && (c <=? 8202))
   || (c =? 8232) || (c =? 8233) || (c =? 8239) || (c =? 8287)
   || (c =? 12288) || (c =? 65279))%N.

Fixpoint trimStart (s : jsstring) : jsstring :=
  match s with
  | [] => []
  | c :: rest => if isWhiteSpace c then trimStart rest else s
  end.

Definition trimEnd (s : jsstring) : jsstring := rev (trimStart (rev s)).

(** [s.trim()] *)
Definition trim (s : jsstring) : jsstring := trimEnd (trimStart s).

(** [s.startsWith(p)] *)
Fixpoint startsWith (p s : jsstring) : bool :=
  match p, s with
  | [], _ => true
  | _ :: _, [] => false
  | a :: p', b :: s' => (a =? b)%N && startsWith p' s'
  end.

(** [s.endsWith(p)] *)
Definition endsWith (p s : jsstring) : bool := startsWith (rev p) (rev s).

(** [s.substring(a, b)]: both indices are clamped to the length of [s]
    and swapped when [a > b]. *)
Definition substring (s : jsstring) (a b : nat) : jsstring :=
  let len := length s in
  let fs := Nat.min a len in
  let fe := Nat.min b len in
  take (Nat.max fs fe - Nat.min fs fe) (drop (Nat.min fs fe) s).

(** [s.substring(a)]: up to the end of the string. *)
Definition substringFrom (s : jsstring) (a : nat) : jsstring :=
  substring s a (length s).

(** [s.split(sep)] for a separator of one code unit.  The result is never
    empty: a string without separator yields the one-element array [[s]]. *)
Fixpoint split (sep : N) (s : jsstring) : list jsstring :=
  match s with
  | [] => [[]]
  | c :: rest =>
      if (c =? sep)%N then [] :: split sep rest
      else match split sep rest with
           | l :: ls => (c :: l) :: ls
           | [] => [[c]]
           end
  end.

(** [s.split(/\r?\n/)]: the text is cut at every line feed, and a carriage
    return that immediately precedes the line feed belongs to the
    separator. *)
Definition startsWithLF (s : jsstring) : bool :=
  match s with
  | c :: _ => (c =? 10)%N
  | [] => false
  end.

Fixpoint splitLines (s : jsstring) : list jsstring :=
  match s with
  | [] => [[]]
  | c :: rest =>
      if (c =? 10)%N then [] :: splitLines rest
      else if (c =? 13)%N && startsWithLF rest then splitLines rest
      else match splitLines rest with
           | l :: ls => (c :: l) :: ls
           | [] => [[c]]
           end
  end.

(** [s.padStart(n, fill)] for a filler of one code unit. *)
Definition padStart (s : jsstring) (n : nat) (fill : N) : jsstring :=
  replicate (n - length s) fill ++ s.

(** ** Numbers

    The Numbers that the program computes with are integers of small
    magnitude, or [NaN]; [None] stands for [NaN]. *)

Abbreviation Number := (option Z).

Definition NaN : Number := None.

(** [String(n)] and template-literal interpolation of a Number. *)
Definition Number_toString (n : Number) : jsstring :=
  match n with
  | Some z => lit (pretty z)
  | None => lit "NaN"
  end.

(** [n + k] and [n - k] on Numbers: [NaN] is absorbing. *)
Definition Number_add (n : Number) (k : Z) : Number :=
  match n with
  | Some z => Some (z + k)
  | None => None
  end.

(** Value of a code unit as a digit (any radix up to 36). *)
Definition digitValue (c : N) : option Z :=
  if ((48 <=? c) && (c <=? 57))%N then Some (Z.of_N c - 48)
  else if ((97 <=? c) && (c <=? 122))%N then Some (Z.of_N c - 87)
  else if ((65 <=? c) && (c <=? 90))%N then Some (Z.of_N c - 55)
  else None.

Definition radixDigit (R : Z) (c : N) : option Z :=
  match digitValue c with
  | Some v => if v <? R then Some v else None
  | None => None
  end.

(** The longest prefix of radix-[R] digits, read as an integer; [acc] is
    [None] as long as no digit has been read. *)
Fixpoint parseDigits (R : Z) (acc : option Z) (s : jsstring) : option Z :=
  match s with
  | [] => acc
  | c :: rest =>
      match radixDigit R c with
      | Some v =>
          parseDigits R (Some (match acc with
                               | Some a => a * R + v
                               | None => v
                               end)) rest
      | None => acc
      end
  end.

(** [parseInt(s)] without radix argument (ECMA-262, "parseInt"): leading
    white space is skipped, a sign is read, a [0x]/[0X] prefix selects
    radix 16, and the result is [NaN] when no digit follows. *)
Definition parseInt (s : jsstring) : Number :=
  let s0 := trimStart s in
  let '(sign, s1) :=
    match s0 with
    | 45%N :: r => (-1, r)
    | 43%N :: r => (1, r)
    | _ => (1, s0)
    end in
  let '(R, s2) :=
    match s1 with
    | 48%N :: x :: r => if ((x =? 120) || (x =? 88))%N then (16, r) else (10, s1)
    | _ => (10, s1)
    end in
  match parseDigits R None s2 with
  | Some z => Some (sign * z)
  | None => None
  end.

(** ** Dates (ECMA-262, "Time Values and Time Range") *)

Definition msPerDay : Z := 86400000.
Definition msPerHour : Z := 3600000.
Definition msPerMinute : Z := 60000.
Definition msPerSecond : Z := 1000.

Definition Day (t : Z) : Z := t / msPerDay.
Definition TimeWithinDay (t : Z) : Z := t mod msPerDay.

Definition DaysInYear (y : Z) : Z :=
  if negb (y mod 4 =? 0) then 365
  else if negb (y mod 100 =? 0) then 366
  else if negb (y mod 400 =? 0) then 365
  else 366.

Definition DayFromYear (y : Z) : Z :=
  365 * (y - 1970) + (y - 1969) / 4 - (y - 1901) / 100 + (y - 1601) / 400.

Definition TimeFromYear (y : Z) : Z := msPerDay * DayFromYear y.

(** The year of a day number: ECMA-262 defines it as the largest [y] with
    [DayFromYear y <= d].  It is computed from an estimate that is off by
    at most one (400 years have 146097 days); lemma [YearFromDay_spec]
    shows that the result is the year of the definition. *)
Definition YearFromDay (d : Z) : Z :=
  let y0 := 1970 + (d * 400) / 146097 in
  if DayFromYear (y0 + 1) <=? d then y0 + 1
  else if DayFromYear y0 <=? d then y0
  else y0 - 1.

Definition YearFromTime (t : Z) : Z := YearFromDay (Day t).

(** [InLeapYear(t)] is 1 in a leap year and 0 otherwise. *)
Definition leapOfYear (y : Z) : Z := if DaysInYear y =? 366 then 1 else 0.
Definition InLeapYear (t : Z) : Z := leapOfYear (YearFromTime t).

Definition DayWithinYear (t : Z) : Z := Day t - DayFromYear (YearFromTime t).

(** Month number (0 = January) of a day within a year. *)
Definition monthOfDayWithinYear (dwy leap : Z) : Z :=
  if dwy <? 31 then 0
  else if dwy <? 59 + leap then 1
  else if dwy <? 90 + leap then 2
  else if dwy <? 120 + leap then 3
  else if dwy <? 151 + leap then 4
  else if dwy <? 181 + leap then 5
  else if dwy <? 212 + leap then 6
  else if dwy <? 243 + leap then 7
  else if dwy <? 273 + leap then 8
  else if dwy <? 304 + leap then 9
  else if dwy <? 334 + leap then 10
  else 11.

(** Number of days of the year that precede month [m] (0 = January). *)
Definition monthStart (m leap : Z) : Z :=
  if m =? 0 then 0
  else if m =? 1 then 31
  else if m =? 2 then 59 + leap
  else if m =? 3 then 90 + leap
  else if m =? 4 then 120 + leap
  else if m =? 5 then 151 + leap
  else if m =? 6 then 181 + leap
  else if m =? 7 then 212 + leap
  else if m =? 8 then 243 + leap
  else if m =? 9 then 273 + leap
  else if m =? 10 then 304 + leap
  else 334 + leap.

Definition MonthFromTime (t : Z) : Z :=
  monthOfDayWithinYear (DayWithinYear t) (InLeapYear t).

(** Day of the month, 1 to 31. *)
Definition DateFromTime (t : Z) : Z :=
  DayWithinYear t - monthStart (MonthFromTime t) (InLeapYear t) + 1.

Definition HourFromTime (t : Z) : Z := (t / msPerHour) mod 24.
Definition MinFromTime (t : Z) : Z := (t / msPerMinute) mod 60.
Definition SecFromTime (t : Z) : Z := (t / msPerSecond) mod 60.
Definition msFromTime (t : Z) : Z := t mod msPerSecond.

Definition MakeTime (hour min sec ms : Z) : Z :=
  hour * msPerHour + min * msPerMinute + sec * msPerSecond + ms.

(** [MakeDay(year, month, date)]: months outside 0..11 carry into the
    year, and [date] is an offset from the first day of the month, so
    that day 0 is the last day of the previous month. *)
Definition MakeDay (year month date : Z) : Z :=
  let ym := year + month / 12 in
  let mn := month mod 12 in
  DayFromYear ym + monthStart mn (leapOfYear ym) + date - 1.

Definition MakeDate (day time : Z) : Z := day * msPerDay + time.

(** A [Date] object holds a time value: milliseconds since the epoch, at
    most 8.64e15 in magnitude, or [NaN] (an invalid date). *)
Inductive Date : Type :=
| DateAt (t : Z)
| InvalidDate.

#[global] Instance Date_eq_dec : EqDecision Date.
Proof. solve_decision. Defined.

Definition maxTime : Z := 8640000000000000.

Definition TimeClip (t : Z) : Date :=
  if Z.abs t <=? maxTime then DateAt t else InvalidDate.

(** Years 0 to 99 given to [Date.UTC] or to the [Date] constructor mean
    1900 to 1999. *)
Definition fullYear (y : Z) : Z :=
  if (0 <=? y) && (y <=? 99) then 1900 + y else y.

(** [Date.UTC(year, month, day, hours, minutes, seconds)]: a Number. *)
Definition Date_UTC (year month day hours minutes seconds : Number) : Number :=
  match year, month, day, hours, minutes, seconds with
  | Some y, Some m, Some dt, Some h, Some mi, Some s =>
      match TimeClip (MakeDate (MakeDay (fullYear y) m dt) (MakeTime h mi s 0)) with
      | DateAt t => Some t
      | InvalidDate => None
      end
  | _, _, _, _, _, _ => None
  end.

(** [new Date(value)] for a Number. *)
Definition Date_ofNumber (n : Number) : Date :=
  match n with
  | Some t => TimeClip t
  | None => InvalidDate
  end.

(** The script's time zone is a fixed offset [tza] from UTC, in
    milliseconds (Apps Script runs a script in one configured zone; a zone
    without daylight saving, such as Asia/Tokyo, has a constant offset). *)
Definition LocalTime (tza t : Z) : Z := t + tza.
Definition UTC (tza t : Z) : Z := t - tza.

(** [new Date(year, month, day, hours, minutes, seconds)]: the fields are
    local time. *)
Definition Date_ofFields (tza : Z) (year month day hours minutes seconds : Number) : Date :=
  match year, month, day, hours, minutes, seconds with
  | Some y, Some m, Some dt, Some h, Some mi, Some s =>
      TimeClip (UTC tza (MakeDate (MakeDay (fullYear y) m dt) (MakeTime h mi s 0)))
  | _, _, _, _, _, _ => InvalidDate
  end.

Definition getTime (d : Date) : Number :=
  match d with
  | DateAt t => Some t
  | InvalidDate => None
  end.

Definition getFullYear (tza : Z) (d : Date) : Number :=
  match d with
  | DateAt t => Some (YearFromTime (LocalTime tza t))
  | InvalidDate => None
  end.

Definition getMonth (tza : Z) (d : Date) : Number :=
  match d with
  | DateAt t => Some (MonthFromTime (LocalTime tza t))
  | InvalidDate => None
  end.

Definition getDate (tza : Z) (d : Date) : Number :=
  match d with
  | DateAt t => Some (DateFromTime (LocalTime tza t))
  | InvalidDate => None
  end.

Definition getUTCFullYear (d : Date) : Number :=
  match d with DateAt t => Some (YearFromTime t) | InvalidDate => None end.
Definition getUTCMonth (d : Date) : Number :=
  match d with DateAt t => Some (MonthFromTime t) | InvalidDate => None end.
Definition getUTCDate (d : Date) : Number :=
  match d with DateAt t => Some (DateFromTime t) | InvalidDate => None end.
Definition getUTCHours (d : Date) : Number :=
  match d with DateAt t => Some (HourFromTime t) | InvalidDate => None end.
Definition getUTCMinutes (d : Date) : Number :=
  match d with DateAt t => Some (MinFromTime t) | InvalidDate => None end.
Definition getUTCSeconds (d : Date) : Number :=
  match d with DateAt t => Some (SecFromTime t) | InvalidDate => None end.

(** [d.setDate(dt)]: the new time value of [d]. *)
Definition setDate (tza : Z) (d : Date) (dt : Number) : Date :=
  match d, dt with
  | DateAt t, Some n =>
      let lt := LocalTime tza t in
      TimeClip (UTC tza (MakeDate (MakeDay (YearFromTime lt) (MonthFromTime lt) n)
                                  (TimeWithinDay lt)))
  | _, _ => InvalidDate
  end.

(** [d.setHours(h, m, s, ms)]: the new time value of [d]. *)
Definition setHours (tza : Z) (d : Date) (h m s ms : Z) : Date :=
  match d with
  | DateAt t =>
      let lt := LocalTime tza t in
      TimeClip (UTC tza (MakeDate (Day lt) (MakeTime h m s ms)))
  | InvalidDate => InvalidDate
  end.

(** [a < b] and [a > b] on dates compare the time values; a comparison
    with an invalid date is false. *)
Definition Date_lt (a b : Date) : bool :=
  match a, b with
  | DateAt x, DateAt y => x <? y
  | _, _ => false
  end.

Definition Date_gt (a b : Date) : bool := Date_lt b a.

(** ** Values and exceptions

    The values that occur as properties of an event object or as cells of
    the error sheet.  [VNumber] carries an integral Number. *)
Inductive Value : Type :=
| VUndefined
| VBool (b : bool)
| VNumber (n : Z)
| VString (s : jsstring)
| VDate (d : Date).

#[global] Instance Value_eq_dec : EqDecision Value.
Proof. solve_decision. Defined.

(** [ToBoolean]: what [if (v)], [v && w] and [v || w] test. *)
Definition truthy (v : Value) : bool :=
  match v with
  | VUndefined => false
  | VBool b => b
  | VNumber n => negb (n =? 0)
  | VString s => negb (bool_decide (s = []))
  | VDate _ => true
  end.

(** [v || w] *)
Definition orElse (v w : Value) : Value := if truthy v then v else w.

(** Exceptions: the [TypeError] of a method call on a value that lacks
    the method, and the failure of a call to a Google service. *)
Inductive Error : Type :=
| TypeError
| ServiceError.

(** The outcome of evaluating an expression or a call: a value, or an
    exception that is propagated to the caller. *)
Inductive Completion (A : Type) : Type :=
| Normal (a : A)
| Throw (e : Error).

Arguments Normal {A} a.
Arguments Throw {A} e.

#[global] Instance Completion_ret : MRet Completion := fun A a => Normal a.

#[global] Instance Completion_bind : MBind Completion :=
  fun A B k c =>
    match c with
    | Normal a => k a
    | Throw e => Throw e
    end.

(** Calling a [Date] method on a value: a [TypeError] unless the value is
    a [Date]. *)
Definition asDate (v : Value) : Completion Date :=
  match v with
  | VDate d => Normal d
  | _ => Throw TypeError
  end.

(** Calling a [String] method on a value: a [TypeError] unless the value
    is a string. *)
Definition asString (v : Value) : Completion jsstring :=
  match v with
  | VString s => Normal s
  | _ => Throw TypeError
  end.

(** ** Instances of the platform parameters used in the examples *)

(** Asia/Tokyo: UTC+09:00 all year. *)
Definition tokyo : Z := 9 * msPerHour.

(** Lower-casing of the letters A to Z. *)
Definition asciiToLowerCase (s : jsstring) : jsstring :=
  map (fun c => if ((65 <=? c) && (c <=? 90))%N then (c + 32)%N else c) s.

(** [Date.parse] restricted to the form [YYYY-MM-DDTHH:mm:ss], which is
    read as local time; everything else is an invalid date. *)
Definition parseLocalIso (tza : Z) (s : jsstring) : Date :=
  if (length s =? 19)%nat
     && bool_decide (substring s 4 5 = lit "-")
     && bool_decide (substring s 7 8 = lit "-")
     && bool_decide (substring s 10 11 = lit "T")
     && bool_decide (substring s 13 14 = lit ":")
     && bool_decide (substring s 16 17 = lit ":")
  then
    match parseDigits 10 None (substring s 0 4),
          parseDigits 10 None (substring s 5 7),
          parseDigits 10 None (substring s 8 10),
          parseDigits 10 None (substring s 11 13),
          parseDigits 10 None (substring s 14 16),
          parseDigits 10 None (substring s 17 19) with
    | Some y, Some m, Some d, Some h, Some mi, Some sec =>
        TimeClip (UTC tza (MakeDate (MakeDay y (m - 1) d) (MakeTime h mi sec 0)))
    | _, _, _, _, _, _ => InvalidDate
    end
  else InvalidDate.

(* ===================================================================== *)
(** * Part II.  The program [gas.ts]                                       *)
(* ===================================================================== *)

(** An event object.  A property that has not been assigned is
    [VUndefined].  [rowIndex] is only set on events read back from the
    error sheet. *)
Record Event : Type := mkEvent {
  title : Value;
  start : Value;
  end_ : Value;
  isAllDay : Value;
  description : Value;
  location : Value;
  rowIndex : Value
}.

(** The object literal [{}]. *)
Definition emptyEvent : Event :=
  mkEvent VUndefined VUndefined VUndefined VUndefined VUndefined VUndefined VUndefined.

Definition set_title (v : Value) (e : Event) : Event :=
  mkEvent v (start e) (end_ e) (isAllDay e) (description e) (location e) (rowIndex e).
Definition set_start (v : Value) (e : Event) : Event :=
  mkEvent (title e) v (end_ e) (isAllDay e) (description e) (location e) (rowIndex e).
Definition set_end (v : Value) (e : Event) : Event :=
  mkEvent (title e) (start e) v (isAllDay e) (description e) (location e) (rowIndex e).
Definition set_isAllDay (v : Value) (e : Event) : Event :=
  mkEvent (title e) (start e) (end_ e) v (description e) (location e) (rowIndex e).
Definition set_description (v : Value) (e : Event) : Event :=
  mkEvent (title e) (start e) (end_ e) (isAllDay e) v (location e) (rowIndex e).
Definition set_location (v : Value) (e : Event) : Event :=
  mkEvent (title e) (start e) (end_ e) (isAllDay e) (description e) v (rowIndex e).

(** An event of the target calendar, as the calendar service returns it. *)
Record CalendarEvent : Type := mkCalendarEvent {
  isAllDayEvent : bool;
  getAllDayStartDate : Date;
  getStartTime : Date;
  getTitle : jsstring
}.

(** Calls made to the calendar service. *)
Inductive StoreCall : Type :=
| GetCalendarById (id : jsstring)
| GetEvents (from to : Date).

(** The state of the loop of [parseIcsContent]. *)
Record ParserState : Type := mkParserState {
  events : list Event;
  currentEvent : option Event;
  inEvent : bool
}.

(** The result of [getEventDateRange]; [None] is [null]. *)
Record DateRange : Type := mkDateRange {
  range_start : option Date;
  range_end : option Date
}.

(** A call to [createAllDayEvent] ([call_allDay] true) or to [createEvent]
    of the target calendar, with its arguments. *)
Record CreateCall : Type := mkCreateCall {
  call_allDay : bool;
  call_title : Value;
  call_start : Value;
  call_end : Value;
  call_description : Value;
  call_location : Value
}.

(** The counters that [processEventsInBatches] returns. *)
Record BatchResult : Type := mkBatchResult {
  created : nat;
  skipped : nat;
  errors : nat
}.

(** [CONFIG.SLEEP_INTERVAL] *)
Definition SLEEP_INTERVAL : Z := 1000.

(** The header row of the error sheet (lines 325-327). *)
Definition headerRow : list Value :=
  [VString (lit "Title"); VString (lit "Start Date"); VString (lit "End Date");
   VString (lit "Is All Day"); VString (lit "Description"); VString (lit "Location");
   VString (lit "Error Message")].

(** [l.slice(a, b)]: both indices are clamped to the length of [l]. *)
Definition slice {A} (l : list A) (a b : nat) : list A :=
  let len := length l in
  let from := Nat.min a len in
  let to := Nat.min b len in
  take (to - from) (drop from l).

(** [CONFIG.CALENDAR_ID] *)
Definition CALENDAR_ID : jsstring := lit "example@gmail.com".

(** The prefixes of the recognised property lines. *)
Definition SUMMARY : jsstring := lit "SUMMARY:".
Definition DTSTART_DATE : jsstring := lit "DTSTART;VALUE=DATE:".
Definition DTSTART : jsstring := lit "DTSTART:".
Definition DTEND_DATE : jsstring := lit "DTEND;VALUE=DATE:".
Definition DTEND : jsstring := lit "DTEND:".
Definition DESCRIPTION : jsstring := lit "DESCRIPTION:".
Definition LOCATION : jsstring := lit "LOCATION:".
Definition BEGIN_VEVENT : jsstring := lit "BEGIN:VEVENT".
Definition END_VEVENT : jsstring := lit "END:VEVENT".

(** [l.startsWith(' ') || l.startsWith('\t')] *)
Definition isContinuation (l : jsstring) : bool :=
  startsWith [32%N] l || startsWith [9%N] l.

(** [row[k]]: reading past the end of an array gives [undefined]. *)
Definition cell (row : list Value) (k : nat) : Value :=
  match row !! k with
  | Some v => v
  | None => VUndefined
  end.

(** ** Data of the examples *)

(** A calendar without events. *)
Definition emptyCalendar (from to : Date) : Completion (list CalendarEvent) :=
  Normal [].

(** Line ends. *)
Definition LF : jsstring := [10%N].
Definition CRLF : jsstring := [13%N; 10%N].

(** An all-day event on 5 January 2024 (midnight in Tokyo), and two timed
    events on that day, at 09:00 and at 18:00 Tokyo time, with the same
    title up to case and surrounding space. *)
Definition standupAllDay : Event :=
  mkEvent (VString (lit "Standup")) (VDate (DateAt 1704380400000)) VUndefined
          (VBool true) VUndefined VUndefined VUndefined.

Definition standupMorning : Event :=
  mkEvent (VString (lit "Standup")) (VDate (DateAt 1704412800000)) VUndefined
          (VBool false) VUndefined VUndefined VUndefined.

Definition standupEvening : Event :=
  mkEvent (VString (lit " STANDUP ")) (VDate (DateAt 1704445200000)) VUndefined
          (VBool false) VUndefined VUndefined VUndefined.

Definition review : Event :=
  mkEvent (VString (lit "Review")) (VDate (DateAt 1704531600000)) VUndefined
          (VBool false) VUndefined VUndefined VUndefined.

(** Scenario A of the specification: the same block twice. *)
Definition standupBlock : jsstring :=
  lit "BEGIN:VEVENT" ++ CRLF ++ lit "SUMMARY:Standup" ++ CRLF
  ++ lit "DTSTART;VALUE=DATE:20240105" ++ CRLF ++ lit "END:VEVENT" ++ CRLF.

Definition standupTwice : jsstring := standupBlock ++ standupBlock.

(** A block whose SUMMARY is empty. *)
Definition emptySummaryBlock : jsstring :=
  lit "BEGIN:VEVENT" ++ CRLF ++ lit "SUMMARY:" ++ CRLF
  ++ lit "DTSTART;VALUE=DATE:20240105" ++ CRLF ++ lit "END:VEVENT" ++ CRLF.

(** A block whose SUMMARY, "Team meeting", is folded after the space. *)
Definition foldedSummaryBlock : jsstring :=
  lit "BEGIN:VEVENT" ++ CRLF ++ lit "SUMMARY:Team " ++ CRLF ++ lit " meeting" ++ CRLF
  ++ lit "DTSTART;VALUE=DATE:20240105" ++ CRLF ++ lit "END:VEVENT" ++ CRLF.

(** The error sheet of scenario C. *)
Definition syncSheet : list (list Value) :=
  [[VString (lit "Title"); VString (lit "Start Date"); VString (lit "End Date");
    VString (lit "Is All Day"); VString (lit "Description"); VString (lit "Location");
    VString (lit "Error Message")];
   [VString (lit "Sync"); VString (lit "2024-02-01T10:00:00"); VString [];
    VString (lit "FALSE"); VString []; VString []; VString (lit "API error")]].

(** A calendar that records the calls it accepts and refuses the events
    titled "Fail". *)
Definition recordingCalendar (log : list CreateCall) (c : CreateCall)
  : list CreateCall * option Error :=
  if bool_decide (call_title c = VString (lit "Fail"))
  then (log, Some ServiceError)
  else (log ++ [c], None).

(** A sheet that accepts every row. *)
Definition acceptsRows (rows : list (list Value)) (row : list Value) : bool := false.

(** The text of an exception. *)
Definition errorName (e : Error) : jsstring :=
  match e with
  | TypeError => lit "TypeError"
  | ServiceError => lit "Exception"
  end.

(** An event that the recording calendar refuses. *)
Definition failing : Event :=
  mkEvent (VString (lit "Fail")) (VDate (DateAt 1704531600000)) VUndefined
          (VBool false) VUndefined VUndefined VUndefined.

(** The events of a run in which two creations fail. *)
Definition retryRun : list Event :=
  [standupAllDay; failing; review; standupMorning; failing].

(** An event read from a row whose start cell is empty. *)
Definition withoutStart : Event :=
  mkEvent (VString (lit "Sync")) VUndefined VUndefined
          (VBool false) VUndefined VUndefined VUndefined.

(** A calendar that holds an all-day event titled "STANDUP " on 5 January
    2024. *)
Definition standupInCalendar : CalendarEvent :=
  mkCalendarEvent true (DateAt 1704380400000) (DateAt 1704380400000) (lit "STANDUP ").

Definition calendarWithStandup (from to : Date) : Completion (list CalendarEvent) :=
  Normal [standupInCalendar].

(** A block whose DTSTART has a date-time value without ['T']. *)
Definition dateTimeWithoutT : jsstring :=
  lit "BEGIN:VEVENT" ++ CRLF ++ lit "SUMMARY:Standup" ++ CRLF
  ++ lit "DTSTART:20240105" ++ CRLF ++ lit "END:VEVENT" ++ CRLF.

(** A calendar file without an event. *)
Definition calendarWithoutEvent : jsstring :=
  lit "BEGIN:VCALENDAR" ++ CRLF ++ lit "VERSION:2.0" ++ CRLF ++ lit "END:VCALENDAR" ++ CRLF.

Section Importer.

(** The platform parameters: the offset of the script's time zone, the
    Unicode lower-casing of [String.prototype.toLowerCase], [Date.parse],
    and the target calendar's [getEvents]. *)
Variable tza : Z.
Variable toLowerCase : jsstring -> jsstring.
Variable Date_parse : jsstring -> Date.
Variable calendar_getEvents : Date -> Date -> Completion (list CalendarEvent).

(** [new Date(v)] *)
Definition newDate (v : Value) : Date :=
  match v with
  | VUndefined => InvalidDate
  | VBool b => TimeClip (if b then 1 else 0)
  | VNumber n => TimeClip n
  | VString s => Date_parse s
  | VDate d => d
  end.

(** [parseIcsDate] (gas.ts, lines 131-136) *)
Definition parseIcsDate (dateStr : jsstring) : Date :=
  let year := parseInt (substring dateStr 0 4) in
  let month := Number_add (parseInt (substring dateStr 4 6)) (-1) in
  let day := parseInt (substring dateStr 6 8) in
  Date_ofFields tza year month day (Some 0) (Some 0) (Some 0).

(** [parseIcsDateTime] (lines 141-157).  The array pattern binds
    [datePart] and [timePart] to the first two pieces; a missing piece is
    [undefined], and calling [substring] on it throws. *)
Definition parseIcsDateTime (dateTimeStr : jsstring) : Completion Date :=
  let parts := split 84 dateTimeStr in
  match parts !! 0%nat with
  | None => Throw TypeError
  | Some datePart =>
      let year := parseInt (substring datePart 0 4) in
      let month := Number_add (parseInt (substring datePart 4 6)) (-1) in
      let day := parseInt (substring datePart 6 8) in
      match parts !! 1%nat with
      | None => Throw TypeError
      | Some timePart =>
          let hour := parseInt (substring timePart 0 2) in
          let minute := parseInt (substring timePart 2 4) in
          let second := parseInt (substring timePart 4 6) in
          if endsWith (lit "Z") dateTimeStr
          then Normal (Date_ofNumber (Date_UTC year month day hour minute second))
          else Normal (Date_ofFields tza year month day hour minute second)
      end
  end.

(** [parseEventProperty] (lines 102-126): the updated event object. *)
Definition parseEventProperty (line : jsstring) (event : Event) : Completion Event :=
  if startsWith SUMMARY line then
    Normal (set_title (VString (trim (substringFrom line 8))) event)
  else if startsWith DTSTART_DATE line then
    let event1 := set_isAllDay (VBool true) event in
    Normal (set_start (VDate (parseIcsDate (substringFrom line 19))) event1)
  else if startsWith DTSTART line then
    let event1 := set_isAllDay (VBool false) event in
    d ← parseIcsDateTime (substringFrom line 8);
    Normal (set_start (VDate d) event1)
  else if startsWith DTEND_DATE line then
    Normal (set_end (VDate (parseIcsDate (substringFrom line 17))) event)
  else if startsWith DTEND line then
    d ← parseIcsDateTime (substringFrom line 6);
    Normal (set_end (VDate d) event)
  else if startsWith DESCRIPTION line then
    Normal (set_description (VString (substringFrom line 12)) event)
  else if startsWith LOCATION line then
    Normal (set_location (VString (substringFrom line 9)) event)
  else Normal event.

(** [currentEvent?.title && currentEvent?.start] as a condition. *)
Definition hasTitleAndStart (cur : option Event) : bool :=
  match cur with
  | Some e => truthy (title e) && truthy (start e)
  | None => false
  end.

(** The body of the loop of [parseIcsContent] once [line] is complete
    (lines 80-93). *)
Definition processLine (line : jsstring) (st : ParserState) : Completion ParserState :=
  if bool_decide (line = BEGIN_VEVENT) then
    Normal (mkParserState (events st) (Some emptyEvent) true)
  else if bool_decide (line = END_VEVENT) && inEvent st then
    let events' :=
      match currentEvent st with
      | Some e => if hasTitleAndStart (currentEvent st) then events st ++ [e] else events st
      | None => events st
      end in
    Normal (mkParserState events' None false)
  else
    match inEvent st, currentEvent st with
    | true, Some e =>
        e' ← parseEventProperty line e;
        Normal (mkParserState (events st) (Some e') (inEvent st))
    | _, _ => Normal st
    end.

(** The loop of [parseIcsContent] (lines 72-94).  [line] is the logical
    line under construction and [rest] the physical lines not yet read:
    a continuation line is appended without its first character (the
    inner [while]); any other line ends the logical line, which is then
    processed, and starts the next one with its own [trim()]. *)
Fixpoint parseLoop (line : jsstring) (rest : list jsstring) (st : ParserState)
  : Completion ParserState :=
  match rest with
  | [] => processLine line st
  | l :: rest' =>
      if isContinuation l then parseLoop (line ++ substringFrom l 1) rest' st
      else st' ← processLine line st; parseLoop (trim l) rest' st'
  end.

(** [parseIcsContent] (lines 66-97) *)
Definition parseIcsContent (content : jsstring) : Completion (list Event) :=
  match splitLines content with
  | [] => Normal []
  | l :: rest =>
      st ← parseLoop (trim l) rest (mkParserState [] None false);
      Normal (events st)
  end.

(** [formatDateKey] (lines 190-195) *)
Definition formatDateKey (date : Date) : jsstring :=
  let year := getFullYear tza date in
  let month := padStart (Number_toString (Number_add (getMonth tza date) 1)) 2 48%N in
  let day := padStart (Number_toString (getDate tza date)) 2 48%N in
  Number_toString year ++ lit "-" ++ month ++ lit "-" ++ day.

(** [generateEventKey] (lines 181-185) *)
Definition generateEventKey (event : Event) : Completion jsstring :=
  d ← asDate (start event);
  let date := formatDateKey d in
  s ← asString (title event);
  let title := trim (toLowerCase s) in
  Normal (date ++ lit "|" ++ title).

(** [removeDuplicateEvents] (lines 163-176): the [forEach] with its two
    accumulators [uniqueEvents] and [seenKeys]. *)
Fixpoint removeDuplicateLoop (evs : list Event) (uniqueEvents : list Event)
  (seenKeys : gset jsstring) : Completion (list Event) :=
  match evs with
  | [] => Normal uniqueEvents
  | event :: evs' =>
      key ← generateEventKey event;
      if bool_decide (key ∈ seenKeys)
      then removeDuplicateLoop evs' uniqueEvents seenKeys
      else removeDuplicateLoop evs' (uniqueEvents ++ [event]) ({[key]} ∪ seenKeys)
  end.

Definition removeDuplicateEvents (evs : list Event) : Completion (list Event) :=
  removeDuplicateLoop evs [] ∅.

(** One round of the [forEach] of [getEventDateRange] (lines 233-237). *)
Definition rangeStep (acc : Date * Date) (event : Event) : Date * Date :=
  let '(minDate, maxDate) := acc in
  let eventDate := newDate (start event) in
  let minDate' := if Date_lt eventDate minDate then eventDate else minDate in
  let maxDate' := if Date_gt eventDate maxDate then eventDate else maxDate in
  (minDate', maxDate').

(** [getEventDateRange] (lines 227-249) *)
Definition getEventDateRange (evs : list Event) : DateRange :=
  match evs with
  | [] => mkDateRange None None
  | first :: _ =>
      let '(minDate, maxDate) :=
        fold_left rangeStep evs (newDate (start first), newDate (start first)) in
      let start0 := minDate in
      let start1 := setDate tza start0 (Number_add (getDate tza start0) (-1)) in
      let start2 := setHours tza start1 0 0 0 0 in
      let end0 := maxDate in
      let end1 := setDate tza end0 (Number_add (getDate tza end0) 1) in
      let end2 := setHours tza end1 23 59 59 999 in
      mkDateRange (Some start2) (Some end2)
  end.

(** The key of an event of the target calendar (lines 216-217). *)
Definition calendarEventKey (event : CalendarEvent) : jsstring :=
  let eventDate :=
    if isAllDayEvent event then getAllDayStartDate event else getStartTime event in
  formatDateKey eventDate ++ lit "|" ++ trim (toLowerCase (getTitle event)).

(** [getExistingCalendarEvents] (lines 200-222): the calls made to the
    calendar service, in order, and the outcome. *)
Definition getExistingCalendarEvents (evs : list Event)
  : list StoreCall * Completion (gset jsstring) :=
  let calls := [GetCalendarById CALENDAR_ID] in
  let existingKeys : gset jsstring := ∅ in
  let dateRange := getEventDateRange evs in
  match range_start dateRange, range_end dateRange with
  | Some from, Some to =>
      (calls ++ [GetEvents from to],
       existingEvents ← calendar_getEvents from to;
       Normal (fold_left (fun keys event => {[calendarEventKey event]} ∪ keys)
                         existingEvents existingKeys))
  | _, _ => (calls, Normal existingKeys)
  end.

(** [filterEventsToCreate] (lines 254-259) *)
Fixpoint filterEventsToCreate (evs : list Event) (existingKeys : gset jsstring)
  : Completion (list Event) :=
  match evs with
  | [] => Normal []
  | event :: evs' =>
      key ← generateEventKey event;
      kept ← filterEventsToCreate evs' existingKeys;
      Normal (if bool_decide (key ∈ existingKeys) then kept else event :: kept)
  end.

(** The event rebuilt from row [i] of the error sheet (lines 277-288). *)
Definition errorEventOfRow (i : nat) (row : list Value) : Event :=
  let event :=
    mkEvent (cell row 0)
            (VDate (newDate (cell row 1)))
            VUndefined
            (VBool (bool_decide (cell row 3 = VString (lit "TRUE"))))
            (orElse (cell row 4) (VString []))
            (orElse (cell row 5) (VString []))
            (VNumber (Z.of_nat i + 1)) in
  if truthy (cell row 2) then set_end (VDate (newDate (cell row 2))) event else event.

(** The [for] loop of [getErrorEvents] (lines 273-295), from row [i]. *)
Fixpoint errorEventsFrom (i : nat) (rows : list (list Value)) : list Event :=
  match rows with
  | [] => []
  | row :: rows' =>
      if truthy (cell row 0) && truthy (cell row 1)
      then errorEventOfRow i row :: errorEventsFrom (S i) rows'
      else errorEventsFrom (S i) rows'
  end.

(** [getErrorEvents] (lines 264-304).  [sheet] is the outcome of reading
    the error sheet ([getOrCreateErrorSheet().getDataRange().getValues()]);
    when that throws, the function returns the empty array. *)
Definition getErrorEvents (sheet : Completion (list (list Value))) : list Event :=
  match sheet with
  | Throw _ => []
  | Normal data =>
      if (length data <=? 1)%nat then [] else errorEventsFrom 1 (drop 1 data)
  end.

(** Steps 1 to 4 of [importIcsToCalendar] (lines 22-35): [eventsToCreate]. *)
Definition eventsToCreate (content : jsstring) : Completion (list Event) :=
  evs ← parseIcsContent content;
  uniqueEvents ← removeDuplicateEvents evs;
  existingEvents ← snd (getExistingCalendarEvents uniqueEvents);
  filterEventsToCreate uniqueEvents existingEvents.

(** Step 5 of [importIcsToCalendar] (lines 38-39): [allEventsToProcess]. *)
Definition allEventsToProcess (content : jsstring)
  (sheet : Completion (list (list Value))) : Completion (list Event) :=
  fresh ← eventsToCreate content;
  let errorEvents := getErrorEvents sheet in
  Normal (fresh ++ errorEvents).

(** ** The creation pass

    The calendar and the error sheet are services outside the program.
    The calendar is a state [Store] with its answer to a creation call:
    the next state, and the exception that the call throws, if any.  The
    error sheet is the list of its rows, the header first; [appendRow]
    may fail, and [appendRow_fails] tells when.  [errorText] is
    [error.toString()].  [CONFIG.BATCH_SIZE] (10, and 3 while
    [testImport] runs) is the argument [BATCH_SIZE] of the functions
    that read it. *)
Variable Store : Type.
Variable calendar_create : Store -> CreateCall -> Store * option Error.
Variable appendRow_fails : list (list Value) -> list Value -> bool.
Variable errorText : Error -> jsstring.

(** What the program acts on: the calendar, the rows of the error sheet,
    and the pauses made so far. *)
Record World : Type := mkWorld {
  calendar : Store;
  errorSheet : list (list Value);
  sleeps : list Z
}.

(** [getOrCreateErrorSheet] (lines 309-331): the rows of the sheet it
    returns.  A sheet without a row, new or not, receives the header. *)
Definition getOrCreateErrorSheet (rows : list (list Value)) : list (list Value) :=
  if (length rows =? 0)%nat then [headerRow] else rows.

(** The end that [createCalendarEvent] passes to the calendar:
    [event.end || new Date(event.start.getTime() + duration)]. *)
Definition endOrDefault (event : Event) (duration : Z) : Completion Value :=
  if truthy (end_ event) then Normal (end_ event)
  else d ← asDate (start event);
       Normal (VDate (Date_ofNumber (Number_add (getTime d) duration))).

(** [createCalendarEvent] (lines 380-393), up to the call of the
    calendar: the call it makes, or the exception thrown before. *)
Definition createCall (event : Event) : Completion CreateCall :=
  let description := orElse (description event) (VString []) in
  let location := orElse (location event) (VString []) in
  if truthy (isAllDay event) then
    endDate ← endOrDefault event (24 * 60 * 60 * 1000);
    Normal (mkCreateCall true (title event) (start event) endDate description location)
  else
    endTime ← endOrDefault event (60 * 60 * 1000);
    Normal (mkCreateCall false (title event) (start event) endTime description location).

(** The array [row] of [recordError] (lines 400-408). *)
Definition errorRow (event : Event) (errorMessage : jsstring) : list Value :=
  [title event;
   start event;
   orElse (end_ event) (VString []);
   VString (if truthy (isAllDay event) then lit "TRUE" else lit "FALSE");
   orElse (description event) (VString []);
   orElse (location event) (VString []);
   VString errorMessage].

(** [recordError] (lines 398-415): the rows of the sheet afterwards.  A
    failure of [appendRow] is caught and leaves the sheet as it was. *)
Definition recordError (rows : list (list Value)) (event : Event)
  (errorMessage : jsstring) : list (list Value) :=
  let row := errorRow event errorMessage in
  if appendRow_fails rows row then rows else rows ++ [row].

(** The [catch] block of the loop body (lines 358-365). *)
Definition onError (st : Store) (w : World) (r : BatchResult) (event : Event)
  (error : Error) : World * BatchResult :=
  (mkWorld st (recordError (errorSheet w) event (errorText error)) (sleeps w),
   mkBatchResult (created r) (skipped r) (S (errors r))).

(** The body of [batch.forEach] (lines 350-366).  After a creation that
    succeeded, [result.created] is incremented and the log line formats
    [event.start] with [formatDateKey], still inside the [try]. *)
Definition processEvent (acc : World * BatchResult) (event : Event)
  : World * BatchResult :=
  let '(w, r) := acc in
  match createCall event with
  | Throw error => onError (calendar w) w r event error
  | Normal c =>
      match calendar_create (calendar w) c with
      | (st, Some error) => onError st w r event error
      | (st, None) =>
          let r1 := mkBatchResult (S (created r)) (skipped r) (errors r) in
          match asDate (start event) with
          | Normal _ => (mkWorld st (errorSheet w) (sleeps w), r1)
          | Throw error => onError st w r1 event error
          end
      end
  end.

(** [Utilities.sleep(CONFIG.SLEEP_INTERVAL)] *)
Definition sleep (w : World) : World :=
  mkWorld (calendar w) (errorSheet w) (sleeps w ++ [SLEEP_INTERVAL]).

(** The [for] loop of [processEventsInBatches] (lines 346-372), from
    index [i].  [fuel] bounds the number of rounds: with [BATCH_SIZE] 0
    the index does not advance and the loop of the source does not end. *)
Fixpoint batchLoop (BATCH_SIZE fuel i : nat) (evs : list Event) (w : World)
  (r : BatchResult) : option (World * BatchResult) :=
  match fuel with
  | O => None
  | S fuel' =>
      if (i <? length evs)%nat then
        let batch := slice evs i (i + BATCH_SIZE) in
        let '(w1, r1) := fold_left processEvent batch (w, r) in
        let w2 := if (i + BATCH_SIZE <? length evs)%nat then sleep w1 else w1 in
        batchLoop BATCH_SIZE fuel' (i + BATCH_SIZE) evs w2 r1
      else Some (w, r)
  end.

(** [processEventsInBatches] (lines 336-375).  The rows below the header
    are cleared first; the sheet has the seven columns that the program
    writes, so that the cleared rows hold nothing. *)
Definition processEventsInBatches (BATCH_SIZE : nat) (evs : list Event) (w : World)
  : option (World * BatchResult) :=
  let sheet0 := getOrCreateErrorSheet (errorSheet w) in
  let sheet1 := if (1 <? length sheet0)%nat then take 1 sheet0 else sheet0 in
  batchLoop BATCH_SIZE (S (length evs)) 0 evs (mkWorld (calendar w) sheet1 (sleeps w))
            (mkBatchResult 0 0 0).

(** [importIcsToCalendar] (lines 17-52): an exception of steps 1 to 4 is
    thrown again; otherwise the outcome of the creation pass.  The error
    events are read from the sheet that [getOrCreateErrorSheet] returns. *)
Definition importIcsToCalendar (BATCH_SIZE : nat) (content : jsstring) (w : World)
  : Completion (option (World * BatchResult)) :=
  fresh ← eventsToCreate content;
  let sheet0 := getOrCreateErrorSheet (errorSheet w) in
  let errorEvents := getErrorEvents (Normal sheet0) in
  let allEvents := fresh ++ errorEvents in
  Normal (processEventsInBatches BATCH_SIZE allEvents
            (mkWorld (calendar w) sheet0 (sleeps w))).

(** [clearErrorSheet] (lines 467-481): the rows of the sheet afterwards.
    As in [processEventsInBatches], the rows below the first are
    cleared, and hold nothing afterwards. *)
Definition clearErrorSheet (rows : list (list Value)) : list (list Value) :=
  let sheet := getOrCreateErrorSheet rows in
  if (1 <? length sheet)%nat then take 1 sheet else sheet.

(** The steps of [testImport] before the creation pass (lines 649-659):
    the first five parsed records, without their duplicates and without
    those that the calendar holds. *)
Definition testEventsToCreate (content : jsstring) : Completion (list Event) :=
  allEvents ← parseIcsContent content;
  let testEvents := slice allEvents 0 5 in
  uniqueEvents ← removeDuplicateEvents testEvents;
  existingEvents ← snd (getExistingCalendarEvents uniqueEvents);
  filterEventsToCreate uniqueEvents existingEvents.

(** [testImport] (lines 640-679): what it leaves behind, and the value of
    [CONFIG.BATCH_SIZE] afterwards.  The batch size is 3 while it runs
    and is set back as the last statement of the [try] block; an
    exception is caught, and the statements after its origin are not
    run. *)
Definition testImport (BATCH_SIZE : nat) (content : jsstring) (w : World)
  : option (World * nat) :=
  let originalBatchSize := BATCH_SIZE in
  match testEventsToCreate content with
  | Throw _ => Some (w, 3%nat)
  | Normal eventsToCreate =>
      if (0 <? length eventsToCreate)%nat then
        match processEventsInBatches 3 eventsToCreate w with
        | Some (w', _) => Some (w', originalBatchSize)
        | None => None
        end
      else Some (w, originalBatchSize)
  end.

(** The events of a sequence whose creation fails, in order, each with
    its exception, and the calendar after all the calls. *)
Fixpoint creationFailures (st : Store) (evs : list Event) : list (Event * Error) * Store :=
  match evs with
  | [] => ([], st)
  | event :: evs' =>
      match createCall event with
      | Throw error =>
          let '(fs, st') := creationFailures st evs' in ((event, error) :: fs, st')
      | Normal c =>
          match calendar_create st c with
          | (st1, Some error) =>
              let '(fs, st') := creationFailures st1 evs' in ((event, error) :: fs, st')
          | (st1, None) => creationFailures st1 evs'
          end
      end
  end.

(** The rows that [recordError] writes for a sequence of failures. *)
Definition failureRows (fs : list (Event * Error)) : list (list Value) :=
  (fun f : Event * Error => errorRow f.1 (errorText f.2)) <$> fs.

(** Number of pauses between the batches of [n] events. *)
Definition pauses (BATCH_SIZE n : nat) : nat :=
  match n with
  | O => O
  | S m => (m / BATCH_SIZE)%nat
  end.

(** An event that the error sheet gives back as it was: its title is
    truthy, its start is a [Date], and its end is a [Date] or absent. *)
Definition retriable (e : Event) : Prop :=
  truthy (title e) = true
  /\ (exists d, start e = VDate d)
  /\ (end_ e = VUndefined \/ exists d, end_ e = VDate d).

(** The record that the parser builds inside a block: every property is
    absent or of the type that [parseEventProperty] gives it, and the
    all-day flag is set exactly when the start is. *)
Definition parsedAccumulator (e : Event) : Prop :=
  (title e = VUndefined \/ exists s, title e = VString s)
  /\ ((start e = VUndefined /\ isAllDay e = VUndefined)
      \/ exists d b, start e = VDate d /\ isAllDay e = VBool b)
  /\ (end_ e = VUndefined \/ exists d, end_ e = VDate d)
  /\ (description e = VUndefined \/ exists s, description e = VString s)
  /\ (location e = VUndefined \/ exists s, location e = VString s)
  /\ rowIndex e = VUndefined.

(** A record that the parser emits. *)
Definition parsedRecord (e : Event) : Prop :=
  (exists s, title e = VString s /\ s <> [])
  /\ (exists d b, start e = VDate d /\ isAllDay e = VBool b)
  /\ (end_ e = VUndefined \/ exists d, end_ e = VDate d)
  /\ (description e = VUndefined \/ exists s, description e = VString s)
  /\ (location e = VUndefined \/ exists s, location e = VString s)
  /\ rowIndex e = VUndefined.

(** The invariant of the loop of [parseIcsContent]. *)
Definition parserInvariant (st : ParserState) : Prop :=
  Forall parsedRecord (events st)
  /\ (forall e, currentEvent st = Some e -> parsedAccumulator e).

(** Lines joined by a line end. *)
Fixpoint joinLines (sep : jsstring) (ls : list jsstring) : jsstring :=
  match ls with
  | [] => []
  | l :: ls' =>
      match ls' with
      | [] => l
      | _ :: _ => l ++ sep ++ joinLines sep ls'
      end
  end.

(** A line as a text editor shows it: it holds no line feed and does not
    end with a carriage return. *)
Definition plainLine (l : jsstring) : Prop :=
(10%N ∉ l) /\ last l <> Some 13%N.

(** The starts of a sequence of events that [new Date(event.start)]
    turns into valid dates, as time values. *)
Definition validTimes (evs : list Event) : list Z :=
  omap (fun e => match newDate (start e) with
                 | DateAt t => Some t
                 | InvalidDate => None
                 end) evs.

(** The date of a calendar event that enters its key. *)
Definition calendarEventDate (event : CalendarEvent) : Date :=
  if isAllDayEvent event then getAllDayStartDate event else getStartTime event.

(** An event as the creation pass expects it: the start is a [Date]. *)
Definition hasDateStart (e : Event) : Prop := exists d, start e = VDate d.

(** ** Vocabulary of the specification *)

(** The logical lines that [parseLoop] hands to [processLine], in order:
    the output of the Line Unfolder. *)
Fixpoint unfoldFrom (line : jsstring) (rest : list jsstring) : list jsstring :=
  match rest with
  | [] => [line]
  | l :: rest' =>
      if isContinuation l then unfoldFrom (line ++ substringFrom l 1) rest'
      else line :: unfoldFrom (trim l) rest'
  end.

Definition logicalLines (content : jsstring) : list jsstring :=
  match splitLines content with
  | [] => []
  | l :: rest => unfoldFrom (trim l) rest
  end.

(** The Record Parser run over a sequence of logical lines. *)
Fixpoint runLines (ls : list jsstring) (st : ParserState) : Completion ParserState :=
  match ls with
  | [] => Normal st
  | l :: ls' => st' ← processLine l st; runLines ls' st'
  end.

(** The record accumulated from the property lines of one block. *)
Fixpoint accumulate (body : list jsstring) (e : Event) : Completion Event :=
  match body with
  | [] => Normal e
  | l :: body' => e' ← parseEventProperty l e; accumulate body' e'
  end.

(** The record under construction holds a string or nothing as title and
    a [Date] or nothing as start. *)
Definition accumulator (e : Event) : Prop :=
  (title e = VUndefined \/ exists s, title e = VString s)
  /\ (start e = VUndefined \/ exists d, start e = VDate d).

(** An EventRecord of the data model: the title is text and the start is
    a [Date]. *)
Definition isRecord (e : Event) : Prop :=
  (exists s, title e = VString s) /\ (exists d, start e = VDate d).

(** The reconciliation key of a record. *)
Definition recordKey (e : Event) : jsstring :=
  match generateEventKey e with
  | Normal k => k
  | Throw _ => []
  end.

(** The first occurrences of the keys of a sequence: position [i] is
    retained when its key occurs at no position before [i], and the
    retained elements stay in their order. *)
Definition firstOccurrences (X : list Event) : list Event :=
  (filter (fun p : nat * Event => recordKey p.2 ∉ (recordKey <$> take p.1 X))
          (imap pair X)).*2.

(** The same, by recursion: the elements of [X] whose key occurs neither
    in [earlier] nor at an earlier position of [X]. *)
Fixpoint firstsFrom (earlier : list jsstring) (X : list Event) : list Event :=
  match X with
  | [] => []
  | e :: X' =>
      if bool_decide (recordKey e ∈ earlier)
      then firstsFrom (earlier ++ [recordKey e]) X'
      else e :: firstsFrom (earlier ++ [recordKey e]) X'
  end.

(** The instant at which the local calendar day of [t] begins. *)
Definition startOfLocalDay (t : Z) : Z :=
  UTC tza (Day (LocalTime tza t) * msPerDay).

(** The instant at which the local calendar day of [t] ends. *)
Definition endOfLocalDay (t : Z) : Z := startOfLocalDay t + msPerDay - 1.

(** Instants far enough from the ends of the time range for the window
    around them to be representable. *)
Definition windowSafe (t : Z) : Prop :=
  Z.abs t + Z.abs tza + 2 * msPerDay <= maxTime.

(** Decimal digits, and the date-time token [YYYYMMDDTHHMMSSZ] with given
    fields ([mo] is the month number, 1 to 12). *)
Definition digitChar (k : Z) : N := Z.to_N (48 + k).

Definition digits2 (n : Z) : jsstring :=
  [digitChar (n / 10 mod 10); digitChar (n mod 10)].

Definition digits4 (n : Z) : jsstring :=
  [digitChar (n / 1000 mod 10); digitChar (n / 100 mod 10);
   digitChar (n / 10 mod 10); digitChar (n mod 10)].

Definition utcToken (y mo d h mi s : Z) : jsstring :=
  digits4 y ++ digits2 mo ++ digits2 d ++ lit "T"
  ++ digits2 h ++ digits2 mi ++ digits2 s ++ lit "Z".

Definition daysInMonth (y mo : Z) : Z :=
  if mo =? 2 then 28 + leapOfYear y
  else if (mo =? 4) || (mo =? 6) || (mo =? 9) || (mo =? 11) then 30
  else 31.

Definition inCalendarRange (y mo d h mi s : Z) : Prop :=
  0 <= y <= 9999 /\ 1 <= mo <= 12 /\ 1 <= d <= daysInMonth y mo
  /\ 0 <= h <= 23 /\ 0 <= mi <= 59 /\ 0 <= s <= 59.

(** The date token [YYYYMMDD] and the local date-time token
    [YYYYMMDDTHHMMSS] with given fields. *)
Definition dateToken (y mo d : Z) : jsstring :=
  digits4 y ++ digits2 mo ++ digits2 d.

Definition localToken (y mo d h mi s : Z) : jsstring :=
  digits4 y ++ digits2 mo ++ digits2 d ++ lit "T"
  ++ digits2 h ++ digits2 mi ++ digits2 s.

(* ===================================================================== *)
(** * Part III.  Properties                                                *)
(* ===================================================================== *)

(** Tactics for the arithmetic of time values: case analysis on the
    comparisons of a table, and linear arithmetic with floored division
    by the constants of the calendar. *)
Ltac case_ltb :=
  repeat match goal with
         | |- context [?a <? ?b] => destruct (Z.ltb_spec a b)
         end.

Ltac time_arith :=
  unfold MakeDate, MakeTime, Day, TimeWithinDay, HourFromTime, MinFromTime,
    SecFromTime, UTC, LocalTime, DayFromYear, maxTime, msPerDay, msPerHour,
    msPerMinute, msPerSecond in *;
  Z.div_mod_to_equations; lia.

(** Evaluation of [monthStart] at a known month and leap flag. *)
Ltac eval_monthStart :=
  repeat match goal with
         | |- context [monthStart ?a ?b] =>
             let v := eval vm_compute in (monthStart a b) in
             change (monthStart a b) with v
         end.

(** ** The calendar *)

Lemma DayFromYear_succ y : DayFromYear (y + 1) = DayFromYear y + DaysInYear y.
Proof.
  unfold DayFromYear, DaysInYear.
  destruct (Z.eqb_spec (y mod 4) 0), (Z.eqb_spec (y mod 100) 0),
    (Z.eqb_spec (y mod 400) 0); cbn [negb]; Z.div_mod_to_equations; lia.
Qed.

Lemma DayFromYear_mono y y' : y <= y' -> DayFromYear y <= DayFromYear y'.
Proof.
  intros H. unfold DayFromYear. Z.div_mod_to_equations. lia.
Qed.

(** [YearFromDay d] is the year in which day [d] falls. *)
Lemma YearFromDay_spec d :
  DayFromYear (YearFromDay d) <= d < DayFromYear (YearFromDay d + 1).
Proof.
  unfold YearFromDay.
  set (y0 := 1970 + d * 400 / 146097).
  destruct (Z.leb_spec (DayFromYear (y0 + 1)) d) as [Hup|Hup].
  - split; [lia|].
    subst y0. unfold DayFromYear in *. Z.div_mod_to_equations. lia.
  - destruct (Z.leb_spec (DayFromYear y0) d) as [Hlo|Hlo]; [lia|].
    replace (y0 - 1 + 1) with y0 by lia. split; [|lia].
    subst y0. unfold DayFromYear in *. Z.div_mod_to_equations. lia.
Qed.

(** It is the only such year, hence the largest [y] with
    [DayFromYear y <= d]. *)
Lemma YearFromDay_unique d y :
  DayFromYear y <= d < DayFromYear (y + 1) -> YearFromDay d = y.
Proof.
  intros [Hlo Hhi]. pose proof (YearFromDay_spec d) as [Slo Shi].
  destruct (Z.lt_trichotomy (YearFromDay d) y) as [Hlt|[Heq|Hgt]]; [|exact Heq|].
  - pose proof (DayFromYear_mono (YearFromDay d + 1) y ltac:(lia)). lia.
  - pose proof (DayFromYear_mono (y + 1) (YearFromDay d) ltac:(lia)). lia.
Qed.

Lemma leapOfYear_cases y :
  (leapOfYear y = 0 /\ DaysInYear y = 365) \/ (leapOfYear y = 1 /\ DaysInYear y = 366).
Proof.
  unfold leapOfYear, DaysInYear.
  destruct (y mod 4 =? 0), (y mod 100 =? 0), (y mod 400 =? 0); cbn; auto.
Qed.

Lemma monthOfDayWithinYear_range dwy leap :
  0 <= monthOfDayWithinYear dwy leap <= 11.
Proof.
  unfold monthOfDayWithinYear.
  repeat match goal with |- context [if ?b then _ else _] => destruct b end; lia.
Qed.

(** The month of the [d]-th day of month [mo] (1 to 12) of year [y]. *)
Lemma monthOfDayWithinYear_monthStart y mo d :
  1 <= mo <= 12 -> 1 <= d <= daysInMonth y mo ->
  monthOfDayWithinYear (monthStart (mo - 1) (leapOfYear y) + d - 1) (leapOfYear y)
  = mo - 1.
Proof.
  intros Hm Hd. unfold daysInMonth in Hd.
  assert (mo = 1 \/ mo = 2 \/ mo = 3 \/ mo = 4 \/ mo = 5 \/ mo = 6 \/ mo = 7
          \/ mo = 8 \/ mo = 9 \/ mo = 10 \/ mo = 11 \/ mo = 12) as Hcases by lia.
  destruct (leapOfYear_cases y) as [[Hl _]|[Hl _]]; rewrite Hl in *; clear Hl;
    repeat destruct Hcases as [Hmo|Hcases]; try rename Hcases into Hmo;
    subst mo; simpl in Hd;
    eval_monthStart; unfold monthOfDayWithinYear; case_ltb; lia.
Qed.

Lemma MakeDay_of_fields t k :
  MakeDay (YearFromTime t) (MonthFromTime t) (DateFromTime t + k) = Day t + k.
Proof.
  unfold MakeDay, DateFromTime, DayWithinYear, InLeapYear.
  pose proof (monthOfDayWithinYear_range
                (Day t - DayFromYear (YearFromTime t)) (leapOfYear (YearFromTime t))) as Hm.
  fold (DayWithinYear t) in Hm. fold (InLeapYear t) in Hm. fold (MonthFromTime t) in Hm.
  rewrite (Z.div_small (MonthFromTime t) 12) by lia.
  rewrite (Z.mod_small (MonthFromTime t) 12) by lia.
  rewrite Z.add_0_r. lia.
Qed.

Lemma civil_of_MakeDay y mo d :
  1 <= mo <= 12 -> 1 <= d <= daysInMonth y mo ->
  MakeDay y (mo - 1) d = DayFromYear y + monthStart (mo - 1) (leapOfYear y) + d - 1
  /\ DayFromYear y <= MakeDay y (mo - 1) d < DayFromYear (y + 1).
Proof.
  intros Hm Hd. unfold MakeDay.
  rewrite (Z.div_small (mo - 1) 12) by lia.
  rewrite (Z.mod_small (mo - 1) 12) by lia.
  rewrite Z.add_0_r. split; [reflexivity|].
  rewrite DayFromYear_succ. unfold daysInMonth in Hd.
  assert (mo = 1 \/ mo = 2 \/ mo = 3 \/ mo = 4 \/ mo = 5 \/ mo = 6 \/ mo = 7
          \/ mo = 8 \/ mo = 9 \/ mo = 10 \/ mo = 11 \/ mo = 12) as Hcases by lia.
  destruct (leapOfYear_cases y) as [[Hl Hy]|[Hl Hy]]; rewrite Hl, Hy in *; clear Hl Hy;
    repeat destruct Hcases as [Hmo|Hcases]; try rename Hcases into Hmo;
    subst mo; simpl in Hd;
    eval_monthStart; lia.
Qed.

(** The calendar fields of the time value made from in-range fields are
    these fields. *)
Lemma fields_of_MakeDate y mo d h mi s :
  1 <= mo <= 12 -> 1 <= d <= daysInMonth y mo ->
  0 <= h <= 23 -> 0 <= mi <= 59 -> 0 <= s <= 59 ->
  let t := MakeDate (MakeDay y (mo - 1) d) (MakeTime h mi s 0) in
  YearFromTime t = y /\ MonthFromTime t = mo - 1 /\ DateFromTime t = d
  /\ HourFromTime t = h /\ MinFromTime t = mi /\ SecFromTime t = s.
Proof.
  intros Hm Hd Hh Hmi Hs t.
  destruct (civil_of_MakeDay y mo d Hm Hd) as [Hday Hrange].
  assert (Day t = MakeDay y (mo - 1) d) as HDay.
  { unfold t. generalize (MakeDay y (mo - 1) d). intros D. time_arith. }
  assert (YearFromTime t = y) as HY.
  { unfold YearFromTime. rewrite HDay. apply YearFromDay_unique, Hrange. }
  assert (MonthFromTime t = mo - 1) as HM.
  { unfold MonthFromTime, DayWithinYear, InLeapYear. rewrite HY, HDay, Hday.
    replace (DayFromYear y + monthStart (mo - 1) (leapOfYear y) + d - 1 - DayFromYear y)
      with (monthStart (mo - 1) (leapOfYear y) + d - 1) by lia.
    apply monthOfDayWithinYear_monthStart; assumption. }
  repeat split; try assumption.
  - unfold DateFromTime. rewrite HM. unfold DayWithinYear, InLeapYear.
    rewrite HY, HDay, Hday. lia.
  - unfold t. generalize (MakeDay y (mo - 1) d). intros D. time_arith.
  - unfold t. generalize (MakeDay y (mo - 1) d). intros D. time_arith.
  - unfold t. generalize (MakeDay y (mo - 1) d). intros D. time_arith.
Qed.

(** ** Strings *)

Lemma split_nonempty sep s : split sep s <> [].
Proof.
  destruct s as [|c rest]; cbn; [discriminate|].
  destruct (c =? sep)%N; [discriminate|].
  destruct (split sep rest); discriminate.
Qed.

Lemma split_no_sep sep s : sep ∉ s -> split sep s = [s].
Proof.
  induction s as [|c rest IH]; intros Hnot; cbn; [reflexivity|].
  destruct (N.eqb_spec c sep) as [->|Hne].
  - exfalso. apply Hnot. left.
  - rewrite IH; [reflexivity|]. intros Hin. apply Hnot. now right.
Qed.

Lemma split_app_sep sep l r :
  sep ∉ l -> split sep (l ++ sep :: r) = l :: split sep r.
Proof.
  induction l as [|c rest IH]; intros Hnot; cbn.
  - now rewrite N.eqb_refl.
  - destruct (N.eqb_spec c sep) as [->|Hne].
    + exfalso. apply Hnot. left.
    + rewrite IH; [reflexivity|]. intros Hin. apply Hnot. now right.
Qed.

(** [split] yields a second piece exactly when the separator occurs. *)
Lemma split_second sep s : split sep s !! 1%nat = None <-> sep ∉ s.
Proof.
  induction s as [|c rest IH]; cbn.
  - split; [intros _ Hin; inversion Hin|reflexivity].
  - destruct (N.eqb_spec c sep) as [->|Hne].
    + split.
      * cbn. pose proof (split_nonempty sep rest).
        destruct (split sep rest); [contradiction|discriminate].
      * intros Hnot. exfalso. apply Hnot. left.
    + pose proof (split_nonempty sep rest) as Hnil.
      destruct (split sep rest) as [|l ls]; [contradiction|].
      cbn in *. rewrite IH. split.
      * intros Hnot Hin. inversion Hin; subst; [congruence|contradiction].
      * intros Hnot Hin. apply Hnot. now right.
Qed.

Lemma split_first sep s : exists p, split sep s !! 0%nat = Some p.
Proof.
  pose proof (split_nonempty sep s). destruct (split sep s) as [|p ps]; [contradiction|].
  now exists p.
Qed.

Lemma forallb_below (P : Z -> bool) (n : nat) :
  forallb (fun k => P (Z.of_nat k)) (seq 0 n) = true ->
  forall z, 0 <= z < Z.of_nat n -> P z = true.
Proof.
  intros H z Hz. rewrite forallb_forall in H.
  specialize (H (Z.to_nat z)). rewrite Z2Nat.id in H by lia.
  apply H, in_seq. lia.
Qed.

Lemma parseInt_digits4 y : 0 <= y <= 9999 -> parseInt (digits4 y) = Some y.
Proof.
  intros Hy.
  pose proof (forallb_below (fun z => bool_decide (parseInt (digits4 z) = Some z))
                (Z.to_nat 10000)) as H.
  specialize (H ltac:(vm_compute; reflexivity) y ltac:(lia)).
  exact (proj1 (bool_decide_eq_true _) H).
Qed.

Lemma parseInt_digits2 n : 0 <= n <= 99 -> parseInt (digits2 n) = Some n.
Proof.
  intros Hn.
  pose proof (forallb_below (fun z => bool_decide (parseInt (digits2 z) = Some z))
                (Z.to_nat 100)) as H.
  specialize (H ltac:(vm_compute; reflexivity) n ltac:(lia)).
  exact (proj1 (bool_decide_eq_true _) H).
Qed.

Lemma digitChar_mod10_not_T n : digitChar (n mod 10) <> 84%N.
Proof.
  pose proof (Z.mod_pos_bound n 10 ltac:(lia)). unfold digitChar. lia.
Qed.

Lemma digits4_no_T y : 84%N ∉ digits4 y.
Proof.
  unfold digits4. intros Hin.
  repeat (apply elem_of_cons in Hin as [Hin|Hin];
          [symmetry in Hin; apply digitChar_mod10_not_T in Hin; exact Hin|]).
  inversion Hin.
Qed.

Lemma digits2_no_T n : 84%N ∉ digits2 n.
Proof.
  unfold digits2. intros Hin.
  repeat (apply elem_of_cons in Hin as [Hin|Hin];
          [symmetry in Hin; apply digitChar_mod10_not_T in Hin; exact Hin|]).
  inversion Hin.
Qed.

Lemma utcToken_split y mo d h mi s :
  split 84 (utcToken y mo d h mi s)
  = [digits4 y ++ digits2 mo ++ digits2 d;
     digits2 h ++ digits2 mi ++ digits2 s ++ lit "Z"].
Proof.
  unfold utcToken.
  replace (digits4 y ++ digits2 mo ++ digits2 d ++ lit "T"
           ++ digits2 h ++ digits2 mi ++ digits2 s ++ lit "Z")
    with ((digits4 y ++ digits2 mo ++ digits2 d)
          ++ 84%N :: (digits2 h ++ digits2 mi ++ digits2 s ++ lit "Z"))
    by (rewrite <- !app_assoc; reflexivity).
  rewrite split_app_sep.
  - rewrite split_no_sep; [reflexivity|].
    rewrite !elem_of_app. intros [H|[H|[H|H]]].
    + exact (digits2_no_T _ H).
    + exact (digits2_no_T _ H).
    + exact (digits2_no_T _ H).
    + cbn in H. apply list_elem_of_singleton in H. discriminate.
  - rewrite !elem_of_app. intros [H|[H|H]].
    + exact (digits4_no_T _ H).
    + exact (digits2_no_T _ H).
    + exact (digits2_no_T _ H).
Qed.

(** ** The date-time decoder *)

(** A UTC token whose fields are in calendar range and whose year is at
    least 100 decodes to the instant with these UTC fields. *)
Lemma parseIcsDateTime_utc_fields y mo d h mi s :
  inCalendarRange y mo d h mi s -> 100 <= y ->
  exists t,
    parseIcsDateTime (utcToken y mo d h mi s) = Normal (DateAt t)
    /\ getUTCFullYear (DateAt t) = Some y
    /\ getUTCMonth (DateAt t) = Some (mo - 1)
    /\ getUTCDate (DateAt t) = Some d
    /\ getUTCHours (DateAt t) = Some h
    /\ getUTCMinutes (DateAt t) = Some mi
    /\ getUTCSeconds (DateAt t) = Some s.
Proof.
  intros (Hy & Hmo & Hd & Hh & Hmi & Hs) Hy100.
  exists (MakeDate (MakeDay y (mo - 1) d) (MakeTime h mi s 0)).
  assert (1 <= d <= 31) as Hd31.
  { unfold daysInMonth in Hd. destruct (leapOfYear_cases y) as [[Hl _]|[Hl _]];
      rewrite Hl in Hd;
      repeat match type of Hd with context [if ?b then _ else _] => destruct b end; lia. }
  split.
  - unfold parseIcsDateTime. rewrite utcToken_split. cbn [lookup list_lookup].
    change (substring (digits4 y ++ digits2 mo ++ digits2 d) 0 4) with (digits4 y).
    change (substring (digits4 y ++ digits2 mo ++ digits2 d) 4 6) with (digits2 mo).
    change (substring (digits4 y ++ digits2 mo ++ digits2 d) 6 8) with (digits2 d).
    change (substring (digits2 h ++ digits2 mi ++ digits2 s ++ lit "Z") 0 2) with (digits2 h).
    change (substring (digits2 h ++ digits2 mi ++ digits2 s ++ lit "Z") 2 4) with (digits2 mi).
    change (substring (digits2 h ++ digits2 mi ++ digits2 s ++ lit "Z") 4 6) with (digits2 s).
    change (endsWith (lit "Z") (utcToken y mo d h mi s)) with true.
    rewrite parseInt_digits4 by lia. rewrite !parseInt_digits2 by lia.
    cbn [Number_add Date_UTC].
    replace (mo + -1) with (mo - 1) by lia.
    unfold fullYear. replace ((0 <=? y) && (y <=? 99)) with false by lia.
    assert (Z.abs (MakeDate (MakeDay y (mo - 1) d) (MakeTime h mi s 0)) <= maxTime) as Hclip.
    { destruct (civil_of_MakeDay y mo d Hmo Hd) as [-> _].
      assert (0 <= monthStart (mo - 1) (leapOfYear y) <= 335) as Hms.
      { unfold monthStart. destruct (leapOfYear_cases y) as [[-> _]|[-> _]];
          repeat match goal with |- context [if ?b then _ else _] => destruct b end; lia. }
      time_arith. }
    unfold TimeClip. apply Z.leb_le in Hclip. rewrite Hclip.
    cbn [Date_ofNumber]. unfold TimeClip. rewrite Hclip. reflexivity.
  - pose proof (fields_of_MakeDate y mo d h mi s Hmo Hd Hh Hmi Hs) as
      (HY & HM & HD & HH & HMi & HS).
    cbn [getUTCFullYear getUTCMonth getUTCDate getUTCHours getUTCMinutes getUTCSeconds].
    rewrite HY, HM, HD, HH, HMi, HS. repeat split; reflexivity.
Qed.

(** C6, at the token [00500101T000000Z]: the fields of the token are in
    calendar range (1 January of year 50, midnight), and the decoder
    returns the instant 1950-01-01T00:00:00Z, whose UTC year is 1950 and
    not 50.  [Date.UTC] reads a year from 0 to 99 as 1900 + year, and
    [parseIcsDateTime] passes the parsed year to it unchanged. *)
Theorem parseIcsDateTime_year_0050 :
  utcToken 50 1 1 0 0 0 = lit "00500101T000000Z"
  /\ inCalendarRange 50 1 1 0 0 0
  /\ parseIcsDateTime (lit "00500101T000000Z") = Normal (DateAt (-631152000000))
  /\ getUTCFullYear (DateAt (-631152000000)) = Some 1950
  /\ getUTCFullYear (DateAt (-631152000000)) <> Some 50.
Proof.
  split; [reflexivity|]. split.
  - unfold inCalendarRange. change (daysInMonth 50 1) with 31. lia.
  - split; [vm_compute; reflexivity|]. split; [vm_compute; reflexivity|].
    vm_compute. discriminate.
Qed.

(** C10: [parseIcsDateTime] throws exactly when its argument contains no
    ['T'] (code unit 84); when the argument contains a ['T'] it returns a
    [Date]; and when one of the six numeric fields does not parse, the
    [Date] it returns is the invalid date. *)
Theorem parseIcsDateTime_throws_iff_no_T s :
  (parseIcsDateTime s = Throw TypeError <-> 84%N ∉ s)
  /\ ((exists d, parseIcsDateTime s = Normal d) <-> 84%N ∈ s)
  /\ (forall datePart timePart more,
        split 84 s = datePart :: timePart :: more ->
        parseInt (substring datePart 0 4) = NaN
        \/ parseInt (substring datePart 4 6) = NaN
        \/ parseInt (substring datePart 6 8) = NaN
        \/ parseInt (substring timePart 0 2) = NaN
        \/ parseInt (substring timePart 2 4) = NaN
        \/ parseInt (substring timePart 4 6) = NaN ->
        parseIcsDateTime s = Normal InvalidDate).
Proof.
  destruct (split_first 84 s) as [datePart HdatePart].
  assert (forall d, parseIcsDateTime s = Normal d -> 84%N ∈ s) as Hnormal.
  { unfold parseIcsDateTime. rewrite HdatePart. intros d Hd.
    destruct (split 84 s !! 1%nat) as [timePart|] eqn:Htime; [|discriminate].
    destruct (decide (84%N ∈ s)) as [Hin|Hnot]; [exact Hin|].
    apply (split_second 84 s) in Hnot. congruence. }
  assert (84%N ∈ s -> exists d, parseIcsDateTime s = Normal d) as Hreturns.
  { unfold parseIcsDateTime. rewrite HdatePart. intros Hin.
    destruct (split 84 s !! 1%nat) as [timePart|] eqn:Htime.
    - destruct (endsWith (lit "Z") s); eexists; reflexivity.
    - exfalso. apply (split_second 84 s) in Htime. contradiction. }
  split; [|split].
  - split.
    + intros Hthrow Hin. destruct (Hreturns Hin) as [d Hd]. congruence.
    + intros Hnot. unfold parseIcsDateTime. rewrite HdatePart.
      apply (split_second 84 s) in Hnot. rewrite Hnot. reflexivity.
  - split; [intros [d Hd]; exact (Hnormal d Hd)|exact Hreturns].
  - intros dp tp more Hsplit Hnan. unfold parseIcsDateTime. rewrite Hsplit.
    cbn [lookup list_lookup].
    unfold NaN in Hnan.
    destruct (parseInt (substring dp 0 4)), (parseInt (substring dp 4 6)),
      (parseInt (substring dp 6 8)), (parseInt (substring tp 0 2)),
      (parseInt (substring tp 2 4)), (parseInt (substring tp 4 6));
      try (exfalso; clear -Hnan; intuition discriminate);
      destruct (endsWith (lit "Z") s); reflexivity.
Qed.

(** ** Property lines *)

Lemma substringFrom_app (p v : jsstring) : substringFrom (p ++ v) (length p) = v.
Proof.
  unfold substringFrom, substring. rewrite length_app.
  rewrite (Nat.min_l (length p)) by lia. rewrite Nat.min_id.
  rewrite Nat.max_r by lia. rewrite Nat.min_l by lia.
  rewrite drop_app_length. apply take_ge. lia.
Qed.

Lemma startsWith_app (p v : jsstring) : startsWith p (p ++ v) = true.
Proof.
  induction p as [|c p IH]; cbn; [reflexivity|]. now rewrite N.eqb_refl.
Qed.

(** What [parseEventProperty] does on a line that consists of a
    recognised prefix followed by [v]. *)
Lemma parseEventProperty_prefixed v event :
  parseEventProperty (SUMMARY ++ v) event
  = Normal (set_title (VString (trim v)) event)
  /\ parseEventProperty (DESCRIPTION ++ v) event
     = Normal (set_description (VString v) event)
  /\ parseEventProperty (LOCATION ++ v) event
     = Normal (set_location (VString v) event)
  /\ parseEventProperty (DTSTART_DATE ++ v) event
     = Normal (set_start (VDate (parseIcsDate v)) (set_isAllDay (VBool true) event))
  /\ parseEventProperty (DTSTART ++ v) event
     = (d ← parseIcsDateTime v;
        Normal (set_start (VDate d) (set_isAllDay (VBool false) event)))
  /\ parseEventProperty (DTEND_DATE ++ v) event
     = Normal (set_end (VDate (parseIcsDate v)) event)
  /\ parseEventProperty (DTEND ++ v) event
     = (d ← parseIcsDateTime v; Normal (set_end (VDate d) event)).
Proof.
  unfold parseEventProperty.
  repeat split.
  - rewrite startsWith_app. change 8%nat with (length SUMMARY).
    now rewrite substringFrom_app.
  - change (startsWith SUMMARY (DESCRIPTION ++ v)) with false.
    change (startsWith DTSTART_DATE (DESCRIPTION ++ v)) with false.
    change (startsWith DTSTART (DESCRIPTION ++ v)) with false.
    change (startsWith DTEND_DATE (DESCRIPTION ++ v)) with false.
    change (startsWith DTEND (DESCRIPTION ++ v)) with false.
    rewrite startsWith_app. change 12%nat with (length DESCRIPTION).
    now rewrite substringFrom_app.
  - change (startsWith SUMMARY (LOCATION ++ v)) with false.
    change (startsWith DTSTART_DATE (LOCATION ++ v)) with false.
    change (startsWith DTSTART (LOCATION ++ v)) with false.
    change (startsWith DTEND_DATE (LOCATION ++ v)) with false.
    change (startsWith DTEND (LOCATION ++ v)) with false.
    change (startsWith DESCRIPTION (LOCATION ++ v)) with false.
    rewrite startsWith_app. change 9%nat with (length LOCATION).
    now rewrite substringFrom_app.
  - change (startsWith SUMMARY (DTSTART_DATE ++ v)) with false.
    rewrite startsWith_app. change 19%nat with (length DTSTART_DATE).
    now rewrite substringFrom_app.
  - change (startsWith SUMMARY (DTSTART ++ v)) with false.
    change (startsWith DTSTART_DATE (DTSTART ++ v)) with false.
    rewrite startsWith_app. change 8%nat with (length DTSTART).
    now rewrite substringFrom_app.
  - change (startsWith SUMMARY (DTEND_DATE ++ v)) with false.
    change (startsWith DTSTART_DATE (DTEND_DATE ++ v)) with false.
    change (startsWith DTSTART (DTEND_DATE ++ v)) with false.
    rewrite startsWith_app. change 17%nat with (length DTEND_DATE).
    now rewrite substringFrom_app.
  - change (startsWith SUMMARY (DTEND ++ v)) with false.
    change (startsWith DTSTART_DATE (DTEND ++ v)) with false.
    change (startsWith DTSTART (DTEND ++ v)) with false.
    change (startsWith DTEND_DATE (DTEND ++ v)) with false.
    rewrite startsWith_app. change 6%nat with (length DTEND).
    now rewrite substringFrom_app.
Qed.


(** C8, as amended: a date-only start property, [DTSTART;VALUE=DATE:],
    flags the record all-day and decodes its value with [parseIcsDate];
    a date-only end property, [DTEND;VALUE=DATE:], decodes its value with
    [parseIcsDate] too and leaves the all-day flag as it was. *)
Theorem date_only_property_decoding v event :
  (exists e',
     parseEventProperty (DTSTART_DATE ++ v) event = Normal e'
     /\ isAllDay e' = VBool true
     /\ start e' = VDate (parseIcsDate v))
  /\ (exists e',
        parseEventProperty (DTEND_DATE ++ v) event = Normal e'
        /\ isAllDay e' = isAllDay event
        /\ end_ e' = VDate (parseIcsDate v)).
Proof.
  destruct (parseEventProperty_prefixed v event) as (_ & _ & _ & Hs & _ & He & _).
  split; eexists; (split; [eassumption|]); split; reflexivity.
Qed.

(** ** The line unfolder and the record parser *)

Lemma bind_Normal_r {A} (c : Completion A) : (x ← c; Normal x) = c.
Proof. destruct c; reflexivity. Qed.

(** The loop of [parseIcsContent] is the record parser run over the
    logical lines. *)
Lemma parseLoop_runLines line rest st :
  parseLoop line rest st = runLines (unfoldFrom line rest) st.
Proof.
  revert line st. induction rest as [|l rest IH]; intros line st; cbn.
  - now rewrite bind_Normal_r.
  - destruct (isContinuation l); [apply IH|].
    cbn. destruct (processLine line st); cbn; [apply IH|reflexivity].
Qed.

Lemma parseIcsContent_runLines content :
  parseIcsContent content
  = (st ← runLines (logicalLines content) (mkParserState [] None false);
     Normal (events st)).
Proof.
  unfold parseIcsContent, logicalLines.
  destruct (splitLines content) as [|l rest]; [reflexivity|].
  now rewrite parseLoop_runLines.
Qed.

Lemma runLines_app ls1 ls2 st :
  runLines (ls1 ++ ls2) st = (st' ← runLines ls1 st; runLines ls2 st').
Proof.
  revert st. induction ls1 as [|l ls1 IH]; intros st; cbn; [reflexivity|].
  destruct (processLine l st); cbn; [apply IH|reflexivity].
Qed.

(** A logical line is the first physical line, trimmed, followed by the
    continuation lines without their first character. *)
Lemma unfoldFrom_continuations line conts rest :
  Forall (fun l => isContinuation l = true) conts ->
  match rest with
  | [] => True
  | l :: _ => isContinuation l = false
  end ->
  unfoldFrom line (conts ++ rest)
  = (line ++ concat ((fun l => substringFrom l 1) <$> conts))
      :: match rest with
         | [] => []
         | l :: rest' => unfoldFrom (trim l) rest'
         end.
Proof.
  intros Hconts Hrest. revert line.
  induction Hconts as [|c conts Hc _ IH]; intros line; cbn.
  - rewrite app_nil_r. destruct rest as [|l rest']; [reflexivity|].
    cbn. now rewrite Hrest.
  - rewrite Hc, IH. now rewrite <- app_assoc.
Qed.

Lemma parseEventProperty_accumulator line e e' :
  accumulator e -> parseEventProperty line e = Normal e' -> accumulator e'.
Proof.
  intros [Ht Hs] H. unfold parseEventProperty in H.
  repeat match type of H with
         | context [if ?b then _ else _] => destruct b
         | context [parseIcsDateTime ?x] => destruct (parseIcsDateTime x); cbn in H
         end;
    try discriminate; inversion H; subst; split; cbn; eauto.
Qed.

Lemma accumulate_accumulator body e acc :
  accumulator e -> accumulate body e = Normal acc -> accumulator acc.
Proof.
  revert e. induction body as [|l body IH]; intros e He H; cbn in H.
  - now inversion H; subst.
  - destruct (parseEventProperty l e) as [e'|] eqn:Hl; cbn in H; [|discriminate].
    eapply IH; [|exact H]. eapply parseEventProperty_accumulator; eassumption.
Qed.

Lemma hasTitleAndStart_iff acc :
  accumulator acc ->
  hasTitleAndStart (Some acc) = true
  <-> (exists s, title acc = VString s /\ s <> []) /\ (exists d, start acc = VDate d).
Proof.
  intros [[Ht|[s Ht]] [Hs|[d Hs]]]; cbn; rewrite Ht, Hs; cbn.
  - split; [discriminate|]. intros [[s [Hx _]] _]. discriminate.
  - split; [discriminate|]. intros [[s [Hx _]] _]. discriminate.
  - rewrite andb_false_r. split; [discriminate|]. intros [_ [d Hx]]. discriminate.
  - rewrite andb_true_r. destruct (decide (s = [])) as [->|Hne].
    + cbn. split; [discriminate|]. intros [[s [Hx Hne]] _].
      inversion Hx; subst. contradiction.
    + rewrite bool_decide_eq_false_2 by exact Hne. cbn. split; [|reflexivity].
      intros _. split; eauto.
Qed.

Lemma runLines_cons l ls st :
  runLines (l :: ls) st = (st' ← processLine l st; runLines ls st').
Proof. reflexivity. Qed.

Lemma processLine_BEGIN st :
  processLine BEGIN_VEVENT st = Normal (mkParserState (events st) (Some emptyEvent) true).
Proof. reflexivity. Qed.

Lemma processLine_END evs e :
  processLine END_VEVENT (mkParserState evs (Some e) true)
  = Normal (mkParserState (if hasTitleAndStart (Some e) then evs ++ [e] else evs)
                          None false).
Proof. reflexivity. Qed.

(** The property lines of a block are folded into the record under
    construction. *)
Lemma runLines_body body rest evs e acc :
  Forall (fun l => l <> BEGIN_VEVENT /\ l <> END_VEVENT) body ->
  accumulate body e = Normal acc ->
  runLines (body ++ rest) (mkParserState evs (Some e) true)
  = runLines rest (mkParserState evs (Some acc) true).
Proof.
  intros Hbody. revert e. induction Hbody as [|l body [Hb He] _ IH]; intros e Hacc.
  - cbn in Hacc. now inversion Hacc; subst.
  - cbn in Hacc |- *. unfold processLine at 1.
    rewrite (bool_decide_eq_false_2 _ Hb), (bool_decide_eq_false_2 _ He). cbn.
    destruct (parseEventProperty l e) as [e'|]; cbn in Hacc |- *; [|discriminate].
    apply IH, Hacc.
Qed.

(** C1, as amended: for a block [BEGIN:VEVENT], property lines,
    [END:VEVENT] whose property lines decode without exception to the
    record [acc], the parser finishes the block without exception, back
    in the state outside an event, and has appended to its output either
    [acc] or nothing: [acc] if and only if [acc] holds a non-empty title
    and a start.  This holds wherever the block stands in the content:
    after logical lines [pre] and before logical lines [post]. *)
Theorem vevent_block_emits_iff pre body post st0 acc :
  runLines pre (mkParserState [] None false) = Normal st0 ->
  Forall (fun l => l <> BEGIN_VEVENT /\ l <> END_VEVENT) body ->
  accumulate body emptyEvent = Normal acc ->
  exists emitted,
    runLines (pre ++ BEGIN_VEVENT :: body ++ END_VEVENT :: post)
             (mkParserState [] None false)
    = runLines post (mkParserState (events st0 ++ emitted) None false)
    /\ (emitted = [acc] \/ emitted = [])
    /\ (emitted = [acc]
        <-> (exists s, title acc = VString s /\ s <> [])
            /\ (exists d, start acc = VDate d)).
Proof.
  intros Hpre Hbody Hacc.
  assert (accumulator acc) as Hwf.
  { eapply accumulate_accumulator; [|exact Hacc].
    split; left; reflexivity. }
  exists (if hasTitleAndStart (Some acc) then [acc] else []).
  split; [|split].
  - rewrite runLines_app, Hpre. cbn [mbind Completion_bind].
    rewrite runLines_cons, processLine_BEGIN. cbn [mbind Completion_bind].
    rewrite (runLines_body body (END_VEVENT :: post) (events st0) emptyEvent acc Hbody Hacc).
    rewrite runLines_cons, processLine_END. cbn [mbind Completion_bind].
    destruct (hasTitleAndStart (Some acc)); [reflexivity|].
    now rewrite app_nil_r.
  - destruct (hasTitleAndStart (Some acc)); auto.
  - rewrite <- (hasTitleAndStart_iff acc Hwf).
    destruct (hasTitleAndStart (Some acc)); split; try reflexivity; discriminate.
Qed.

(** ** Keys, de-duplication and filtering *)

Lemma generateEventKey_record e :
  isRecord e -> generateEventKey e = Normal (recordKey e).
Proof.
  intros [[s Hs] [d Hd]]. unfold recordKey, generateEventKey.
  rewrite Hs, Hd. reflexivity.
Qed.

Lemma removeDuplicateLoop_firstsFrom X :
  Forall isRecord X ->
  forall uniqueEvents (seenKeys : gset jsstring) earlier,
    (forall k, k ∈ seenKeys <-> k ∈ earlier) ->
    removeDuplicateLoop X uniqueEvents seenKeys
    = Normal (uniqueEvents ++ firstsFrom earlier X).
Proof.
  clear Date_parse calendar_getEvents Store calendar_create appendRow_fails errorText.
  induction 1 as [|e X He _ IH]; intros u seen earlier Hseen; cbn.
  - now rewrite app_nil_r.
  - rewrite (generateEventKey_record e He). cbn.
    destruct (decide (recordKey e ∈ seen)) as [Hin|Hnot].
    + rewrite (bool_decide_eq_true_2 _ Hin).
      rewrite (bool_decide_eq_true_2 (recordKey e ∈ earlier)) by now apply Hseen.
      apply IH. intros k. rewrite elem_of_app, list_elem_of_singleton, Hseen.
      split; [auto|]. intros [Hk| ->]; [exact Hk|]. now apply Hseen.
    + rewrite (bool_decide_eq_false_2 _ Hnot).
      rewrite (bool_decide_eq_false_2 (recordKey e ∈ earlier))
        by (intros Hin; apply Hnot; now apply Hseen).
      rewrite (IH (u ++ [e]) ({[recordKey e]} ∪ seen) (earlier ++ [recordKey e])).
      * now rewrite <- app_assoc.
      * intros k. rewrite elem_of_union, elem_of_singleton, elem_of_app,
          list_elem_of_singleton, Hseen. tauto.
Qed.

Lemma filter_imap_snd (P Q : nat * Event -> Prop)
  `{!forall p, Decision (P p)} `{!forall p, Decision (Q p)} (l : list Event) :
  forall f g : nat -> nat,
    (forall i x, P (f i, x) <-> Q (g i, x)) ->
    (filter P (imap (fun i x => (f i, x)) l)).*2
    = (filter Q (imap (fun i x => (g i, x)) l)).*2.
Proof.
  induction l as [|x l IH]; intros f g HPQ; [reflexivity|].
  rewrite !imap_cons, !filter_cons.
  pose proof (IH (f ∘ S) (g ∘ S) (fun i y => HPQ (S i) y)) as IH'.
  destruct (decide (P (f 0%nat, x))) as [HP|HP], (decide (Q (g 0%nat, x))) as [HQ|HQ].
  - cbn. f_equal. exact IH'.
  - exfalso. apply HQ, HPQ, HP.
  - exfalso. apply HP, HPQ, HQ.
  - exact IH'.
Qed.

Lemma firstsFrom_filter X :
  forall earlier,
    firstsFrom earlier X
    = (filter (fun p : nat * Event =>
                 recordKey p.2 ∉ earlier ++ (recordKey <$> take p.1 X))
              (imap pair X)).*2.
Proof.
  induction X as [|e X IH]; intros earlier; [reflexivity|].
  cbn [firstsFrom]. rewrite IH, imap_cons, filter_cons.
  assert ((filter (fun p : nat * Event =>
                     recordKey p.2 ∉ (earlier ++ [recordKey e]) ++ (recordKey <$> take p.1 X))
                  (imap pair X)).*2
          = (filter (fun p : nat * Event =>
                       recordKey p.2 ∉ earlier ++ (recordKey <$> take p.1 (e :: X)))
                    (imap (pair ∘ S) X)).*2) as Htail.
  { apply (filter_imap_snd _ _ X (fun i => i) S).
    intros i x. cbn. rewrite <- app_assoc. reflexivity. }
  rewrite Htail. cbn [take fmap list_fmap fst snd]. rewrite app_nil_r.
  destruct (decide (recordKey e ∈ earlier)) as [Hin|Hnot].
  - rewrite (bool_decide_eq_true_2 _ Hin).
    destruct (decide (recordKey e ∉ earlier)); [contradiction|reflexivity].
  - rewrite (bool_decide_eq_false_2 _ Hnot).
    destruct (decide (recordKey e ∉ earlier)); [reflexivity|contradiction].
Qed.

Lemma firstsFrom_firstOccurrences X : firstsFrom [] X = firstOccurrences X.
Proof. apply firstsFrom_filter. Qed.

Lemma firstsFrom_keys X :
  forall earlier,
    NoDup (recordKey <$> firstsFrom earlier X)
    /\ (forall e, e ∈ firstsFrom earlier X -> recordKey e ∉ earlier).
Proof.
  induction X as [|e X IH]; intros earlier; cbn.
  - split; [constructor|]. intros e He. inversion He.
  - destruct (IH (earlier ++ [recordKey e])) as [Hnd Hout].
    assert (forall e', e' ∈ firstsFrom (earlier ++ [recordKey e]) X ->
                       (recordKey e' ∉ earlier) /\ recordKey e' <> recordKey e) as Hout'.
    { intros e' He'. specialize (Hout e' He').
      rewrite elem_of_app, list_elem_of_singleton in Hout. tauto. }
    destruct (decide (recordKey e ∈ earlier)) as [Hin|Hnot].
    + rewrite (bool_decide_eq_true_2 _ Hin). split; [exact Hnd|].
      intros e' He'. now apply Hout'.
    + rewrite (bool_decide_eq_false_2 _ Hnot). split.
      * cbn. constructor; [|exact Hnd].
        intros Hin. apply list_elem_of_fmap in Hin as (e' & Heq & He').
        destruct (Hout' e' He') as [_ Hne]. congruence.
      * intros e' He'. apply elem_of_cons in He' as [->|He']; [exact Hnot|].
        now apply Hout'.
Qed.

Lemma firstsFrom_fixed Y :
  forall earlier,
    NoDup (recordKey <$> Y) ->
    (forall e, e ∈ Y -> recordKey e ∉ earlier) ->
    firstsFrom earlier Y = Y.
Proof.
  induction Y as [|e Y IH]; intros earlier Hnd Hout; cbn; [reflexivity|].
  cbn in Hnd. apply NoDup_cons in Hnd as [Hhead Hnd].
  rewrite (bool_decide_eq_false_2 (recordKey e ∈ earlier))
    by (apply Hout; left).
  f_equal. apply IH; [exact Hnd|].
  intros e' He'. rewrite elem_of_app, list_elem_of_singleton.
  intros [Hin|Heq].
  - exact (Hout e' (list_elem_of_further _ _ _ He') Hin).
  - apply Hhead. rewrite <- Heq. apply list_elem_of_fmap. eauto.
Qed.

Lemma firstsFrom_sublist X : forall earlier, sublist (firstsFrom earlier X) X.
Proof.
  induction X as [|e X IH]; intros earlier; cbn; [constructor|].
  destruct (bool_decide (recordKey e ∈ earlier));
    [apply sublist_cons|apply sublist_skip]; apply IH.
Qed.

Lemma firstsFrom_records X :
  Forall isRecord X -> forall earlier, Forall isRecord (firstsFrom earlier X).
Proof.
  induction 1 as [|e X He _ IH]; intros earlier; cbn; [constructor|].
  destruct (bool_decide (recordKey e ∈ earlier)); [apply IH|].
  constructor; [exact He|apply IH].
Qed.

(** C2: on a sequence of records, [removeDuplicateEvents] returns the
    first occurrences of the keys, a subsequence of its argument; and
    de-duplicating its result returns that result again. *)
Theorem removeDuplicateEvents_first_occurrences X :
  Forall isRecord X ->
  removeDuplicateEvents X = Normal (firstOccurrences X)
  /\ sublist (firstOccurrences X) X
  /\ removeDuplicateEvents (firstOccurrences X) = Normal (firstOccurrences X).
Proof.
  intros HX.
  assert (forall Y, Forall isRecord Y -> removeDuplicateEvents Y = Normal (firstsFrom [] Y))
    as Hrun.
  { intros Y HY. unfold removeDuplicateEvents.
    rewrite (removeDuplicateLoop_firstsFrom Y HY [] ∅ []); [reflexivity|].
    intros k. rewrite elem_of_empty, elem_of_nil. reflexivity. }
  rewrite <- firstsFrom_firstOccurrences.
  pose proof (firstsFrom_sublist X []) as Hsub.
  split; [exact (Hrun X HX)|]. split; [exact Hsub|].
  rewrite Hrun.
  - f_equal. destruct (firstsFrom_keys X []) as [Hnd Hout].
    apply firstsFrom_fixed; [exact Hnd|]. intros e _ Hin. inversion Hin.
  - apply firstsFrom_records, HX.
Qed.

(** [filterEventsToCreate] on records is the filter by key. *)
Lemma filterEventsToCreate_filter (X : list Event) (existingKeys : gset jsstring) :
  Forall isRecord X ->
  filterEventsToCreate X existingKeys
  = Normal (filter (fun e => recordKey e ∉ existingKeys) X).
Proof.
  induction 1 as [|e X He _ IH]; [reflexivity|].
  cbn [filterEventsToCreate]. rewrite (generateEventKey_record e He), IH.
  cbn [mbind Completion_bind]. rewrite filter_cons.
  destruct (decide (recordKey e ∈ existingKeys)) as [Hin|Hnot].
  - rewrite (bool_decide_eq_true_2 _ Hin).
    destruct (decide (recordKey e ∉ existingKeys)); [contradiction|reflexivity].
  - rewrite (bool_decide_eq_false_2 _ Hnot).
    destruct (decide (recordKey e ∉ existingKeys)); [reflexivity|contradiction].
Qed.

Lemma padStart_digits2 n :
  0 <= n <= 99 -> padStart (Number_toString (Some n)) 2 48%N = digits2 n.
Proof.
  intros Hn.
  pose proof (forallb_below
                (fun z => bool_decide (padStart (Number_toString (Some z)) 2 48%N = digits2 z))
                (Z.to_nat 100)) as H.
  specialize (H ltac:(vm_compute; reflexivity) n ltac:(lia)).
  exact (proj1 (bool_decide_eq_true _) H).
Qed.

Lemma Number_toString_digits4 y :
  1000 <= y <= 9999 -> Number_toString (Some y) = digits4 y.
Proof.
  intros Hy.
  pose proof (forallb_below
                (fun z => bool_decide (Number_toString (Some (1000 + z)) = digits4 (1000 + z)))
                (Z.to_nat 9000)) as H.
  specialize (H ltac:(vm_compute; reflexivity) (y - 1000) ltac:(lia)).
  apply bool_decide_eq_true in H. now replace (1000 + (y - 1000)) with y in H by lia.
Qed.

Lemma DayWithinYear_range t :
  0 <= DayWithinYear t < 365 + InLeapYear t.
Proof.
  unfold DayWithinYear, InLeapYear, YearFromTime.
  pose proof (YearFromDay_spec (Day t)) as [Hlo Hhi].
  rewrite DayFromYear_succ in Hhi.
  destruct (leapOfYear_cases (YearFromDay (Day t))) as [[-> Hy]|[-> Hy]]; lia.
Qed.

Lemma DateFromTime_range t : 1 <= DateFromTime t <= 31.
Proof.
  unfold DateFromTime, MonthFromTime.
  pose proof (DayWithinYear_range t) as Hd.
  assert (InLeapYear t = 0 \/ InLeapYear t = 1) as Hl.
  { unfold InLeapYear. destruct (leapOfYear_cases (YearFromTime t)) as [[-> _]|[-> _]]; auto. }
  generalize dependent (DayWithinYear t). intros dwy Hd.
  destruct Hl as [Hl|Hl]; rewrite Hl in *; unfold monthOfDayWithinYear;
    case_ltb; cbn; lia.
Qed.

Lemma MonthFromTime_range t : 0 <= MonthFromTime t <= 11.
Proof. apply monthOfDayWithinYear_range. Qed.

(** The textual form of the date part of a key. *)
Lemma formatDateKey_valid t :
  formatDateKey (DateAt t)
  = Number_toString (Some (YearFromTime (LocalTime tza t)))
    ++ lit "-" ++ digits2 (MonthFromTime (LocalTime tza t) + 1)
    ++ lit "-" ++ digits2 (DateFromTime (LocalTime tza t)).
Proof.
  unfold formatDateKey. cbn [getFullYear getMonth getDate Number_add].
  pose proof (MonthFromTime_range (LocalTime tza t)).
  pose proof (DateFromTime_range (LocalTime tza t)).
  rewrite !padStart_digits2 by lia. reflexivity.
Qed.

(** The calendar day of an instant determines its year, month and day of
    the month. *)
Lemma formatDateKey_same_day t1 t2 :
  Day (LocalTime tza t1) = Day (LocalTime tza t2) ->
  formatDateKey (DateAt t1) = formatDateKey (DateAt t2).
Proof.
  intros Hday. unfold formatDateKey, getFullYear, getMonth, getDate, DateFromTime,
    MonthFromTime, InLeapYear, DayWithinYear, YearFromTime.
  now rewrite Hday.
Qed.

(** C3: on records, [filterEventsToCreate] returns the records whose key
    is not in the set of existing keys, in their order.  The key of a
    record is the year of the local calendar day of its start in decimal
    (four digits from year 1000 to year 9999), the month and the day in
    two digits, joined by [-], then [|] and the title, lower-cased and
    trimmed.  Two records with the same title whose starts fall on the
    same local calendar day have the same key, whatever the times of day,
    and the filter keeps both or neither. *)
Theorem filterEventsToCreate_by_key (X : list Event) (existingKeys : gset jsstring) :
  Forall isRecord X ->
  filterEventsToCreate X existingKeys
  = Normal (filter (fun e => recordKey e ∉ existingKeys) X)
  /\ (forall e s t,
        title e = VString s -> start e = VDate (DateAt t) ->
        generateEventKey e
        = Normal (Number_toString (Some (YearFromTime (LocalTime tza t)))
                  ++ lit "-" ++ digits2 (MonthFromTime (LocalTime tza t) + 1)
                  ++ lit "-" ++ digits2 (DateFromTime (LocalTime tza t))
                  ++ lit "|" ++ trim (toLowerCase s))
        /\ (1000 <= YearFromTime (LocalTime tza t) <= 9999 ->
            Number_toString (Some (YearFromTime (LocalTime tza t)))
            = digits4 (YearFromTime (LocalTime tza t))))
  /\ (forall e1 e2 s t1 t2,
        title e1 = VString s -> title e2 = VString s ->
        start e1 = VDate (DateAt t1) -> start e2 = VDate (DateAt t2) ->
        Day (LocalTime tza t1) = Day (LocalTime tza t2) ->
        generateEventKey e1 = generateEventKey e2
        /\ (filterEventsToCreate [e1] existingKeys = Normal []
            <-> filterEventsToCreate [e2] existingKeys = Normal [])).
Proof.
  clear Date_parse calendar_getEvents Store calendar_create appendRow_fails errorText.
  intros HX. split; [apply filterEventsToCreate_filter, HX|]. split.
  - intros e s t Ht Hs. split.
    + unfold generateEventKey. rewrite Ht, Hs. cbn [asDate asString mbind Completion_bind].
      rewrite formatDateKey_valid. now rewrite <- !app_assoc.
    + apply Number_toString_digits4.
  - intros e1 e2 s t1 t2 Ht1 Ht2 Hs1 Hs2 Hday.
    assert (generateEventKey e1 = generateEventKey e2) as Hkey.
    { unfold generateEventKey. rewrite Ht1, Ht2, Hs1, Hs2.
      cbn [asDate asString mbind Completion_bind].
      now rewrite (formatDateKey_same_day t1 t2 Hday). }
    split; [exact Hkey|].
    cbn [filterEventsToCreate]. rewrite Hkey.
    destruct (generateEventKey e2) as [k|]; cbn [mbind Completion_bind]; [|tauto].
    destruct (bool_decide (k ∈ existingKeys)); split; intros H; try reflexivity;
      discriminate.
Qed.

(** ** The date window *)

Lemma startOfLocalDay_shift t k :
  startOfLocalDay (t + k * msPerDay) = startOfLocalDay t + k * msPerDay.
Proof.
  unfold startOfLocalDay, UTC, LocalTime, Day.
  replace (t + k * msPerDay + tza) with (t + tza + k * msPerDay) by lia.
  rewrite Z.div_add by (unfold msPerDay; lia). lia.
Qed.

Lemma TimeClip_in_range t : Z.abs t <= maxTime -> TimeClip t = DateAt t.
Proof. intros H. unfold TimeClip. apply Z.leb_le in H. now rewrite H. Qed.

Lemma startOfLocalDay_bounds t : t - msPerDay < startOfLocalDay t <= t.
Proof.
  unfold startOfLocalDay. time_arith.
Qed.

(** Moving a date [k] days with [setDate(getDate() + k)]. *)
Lemma setDate_shift t k :
  Z.abs (t + k * msPerDay) <= maxTime ->
  setDate tza (DateAt t) (Number_add (getDate tza (DateAt t)) k)
  = DateAt (t + k * msPerDay).
Proof.
  intros Hclip. cbn [getDate Number_add setDate].
  rewrite MakeDay_of_fields.
  replace (UTC tza (MakeDate (Day (LocalTime tza t) + k) (TimeWithinDay (LocalTime tza t))))
    with (t + k * msPerDay).
  - apply TimeClip_in_range, Hclip.
  - time_arith.
Qed.

Lemma window_start t :
  windowSafe t ->
  setHours tza (setDate tza (DateAt t) (Number_add (getDate tza (DateAt t)) (-1))) 0 0 0 0
  = DateAt (startOfLocalDay (t - msPerDay)).
Proof.
  intros Hsafe. unfold windowSafe in Hsafe.
  rewrite setDate_shift by (unfold msPerDay, maxTime in *; lia).
  replace (t + -1 * msPerDay) with (t - msPerDay) by lia.
  cbn [setHours]. change (MakeTime 0 0 0 0) with 0.
  unfold MakeDate. rewrite Z.add_0_r. fold (startOfLocalDay (t - msPerDay)).
  apply TimeClip_in_range.
  pose proof (startOfLocalDay_bounds (t - msPerDay)).
  unfold msPerDay, maxTime in *. lia.
Qed.

Lemma window_end t :
  windowSafe t ->
  setHours tza (setDate tza (DateAt t) (Number_add (getDate tza (DateAt t)) 1)) 23 59 59 999
  = DateAt (endOfLocalDay (t + msPerDay)).
Proof.
  intros Hsafe. unfold windowSafe in Hsafe.
  rewrite setDate_shift by (unfold msPerDay, maxTime in *; lia).
  replace (t + 1 * msPerDay) with (t + msPerDay) by lia.
  cbn [setHours]. change (MakeTime 23 59 59 999) with (msPerDay - 1).
  unfold MakeDate, endOfLocalDay.
  replace (UTC tza (Day (LocalTime tza (t + msPerDay)) * msPerDay + (msPerDay - 1)))
    with (startOfLocalDay (t + msPerDay) + msPerDay - 1)
    by (unfold startOfLocalDay, UTC; lia).
  apply TimeClip_in_range.
  pose proof (startOfLocalDay_bounds (t + msPerDay)).
  unfold msPerDay, maxTime in *. lia.
Qed.

(** The [forEach] of [getEventDateRange] computes the earliest and the
    latest start. *)
Lemma rangeStep_fold X ts :
  Forall2 (fun e t => start e = VDate (DateAt t)) X ts ->
  forall a b,
    fold_left rangeStep X (DateAt a, DateAt b)
    = (DateAt (fold_left Z.min ts a), DateAt (fold_left Z.max ts b)).
Proof.
  induction 1 as [|e t X ts He _ IH]; intros a b; [reflexivity|].
  cbn [fold_left]. unfold rangeStep at 2. rewrite He. cbn [newDate Date_lt Date_gt].
  replace (if t <? a then DateAt t else DateAt a) with (DateAt (Z.min a t))
    by (destruct (Z.ltb_spec t a); f_equal; lia).
  replace (if b <? t then DateAt t else DateAt b) with (DateAt (Z.max b t))
    by (destruct (Z.ltb_spec b t); f_equal; lia).
  apply IH.
Qed.

Lemma fold_min_spec ts a :
  (fold_left Z.min ts a = a \/ fold_left Z.min ts a ∈ ts)
  /\ fold_left Z.min ts a <= a
  /\ Forall (fun t => fold_left Z.min ts a <= t) ts.
Proof.
  revert a. induction ts as [|t ts IH]; intros a; cbn [fold_left].
  - repeat split; [now left|lia|constructor].
  - destruct (IH (Z.min a t)) as (Hin & Hle & Hall). repeat split.
    + destruct Hin as [Heq|Hin]; [|right; now right].
      rewrite Heq. destruct (Z.min_spec a t) as [[_ ->]|[_ ->]]; [now left|right; left].
    + lia.
    + constructor; [lia|exact Hall].
Qed.

Lemma fold_max_spec ts a :
  (fold_left Z.max ts a = a \/ fold_left Z.max ts a ∈ ts)
  /\ a <= fold_left Z.max ts a
  /\ Forall (fun t => t <= fold_left Z.max ts a) ts.
Proof.
  revert a. induction ts as [|t ts IH]; intros a; cbn [fold_left].
  - repeat split; [now left|lia|constructor].
  - destruct (IH (Z.max a t)) as (Hin & Hle & Hall). repeat split.
    + destruct Hin as [Heq|Hin]; [|right; now right].
      rewrite Heq. destruct (Z.max_spec a t) as [[_ ->]|[_ ->]]; [right; left|now left].
    + lia.
    + constructor; [lia|exact Hall].
Qed.

(** C4: for a non-empty sequence of records whose starts are instants
    (away from the two ends of the time range), [getEventDateRange]
    returns the window from the start of the local day one day before the
    earliest start to the end of the local day one day after the latest
    start.  For the empty sequence it returns no window;
    [getExistingCalendarEvents] then returns the empty key set after
    looking up the calendar only, with no [getEvents] query; and against
    the empty key set [filterEventsToCreate] keeps every record. *)
Theorem date_window_inference :
  (forall X ts,
      Forall2 (fun e t => start e = VDate (DateAt t)) X ts ->
      X <> [] ->
      Forall windowSafe ts ->
      exists tmin tmax,
        tmin ∈ ts /\ tmax ∈ ts /\ Forall (fun t => tmin <= t <= tmax) ts
        /\ getEventDateRange X
           = mkDateRange (Some (DateAt (startOfLocalDay (tmin - msPerDay))))
                         (Some (DateAt (endOfLocalDay (tmax + msPerDay)))))
  /\ getEventDateRange [] = mkDateRange None None
  /\ getExistingCalendarEvents [] = ([GetCalendarById CALENDAR_ID], Normal ∅)
  /\ (forall U, Forall isRecord U -> filterEventsToCreate U ∅ = Normal U).
Proof.
  split; [|split; [reflexivity|split; [reflexivity|]]].
  - intros X ts HF Hne Hsafe.
    destruct HF as [|e0 t0 X' ts' He0 HF']; [contradiction|].
    pose proof (List.Forall2_cons _ _ He0 HF') as HF.
    set (ts := t0 :: ts') in *.
    destruct (fold_min_spec ts t0) as (Hmin_in & _ & Hmin_all).
    destruct (fold_max_spec ts t0) as (Hmax_in & _ & Hmax_all).
    assert (fold_left Z.min ts t0 ∈ ts) as Hmin.
    { destruct Hmin_in as [->|Hin]; [left|exact Hin]. }
    assert (fold_left Z.max ts t0 ∈ ts) as Hmax.
    { destruct Hmax_in as [->|Hin]; [left|exact Hin]. }
    exists (fold_left Z.min ts t0), (fold_left Z.max ts t0).
    split; [exact Hmin|]. split; [exact Hmax|]. split.
    + apply Forall_forall. intros t Ht.
      rewrite Forall_forall in Hmin_all, Hmax_all. split; auto.
    + rewrite Forall_forall in Hsafe.
      unfold getEventDateRange. rewrite He0. cbn [newDate].
      rewrite (rangeStep_fold _ _ HF t0 t0).
      now rewrite (window_start _ (Hsafe _ Hmin)), (window_end _ (Hsafe _ Hmax)).
  - intros U HU. rewrite (filterEventsToCreate_filter U ∅ HU). f_equal.
    clear HU. induction U as [|e U IH]; [reflexivity|].
    rewrite filter_cons_True by apply not_elem_of_empty. now rewrite IH.
Qed.

(** ** The retry merge *)

(** C5: the events handed to processing are the freshly eligible events
    followed by all the events rebuilt from the error sheet; the latter
    are a function of the sheet alone, so that neither the existing keys
    nor the fresh events remove any of them.  A sheet with a header row
    and the row ("Sync", "2024-02-01T10:00:00", "", "FALSE", "", "",
    "API error") is rebuilt into one event, with title "Sync", not
    all-day, and no end. *)
Theorem retry_merge_appends_error_events content sheet fresh :
  eventsToCreate content = Normal fresh ->
  allEventsToProcess content sheet = Normal (fresh ++ getErrorEvents sheet)
  /\ (forall header,
        getErrorEvents
          (Normal [header;
                   [VString (lit "Sync"); VString (lit "2024-02-01T10:00:00");
                    VString []; VString (lit "FALSE"); VString []; VString [];
                    VString (lit "API error")]])
        = [mkEvent (VString (lit "Sync"))
                   (VDate (Date_parse (lit "2024-02-01T10:00:00")))
                   VUndefined
                   (VBool false)
                   (VString [])
                   (VString [])
                   (VNumber 2)]).
Proof.
  intros Hfresh. split.
  - unfold allEventsToProcess. rewrite Hfresh. reflexivity.
  - intros header. reflexivity.
Qed.

(** ** The creation pass *)

Lemma slice_from (evs : list Event) i b :
  (i <= length evs)%nat -> slice evs i (i + b) = take b (drop i evs).
Proof.
  intros Hi. unfold slice. rewrite (Nat.min_l i) by exact Hi.
  destruct (Nat.le_ge_cases (i + b) (length evs)) as [Hle|Hge].
  - rewrite Nat.min_l by exact Hle. f_equal. lia.
  - rewrite Nat.min_r by exact Hge.
    rewrite !take_ge; [reflexivity| |]; rewrite length_drop; lia.
Qed.

(** [processEvent] neither reads nor changes the pauses. *)
Lemma processEvent_sleeps w r event s :
  processEvent (mkWorld (calendar w) (errorSheet w) s, r) event
  = (mkWorld (calendar (processEvent (w, r) event).1)
             (errorSheet (processEvent (w, r) event).1) s,
     (processEvent (w, r) event).2).
Proof.
  unfold processEvent, onError. cbn [calendar errorSheet sleeps].
  destruct (createCall event) as [c|err]; [|reflexivity].
  destruct (calendar_create (calendar w) c) as [st [err|]]; [reflexivity|].
  destruct (asDate (start event)); reflexivity.
Qed.

Lemma fold_processEvent_sleeps evs :
  forall w r s,
    fold_left processEvent evs (mkWorld (calendar w) (errorSheet w) s, r)
    = (mkWorld (calendar (fold_left processEvent evs (w, r)).1)
               (errorSheet (fold_left processEvent evs (w, r)).1) s,
       (fold_left processEvent evs (w, r)).2).
Proof.
  induction evs as [|e evs IH]; intros w r s; [reflexivity|].
  cbn [fold_left]. rewrite processEvent_sleeps.
  destruct (processEvent (w, r) e) as [w1 r1]. cbn [fst snd]. apply IH.
Qed.

Lemma pauses_step BATCH_SIZE m :
  (0 < BATCH_SIZE)%nat -> (0 < m)%nat ->
  pauses BATCH_SIZE m = ((if (BATCH_SIZE <? m)%nat then 1 else 0) + pauses BATCH_SIZE (m - BATCH_SIZE))%nat.
Proof.
  intros Hb Hm. destruct m as [|m]; [lia|]. cbn [pauses].
  destruct (Nat.ltb_spec BATCH_SIZE (S m)) as [Hlt|Hge].
  - destruct (S m - BATCH_SIZE)%nat as [|k] eqn:Hk; [lia|]. cbn [pauses].
    replace m with (k + 1 * BATCH_SIZE)%nat by lia.
    rewrite Nat.div_add by lia. lia.
  - replace (S m - BATCH_SIZE)%nat with 0%nat by lia. cbn [pauses].
    rewrite Nat.div_small by lia. reflexivity.
Qed.

(** The loop over the batches is the loop over the events, with the
    pauses added. *)
Lemma batchLoop_sequential BATCH_SIZE evs :
  (0 < BATCH_SIZE)%nat ->
  forall fuel i w r,
    (length evs - i < fuel)%nat ->
    (i <= length evs)%nat ->
    batchLoop BATCH_SIZE fuel i evs w r
    = Some (mkWorld (calendar (fold_left processEvent (drop i evs) (w, r)).1)
                    (errorSheet (fold_left processEvent (drop i evs) (w, r)).1)
                    (sleeps w ++ replicate (pauses BATCH_SIZE (length evs - i)) SLEEP_INTERVAL),
            (fold_left processEvent (drop i evs) (w, r)).2).
Proof.
  intros Hb. induction fuel as [|fuel IH]; intros i w r Hfuel Hi; [lia|].
  cbn [batchLoop]. destruct (Nat.ltb_spec i (length evs)) as [Hlt|Hge].
  - rewrite (slice_from evs i BATCH_SIZE Hi).
    rewrite <- (take_drop BATCH_SIZE (drop i evs)) at 2 3 4.
    rewrite fold_left_app, drop_drop.
    destruct (fold_left processEvent (take BATCH_SIZE (drop i evs)) (w, r))
      as [w1 r1] eqn:Hbatch.
    assert (sleeps w1 = sleeps w) as Hs.
    { pose proof (fold_processEvent_sleeps (take BATCH_SIZE (drop i evs)) w r (sleeps w))
        as Hf.
      replace (mkWorld (calendar w) (errorSheet w) (sleeps w)) with w in Hf
        by (destruct w; reflexivity).
      rewrite Hbatch in Hf. now inversion Hf. }
    rewrite (pauses_step BATCH_SIZE (length evs - i) Hb) by lia.
    replace (length evs - i - BATCH_SIZE)%nat with (length evs - (i + BATCH_SIZE))%nat by lia.
    destruct (Nat.ltb_spec (i + BATCH_SIZE) (length evs)) as [Hmore|Hlast].
    + rewrite IH by lia.
      replace (BATCH_SIZE <? length evs - i)%nat with true
        by (symmetry; apply Nat.ltb_lt; lia).
      unfold sleep. rewrite (fold_processEvent_sleeps _ w1 r1).
      cbn [calendar errorSheet sleeps fst snd]. rewrite Hs.
      rewrite <- app_assoc. reflexivity.
    + destruct fuel as [|fuel']; [lia|]. cbn [batchLoop].
      replace (i + BATCH_SIZE <? length evs)%nat with false
        by (symmetry; apply Nat.ltb_ge; lia).
      replace (BATCH_SIZE <? length evs - i)%nat with false
        by (symmetry; apply Nat.ltb_ge; lia).
      rewrite drop_ge by lia. cbn [fold_left fst snd plus].
      replace (length evs - (i + BATCH_SIZE))%nat with 0%nat by lia.
      cbn [pauses replicate]. rewrite app_nil_r, <- Hs.
      destruct w1; reflexivity.
  - rewrite drop_ge by lia. cbn [fold_left fst snd].
    replace (length evs - i)%nat with 0%nat by lia. cbn [pauses replicate].
    rewrite app_nil_r. destruct w; reflexivity.
Qed.

Lemma creationFailures_length evs :
  forall st, (length (creationFailures st evs).1 <= length evs)%nat.
Proof.
  induction evs as [|e evs IH]; intros st; cbn [creationFailures]; [cbn; lia|].
  destruct (createCall e) as [c|err].
  - destruct (calendar_create st c) as [st1 [err|]].
    + specialize (IH st1). destruct (creationFailures st1 evs). cbn in *. lia.
    + specialize (IH st1). cbn. lia.
  - specialize (IH st). destruct (creationFailures st evs). cbn in *. lia.
Qed.

Lemma creationFailures_Forall (P : Event -> Prop) evs :
  Forall P evs -> forall st, Forall P (creationFailures st evs).1.*1.
Proof.
  induction 1 as [|e evs He _ IH]; intros st; cbn [creationFailures]; [constructor|].
  destruct (createCall e) as [c|err].
  - destruct (calendar_create st c) as [st1 [err|]]; [|apply IH].
    specialize (IH st1). destruct (creationFailures st1 evs). cbn in *.
    constructor; assumption.
  - specialize (IH st). destruct (creationFailures st evs). cbn in *.
    constructor; assumption.
Qed.

(** Processing the events one after the other: the calendar has answered
    the calls in order, every failure has been recorded in order, and
    every event has been counted once. *)
Lemma fold_processEvent_failures evs :
  Forall hasDateStart evs ->
  forall w r,
    fold_left processEvent evs (w, r)
    = (mkWorld (creationFailures (calendar w) evs).2
               (fold_left (fun rows (f : Event * Error) =>
                             recordError rows f.1 (errorText f.2))
                          (creationFailures (calendar w) evs).1 (errorSheet w))
               (sleeps w),
       mkBatchResult
         (created r + (length evs - length (creationFailures (calendar w) evs).1))
         (skipped r)
         (errors r + length (creationFailures (calendar w) evs).1)).
Proof.
  induction 1 as [|e evs [d He] _ IH]; intros w r.
  - cbn. rewrite !Nat.add_0_r. destruct w, r; reflexivity.
  - cbn [fold_left creationFailures]. unfold processEvent at 2, onError.
    destruct (createCall e) as [c|err].
    + destruct (calendar_create (calendar w) c) as [st1 [err|]].
      * rewrite IH. cbn [calendar errorSheet sleeps created skipped errors].
        pose proof (creationFailures_length evs st1) as Hlen.
        destruct (creationFailures st1 evs) as [fs st2].
        cbn [fst snd length fold_left] in *. do 2 f_equal; lia.
      * rewrite He. cbn [asDate]. rewrite IH.
        cbn [calendar errorSheet sleeps created skipped errors].
        pose proof (creationFailures_length evs st1) as Hlen.
        cbn [length]. do 2 f_equal; lia.
    + rewrite IH. cbn [calendar errorSheet sleeps created skipped errors].
      pose proof (creationFailures_length evs (calendar w)) as Hlen.
      destruct (creationFailures (calendar w) evs) as [fs st2].
      cbn [fst snd length fold_left] in *. do 2 f_equal; lia.
Qed.

Lemma fold_recordError_accepts fs :
  (forall rows row, appendRow_fails rows row = false) ->
  forall rows,
    fold_left (fun rows (f : Event * Error) => recordError rows f.1 (errorText f.2))
              fs rows
    = rows ++ failureRows fs.
Proof.
  intros Hok. induction fs as [|f fs IH]; intros rows; cbn.
  - now rewrite app_nil_r.
  - unfold recordError at 2. rewrite Hok, IH, <- app_assoc. reflexivity.
Qed.

(** The sheet from which the creation pass starts: the first row alone. *)
Lemma cleared_sheet rows :
  (if (1 <? length (getOrCreateErrorSheet rows))%nat
   then take 1 (getOrCreateErrorSheet rows)
   else getOrCreateErrorSheet rows)
  = take 1 (getOrCreateErrorSheet rows).
Proof.
  destruct (Nat.ltb_spec 1 (length (getOrCreateErrorSheet rows))) as [Hlt|Hge];
    [reflexivity|].
  symmetry. apply take_ge. exact Hge.
Qed.

Lemma processEventsInBatches_sequential BATCH_SIZE evs w :
  (0 < BATCH_SIZE)%nat ->
  processEventsInBatches BATCH_SIZE evs w
  = Some (mkWorld
            (calendar (fold_left processEvent evs
               (mkWorld (calendar w) (take 1 (getOrCreateErrorSheet (errorSheet w)))
                        (sleeps w), mkBatchResult 0 0 0)).1)
            (errorSheet (fold_left processEvent evs
               (mkWorld (calendar w) (take 1 (getOrCreateErrorSheet (errorSheet w)))
                        (sleeps w), mkBatchResult 0 0 0)).1)
            (sleeps w ++ replicate (pauses BATCH_SIZE (length evs)) SLEEP_INTERVAL),
          (fold_left processEvent evs
             (mkWorld (calendar w) (take 1 (getOrCreateErrorSheet (errorSheet w)))
                      (sleeps w), mkBatchResult 0 0 0)).2).
Proof.
  intros Hb. unfold processEventsInBatches. rewrite cleared_sheet.
  rewrite (batchLoop_sequential BATCH_SIZE evs Hb) by lia.
  rewrite Nat.sub_0_r. reflexivity.
Qed.

(** X1: with a positive batch size, [processEventsInBatches] returns for
    every sequence of events whose starts are dates.  It has then put
    the creation calls to the calendar in the order of the events, and
    every event is counted once, as created or as an error: the two
    counters add up to the number of events, [errors] is the number of
    failed creations, and [skipped] stays 0.  It has paused once between
    two consecutive batches. *)
Theorem creation_pass_counts BATCH_SIZE evs w :
  (0 < BATCH_SIZE)%nat ->
  Forall hasDateStart evs ->
  exists w' r,
    processEventsInBatches BATCH_SIZE evs w = Some (w', r)
    /\ calendar w' = (creationFailures (calendar w) evs).2
    /\ (created r + errors r = length evs)%nat
    /\ errors r = length (creationFailures (calendar w) evs).1
    /\ skipped r = 0%nat
    /\ sleeps w' = sleeps w ++ replicate (pauses BATCH_SIZE (length evs)) SLEEP_INTERVAL.
Proof.
  intros Hb Hevs. rewrite (processEventsInBatches_sequential BATCH_SIZE evs w Hb).
  rewrite (fold_processEvent_failures evs Hevs).
  cbn [fst snd calendar errorSheet sleeps created skipped errors].
  pose proof (creationFailures_length evs (calendar w)) as Hlen.
  eexists _, _. split; [reflexivity|].
  cbn [calendar sleeps created skipped errors]. repeat split; lia.
Qed.

(** X2: when the sheet accepts every row, the error sheet after the
    creation pass is its first row, the header, followed by one row for
    each failed creation, in the order of the events; the rows that the
    sheet held before are gone. *)
Theorem creation_pass_ledger BATCH_SIZE evs w :
  (0 < BATCH_SIZE)%nat ->
  Forall hasDateStart evs ->
  (forall rows row, appendRow_fails rows row = false) ->
  exists w' r,
    processEventsInBatches BATCH_SIZE evs w = Some (w', r)
    /\ errorSheet w'
       = take 1 (getOrCreateErrorSheet (errorSheet w))
         ++ failureRows (creationFailures (calendar w) evs).1
    /\ length (take 1 (getOrCreateErrorSheet (errorSheet w))) = 1%nat.
Proof.
  intros Hb Hevs Hok. rewrite (processEventsInBatches_sequential BATCH_SIZE evs w Hb).
  rewrite (fold_processEvent_failures evs Hevs).
  cbn [fst snd calendar errorSheet sleeps].
  rewrite (fold_recordError_accepts _ Hok).
  eexists _, _. split; [reflexivity|]. split; [reflexivity|].
  unfold getOrCreateErrorSheet. destruct (errorSheet w) as [|row rows]; reflexivity.
Qed.

(** ** Reading the error sheet back *)

Lemma truthy_orElse v : truthy (orElse v (VString [])) = truthy v.
Proof. unfold orElse. destruct (truthy v) eqn:Hv; [exact Hv|reflexivity]. Qed.

Lemma orElse_orElse v : orElse (orElse v (VString [])) (VString []) = orElse v (VString []).
Proof. unfold orElse. destruct (truthy v) eqn:Hv; [now rewrite Hv|reflexivity]. Qed.

(** The event rebuilt from the row recorded for a retriable event makes
    the same call to the calendar. *)
Lemma createCall_errorEventOfRow i e msg :
  retriable e ->
  truthy (cell (errorRow e msg) 0) && truthy (cell (errorRow e msg) 1) = true
  /\ createCall (errorEventOfRow i (errorRow e msg)) = createCall e
  /\ title (errorEventOfRow i (errorRow e msg)) = title e
  /\ start (errorEventOfRow i (errorRow e msg)) = start e
  /\ rowIndex (errorEventOfRow i (errorRow e msg)) = VNumber (Z.of_nat i + 1).
Proof.
  intros (Ht & [d Hs] & Hend).
  unfold errorEventOfRow, errorRow, cell. cbn [lookup list_lookup].
  rewrite Ht, Hs, truthy_orElse. cbn [truthy andb newDate].
  assert (bool_decide
            (VString (if truthy (isAllDay e) then lit "TRUE" else lit "FALSE")
             = VString (lit "TRUE")) = truthy (isAllDay e)) as Hflag.
  { destruct (truthy (isAllDay e)); reflexivity. }
  rewrite Hflag. split; [reflexivity|].
  destruct Hend as [He|[d' He]]; rewrite He; cbn [truthy orElse];
    unfold createCall, endOrDefault, set_end;
    cbn [title start end_ isAllDay description location rowIndex truthy newDate];
    rewrite ?He, ?Hs, !orElse_orElse; cbn [truthy];
    repeat split; reflexivity.
Qed.

Lemma errorEventsFrom_failureRows fs :
  Forall retriable fs.*1 ->
  forall i,
    createCall <$> errorEventsFrom i (failureRows fs) = createCall <$> fs.*1
    /\ title <$> errorEventsFrom i (failureRows fs) = title <$> fs.*1
    /\ start <$> errorEventsFrom i (failureRows fs) = start <$> fs.*1.
Proof.
  induction fs as [|[e err] fs IH]; intros Hfs i; [repeat split; reflexivity|].
  cbn in Hfs. apply Forall_cons in Hfs as [He Hfs].
  destruct (createCall_errorEventOfRow i e (errorText err) He)
    as (Hrow & Hcall & Htitle & Hstart & _).
  destruct (IH Hfs (S i)) as (IHc & IHt & IHs).
  cbn [failureRows fmap list_fmap errorEventsFrom fst snd].
  fold (failureRows fs). rewrite Hrow. cbn [fmap list_fmap].
  rewrite Hcall, Htitle, Hstart, IHc, IHt, IHs. repeat split; reflexivity.
Qed.

(** The first row of the sheet is skipped, whatever it holds. *)
Lemma getErrorEvents_header header rows :
  getErrorEvents (Normal (header :: rows)) = errorEventsFrom 1 rows.
Proof.
  unfold getErrorEvents. destruct rows as [|row rows]; reflexivity.
Qed.

(** X3: when the sheet accepts every row, what the next run reads back
    from the error sheet after a creation pass over retriable events are
    the failed events of this pass, in order: with the same titles and
    starts, and making the same calls to the calendar. *)
Theorem failed_events_are_read_back BATCH_SIZE evs w :
  (0 < BATCH_SIZE)%nat ->
  Forall retriable evs ->
  (forall rows row, appendRow_fails rows row = false) ->
  exists w' r,
    processEventsInBatches BATCH_SIZE evs w = Some (w', r)
    /\ createCall <$> getErrorEvents (Normal (errorSheet w'))
       = createCall <$> (creationFailures (calendar w) evs).1.*1
    /\ title <$> getErrorEvents (Normal (errorSheet w'))
       = title <$> (creationFailures (calendar w) evs).1.*1
    /\ start <$> getErrorEvents (Normal (errorSheet w'))
       = start <$> (creationFailures (calendar w) evs).1.*1.
Proof.
  intros Hb Hevs Hok.
  assert (Forall hasDateStart evs) as Hdates.
  { eapply Forall_impl; [exact Hevs|]. intros e (_ & Hs & _). exact Hs. }
  rewrite (processEventsInBatches_sequential BATCH_SIZE evs w Hb).
  rewrite (fold_processEvent_failures evs Hdates).
  cbn [fst snd calendar errorSheet sleeps].
  rewrite (fold_recordError_accepts _ Hok).
  eexists _, _. split; [reflexivity|]. cbn [errorSheet].
  pose proof (creationFailures_Forall retriable evs Hevs (calendar w)) as Hfs.
  set (fs := (creationFailures (calendar w) evs).1) in *.
  assert (exists header, take 1 (getOrCreateErrorSheet (errorSheet w)) = [header])
    as [header ->].
  { unfold getOrCreateErrorSheet. destruct (errorSheet w) as [|row rows]; cbn; eauto. }
  cbn [app]. rewrite getErrorEvents_header.
  apply errorEventsFrom_failureRows, Hfs.
Qed.

(** ** What the parser emits, and the steps that follow *)

Lemma parseEventProperty_parsed line e e' :
  parsedAccumulator e -> parseEventProperty line e = Normal e' -> parsedAccumulator e'.
Proof.
  intros (Ht & Hs & He & Hd & Hl & Hr) H. unfold parseEventProperty in H.
  repeat match type of H with
         | context [if ?b then _ else _] => destruct b
         | context [parseIcsDateTime ?x] => destruct (parseIcsDateTime x); cbn in H
         end;
    try discriminate; inversion H; subst; unfold parsedAccumulator; cbn;
    repeat split; eauto.
Qed.

Lemma parsedAccumulator_emitted e :
  parsedAccumulator e -> hasTitleAndStart (Some e) = true -> parsedRecord e.
Proof.
  intros (Ht & Hs & He & Hd & Hl & Hr) H. cbn in H.
  apply andb_true_iff in H as [Htitle Hstart].
  repeat split; try assumption.
  - destruct Ht as [Ht|[s Ht]]; rewrite Ht in Htitle; [discriminate|].
    exists s. split; [exact Ht|]. cbn in Htitle. intros ->. discriminate.
  - destruct Hs as [[Hs _]|Hs]; [|exact Hs]. rewrite Hs in Hstart. discriminate.
Qed.

Lemma processLine_invariant line st st' :
  parserInvariant st -> processLine line st = Normal st' -> parserInvariant st'.
Proof.
  intros [Hevs Hcur] H. unfold processLine in H.
  destruct (bool_decide (line = BEGIN_VEVENT)).
  - inversion H; subst. split; [exact Hevs|]. cbn. intros e [= <-].
    unfold parsedAccumulator. cbn. repeat split; auto.
  - destruct (bool_decide (line = END_VEVENT) && inEvent st).
    + inversion H; subst. split; [|intros e; discriminate]. cbn.
      destruct (currentEvent st) as [e|] eqn:Hc; [|exact Hevs].
      destruct (hasTitleAndStart (Some e)) eqn:Hemit; [|exact Hevs].
      apply Forall_app. split; [exact Hevs|]. constructor; [|constructor].
      apply parsedAccumulator_emitted; [apply Hcur; reflexivity|exact Hemit].
    + destruct (inEvent st); [|inversion H; subst; split; assumption].
      destruct (currentEvent st) as [e|] eqn:Hc; [|inversion H; subst; split; [assumption|]].
      * destruct (parseEventProperty line e) as [e'|] eqn:Hp; cbn in H; [|discriminate].
        inversion H; subst. split; [exact Hevs|]. cbn. intros e0 [= <-].
        eapply parseEventProperty_parsed; [|exact Hp]. apply Hcur. reflexivity.
      * intros e0. rewrite Hc. discriminate.
Qed.

Lemma runLines_invariant ls :
  forall st st',
    parserInvariant st -> runLines ls st = Normal st' -> parserInvariant st'.
Proof.
  induction ls as [|l ls IH]; intros st st' Hst H; cbn in H.
  - now inversion H; subst.
  - destruct (processLine l st) as [st1|] eqn:Hl; cbn in H; [|discriminate].
    eapply IH; [|exact H]. eapply processLine_invariant; eassumption.
Qed.

Lemma parserInvariant_initial : parserInvariant (mkParserState [] None false).
Proof. split; [constructor|]. intros e. discriminate. Qed.

Lemma parseIcsContent_parsed content evs :
  parseIcsContent content = Normal evs -> Forall parsedRecord evs.
Proof.
  rewrite parseIcsContent_runLines. intros H.
  destruct (runLines (logicalLines content) (mkParserState [] None false))
    as [st|] eqn:Hrun; cbn in H; [|discriminate].
  inversion H; subst.
  exact (proj1 (runLines_invariant _ _ _ parserInvariant_initial Hrun)).
Qed.

(** X4: every record that [parseIcsContent] returns has a non-empty
    string as title, a [Date] as start, a boolean as all-day flag, a
    [Date] or nothing as end, a string or nothing as description and as
    location, and no row index. *)
Theorem parseIcsContent_records content evs :
  parseIcsContent content = Normal evs -> Forall parsedRecord evs.
Proof. apply parseIcsContent_parsed. Qed.

Lemma parsedRecord_isRecord e : parsedRecord e -> isRecord e.
Proof.
  intros ([s [Ht _]] & (d & b & Hs & _) & _). split; eauto.
Qed.

Lemma parsedRecord_retriable e : parsedRecord e -> retriable e.
Proof.
  intros ([s [Ht Hne]] & (d & b & Hs & _) & He & _). repeat split; eauto.
  rewrite Ht. cbn. now rewrite bool_decide_eq_false_2.
Qed.

Lemma filter_keys_NoDup (P : Event -> Prop) `{!forall e, Decision (P e)} Y :
  NoDup (recordKey <$> Y) -> NoDup (recordKey <$> filter P Y).
Proof.
  intros Hnd. eapply sublist_NoDup; [exact Hnd|].
  apply fmap_sublist, sublist_filter.
Qed.

Lemma eventsToCreate_fresh_parsed content fresh :
  eventsToCreate content = Normal fresh ->
  Forall parsedRecord fresh
  /\ exists evs, parseIcsContent content = Normal evs /\ sublist fresh evs.
Proof.
  unfold eventsToCreate. intros H.
  destruct (parseIcsContent content) as [evs|] eqn:Hparse; cbn in H; [|discriminate].
  pose proof (parseIcsContent_parsed content evs Hparse) as Hparsed.
  assert (Forall isRecord evs) as Hrec.
  { eapply Forall_impl; [exact Hparsed|]. exact parsedRecord_isRecord. }
  unfold removeDuplicateEvents in H.
  rewrite (removeDuplicateLoop_firstsFrom evs Hrec [] ∅ []) in H
    by (intros k; rewrite elem_of_empty, elem_of_nil; reflexivity).
  cbn [mbind Completion_bind app] in H.
  destruct (snd (getExistingCalendarEvents (firstsFrom [] evs)))
    as [keys|] eqn:Hkeys; cbn [mbind Completion_bind] in H; [|discriminate].
  rewrite filterEventsToCreate_filter in H by (apply firstsFrom_records, Hrec).
  inversion H; subst.
  assert (sublist (filter (fun e => recordKey e ∉ keys) (firstsFrom [] evs)) evs) as Hsub.
  { etransitivity; [apply sublist_filter|apply firstsFrom_sublist]. }
  split; [|exists evs; split; [reflexivity|exact Hsub]].
  rewrite Forall_forall in Hparsed. apply Forall_forall. intros e He.
  apply Hparsed. eapply elem_of_sublist; eassumption.
Qed.

(** X5: when steps 1 to 4 of [importIcsToCalendar] return, the events to
    create are the first occurrences of the keys among the parsed
    records, without those whose key exists in the calendar, in the
    order of the content; their keys are pairwise distinct, and none of
    them is a key of the calendar. *)
Theorem eventsToCreate_distinct_new_keys content fresh :
  eventsToCreate content = Normal fresh ->
  exists evs existingKeys,
    parseIcsContent content = Normal evs
    /\ snd (getExistingCalendarEvents (firstOccurrences evs)) = Normal existingKeys
    /\ fresh = filter (fun e => recordKey e ∉ existingKeys) (firstOccurrences evs)
    /\ sublist fresh evs
    /\ Forall parsedRecord fresh
    /\ NoDup (recordKey <$> fresh)
    /\ (forall e, e ∈ fresh -> recordKey e ∉ existingKeys).
Proof.
  unfold eventsToCreate. intros H.
  destruct (parseIcsContent content) as [evs|] eqn:Hparse; cbn in H; [|discriminate].
  pose proof (parseIcsContent_parsed content evs Hparse) as Hparsed.
  assert (Forall isRecord evs) as Hrec.
  { eapply Forall_impl; [exact Hparsed|]. exact parsedRecord_isRecord. }
  assert (removeDuplicateEvents evs = Normal (firstsFrom [] evs)) as Hdedup.
  { unfold removeDuplicateEvents.
    rewrite (removeDuplicateLoop_firstsFrom evs Hrec [] ∅ []); [reflexivity|].
    intros k. rewrite elem_of_empty, elem_of_nil. reflexivity. }
  rewrite Hdedup in H. cbn [mbind Completion_bind] in H.
  rewrite firstsFrom_firstOccurrences in H.
  destruct (snd (getExistingCalendarEvents (firstOccurrences evs)))
    as [keys|] eqn:Hkeys; cbn [mbind Completion_bind] in H; [|discriminate].
  pose proof (firstsFrom_sublist evs []) as Hsub.
  rewrite firstsFrom_firstOccurrences in Hsub.
  assert (Forall parsedRecord (firstOccurrences evs)) as Hfirst.
  { rewrite Forall_forall in Hparsed. apply Forall_forall. intros e He.
    apply Hparsed. eapply elem_of_sublist; eassumption. }
  rewrite filterEventsToCreate_filter in H
    by (eapply Forall_impl; [exact Hfirst|exact parsedRecord_isRecord]).
  inversion H; subst. exists evs, keys.
  split; [reflexivity|]. split; [exact Hkeys|]. split; [reflexivity|].
  split; [etransitivity; [apply sublist_filter|exact Hsub]|].
  split.
  { rewrite Forall_forall in Hfirst. apply Forall_forall. intros e He.
    apply list_elem_of_filter in He as [_ He]. exact (Hfirst e He). }
  split.
  - apply filter_keys_NoDup. rewrite <- firstsFrom_firstOccurrences.
    apply firstsFrom_keys.
  - intros e He. apply list_elem_of_filter in He as [Hk _]. exact Hk.
Qed.

(** X6: de-duplication and filtering never throw on what the parser
    returns: an exception of steps 1 to 4 is an exception of the parser
    or of the query to the calendar. *)
Theorem eventsToCreate_throws content error :
  eventsToCreate content = Throw error ->
  parseIcsContent content = Throw error
  \/ exists evs,
       parseIcsContent content = Normal evs
       /\ snd (getExistingCalendarEvents (firstOccurrences evs)) = Throw error.
Proof.
  unfold eventsToCreate. intros H.
  destruct (parseIcsContent content) as [evs|err] eqn:Hparse; cbn in H;
    [|left; exact H].
  right. exists evs. split; [reflexivity|].
  pose proof (parseIcsContent_parsed content evs Hparse) as Hparsed.
  assert (Forall isRecord evs) as Hrec.
  { eapply Forall_impl; [exact Hparsed|]. exact parsedRecord_isRecord. }
  assert (removeDuplicateEvents evs = Normal (firstsFrom [] evs)) as Hdedup.
  { unfold removeDuplicateEvents.
    rewrite (removeDuplicateLoop_firstsFrom evs Hrec [] ∅ []); [reflexivity|].
    intros k. rewrite elem_of_empty, elem_of_nil. reflexivity. }
  rewrite Hdedup in H. cbn [mbind Completion_bind] in H.
  rewrite firstsFrom_firstOccurrences in H.
  destruct (snd (getExistingCalendarEvents (firstOccurrences evs)))
    as [keys|err] eqn:Hkeys; cbn [mbind Completion_bind] in H;
    [|inversion H; reflexivity].
  rewrite filterEventsToCreate_filter in H; [discriminate|].
  pose proof (firstsFrom_records evs Hrec []) as Hf.
  now rewrite firstsFrom_firstOccurrences in Hf.
Qed.

(** ** The error sheet as a work queue *)

Lemma errorEventOfRow_retriable i row :
  truthy (cell row 0) && truthy (cell row 1) = true -> retriable (errorEventOfRow i row).
Proof.
  intros H. apply andb_true_iff in H as [Ht _]. unfold errorEventOfRow.
  destruct (truthy (cell row 2)); repeat split; cbn; eauto.
Qed.

Lemma elem_of_errorEventsFrom rows :
  forall i e,
    e ∈ errorEventsFrom i rows
    <-> exists j row,
          rows !! j = Some row
          /\ truthy (cell row 0) && truthy (cell row 1) = true
          /\ e = errorEventOfRow (i + j) row.
Proof.
  induction rows as [|row rows IH]; intros i e; cbn [errorEventsFrom].
  - split; [intros H; inversion H|]. intros (j & row & Hj & _). discriminate.
  - assert (e ∈ errorEventsFrom (S i) rows
            <-> exists j row',
                  (row :: rows) !! S j = Some row'
                  /\ truthy (cell row' 0) && truthy (cell row' 1) = true
                  /\ e = errorEventOfRow (i + S j) row') as Htail.
    { rewrite IH. split; intros (j & row' & Hj & Hc & ->); exists j, row';
        (split; [exact Hj|]); (split; [exact Hc|]); f_equal; lia. }
    destruct (truthy (cell row 0) && truthy (cell row 1)) eqn:Hc.
    + rewrite elem_of_cons, Htail. split.
      * intros [->|(j & row' & Hj & Hc' & ->)].
        -- exists 0%nat, row. rewrite Nat.add_0_r. auto.
        -- exists (S j), row'. auto.
      * intros ([|j] & row' & Hj & Hc' & ->).
        -- left. cbn in Hj. inversion Hj; subst. now rewrite Nat.add_0_r.
        -- right. exists j, row'. auto.
    + rewrite Htail. split.
      * intros (j & row' & Hj & Hc' & ->). exists (S j), row'. auto.
      * intros ([|j] & row' & Hj & Hc' & ->).
        -- cbn in Hj. inversion Hj; subst. congruence.
        -- exists j, row'. auto.
Qed.

Lemma errorEventsFrom_length rows :
  forall i, (length (errorEventsFrom i rows) <= length rows)%nat.
Proof.
  induction rows as [|row rows IH]; intros i; cbn [errorEventsFrom length]; [lia|].
  specialize (IH (S i)).
  destruct (truthy (cell row 0) && truthy (cell row 1)); cbn [length]; lia.
Qed.

(** X7: [getErrorEvents] returns the empty array when reading the sheet
    throws and when the sheet holds nothing below its first row.
    Otherwise it returns, for the rows below the first one that have a
    truthy title and a truthy start, and for these rows only, the event
    rebuilt from the row, with the number of the row in the sheet
    (counted from 1) as [rowIndex]; every event it returns has a truthy
    title, a [Date] as start and a [Date] or nothing as end. *)
Theorem getErrorEvents_rows data :
  (forall error, getErrorEvents (Throw error) = [])
  /\ ((length data <= 1)%nat -> getErrorEvents (Normal data) = [])
  /\ (forall e,
        e ∈ getErrorEvents (Normal data)
        <-> exists i row,
              (1 <= i)%nat /\ data !! i = Some row
              /\ truthy (cell row 0) && truthy (cell row 1) = true
              /\ e = errorEventOfRow i row)
  /\ (forall i row,
        rowIndex (errorEventOfRow i row) = VNumber (Z.of_nat i + 1)
        /\ title (errorEventOfRow i row) = cell row 0)
  /\ Forall retriable (getErrorEvents (Normal data))
  /\ (length (getErrorEvents (Normal data)) <= length data - 1)%nat.
Proof.
  assert (forall e,
             e ∈ getErrorEvents (Normal data)
             <-> exists i row,
                   (1 <= i)%nat /\ data !! i = Some row
                   /\ truthy (cell row 0) && truthy (cell row 1) = true
                   /\ e = errorEventOfRow i row) as Hmem.
  { intros e. destruct data as [|header rows].
    - cbn. split; [intros H; inversion H|]. intros (i & row & _ & Hi & _). discriminate.
    - rewrite getErrorEvents_header, elem_of_errorEventsFrom. split.
      + intros (j & row & Hj & Hc & ->). exists (S j), row.
        repeat split; [lia|exact Hj|exact Hc].
      + intros ([|i] & row & Hi & Hrow & Hc & ->); [lia|].
        exists i, row. repeat split; [exact Hrow|exact Hc]. }
  split; [reflexivity|]. split.
  { intros Hlen. unfold getErrorEvents.
    destruct (Nat.leb_spec (length data) 1); [reflexivity|lia]. }
  split; [exact Hmem|]. split.
  { intros i row. unfold errorEventOfRow.
    destruct (truthy (cell row 2)); split; reflexivity. }
  split.
  - apply Forall_forall. intros e He. apply Hmem in He as (i & row & _ & _ & Hc & ->).
    apply errorEventOfRow_retriable, Hc.
  - destruct data as [|header rows]; [cbn; lia|].
    rewrite getErrorEvents_header. cbn [length].
    pose proof (errorEventsFrom_length rows 1). lia.
Qed.

Lemma getErrorEvents_retriable sheet : Forall retriable (getErrorEvents sheet).
Proof.
  destruct sheet as [data|err]; [|constructor].
  apply Forall_forall. intros e He.
  destruct data as [|header rows]; [inversion He|].
  rewrite getErrorEvents_header in He.
  apply elem_of_errorEventsFrom in He as (j & row & _ & Hc & ->).
  apply errorEventOfRow_retriable, Hc.
Qed.

Lemma getOrCreateErrorSheet_idem rows :
  getOrCreateErrorSheet (getOrCreateErrorSheet rows) = getOrCreateErrorSheet rows.
Proof. destruct rows; reflexivity. Qed.

(** X8: a run of [importIcsToCalendar] whose steps 1 to 4 return, with a
    positive batch size and a sheet that accepts every row, returns.  It
    has processed the events to create followed by the events read from
    the error sheet, each counted once as created or as an error; and
    the events that the next run will read from the error sheet are the
    events whose creation failed in this run, in order, with the same
    calls to the calendar. *)
Theorem importIcsToCalendar_run BATCH_SIZE content w fresh :
  eventsToCreate content = Normal fresh ->
  (0 < BATCH_SIZE)%nat ->
  (forall rows row, appendRow_fails rows row = false) ->
  exists w' r,
    importIcsToCalendar BATCH_SIZE content w = Normal (Some (w', r))
    /\ (created r + errors r
        = length fresh
          + length (getErrorEvents (Normal (getOrCreateErrorSheet (errorSheet w)))))%nat
    /\ errors r
       = length (creationFailures (calendar w)
                   (fresh ++ getErrorEvents
                               (Normal (getOrCreateErrorSheet (errorSheet w))))).1
    /\ createCall <$> getErrorEvents (Normal (errorSheet w'))
       = createCall <$>
           (creationFailures (calendar w)
              (fresh ++ getErrorEvents
                          (Normal (getOrCreateErrorSheet (errorSheet w))))).1.*1.
Proof.
  intros Hfresh Hb Hok. unfold importIcsToCalendar. rewrite Hfresh.
  cbn [mbind Completion_bind].
  set (retried := getErrorEvents (Normal (getOrCreateErrorSheet (errorSheet w)))).
  assert (Forall retriable (fresh ++ retried)) as Hall.
  { apply Forall_app. split; [|apply getErrorEvents_retriable].
    destruct (eventsToCreate_fresh_parsed content fresh Hfresh) as [Hparsed _].
    eapply Forall_impl; [exact Hparsed|exact parsedRecord_retriable]. }
  assert (Forall hasDateStart (fresh ++ retried)) as Hdates.
  { eapply Forall_impl; [exact Hall|]. intros e (_ & Hs & _). exact Hs. }
  rewrite (processEventsInBatches_sequential _ _ _ Hb).
  cbn [calendar errorSheet sleeps]. rewrite getOrCreateErrorSheet_idem.
  rewrite (fold_processEvent_failures _ Hdates).
  cbn [fst snd calendar errorSheet sleeps created skipped errors].
  rewrite (fold_recordError_accepts _ Hok).
  pose proof (creationFailures_length (fresh ++ retried) (calendar w)) as Hlen.
  pose proof (creationFailures_Forall retriable _ Hall (calendar w)) as Hfs.
  rewrite length_app in Hlen.
  eexists _, _. split; [reflexivity|].
  cbn [created errors errorSheet]. split; [rewrite length_app; lia|].
  split; [reflexivity|].
  assert (exists header, take 1 (getOrCreateErrorSheet (errorSheet w)) = [header])
    as [header ->].
  { unfold getOrCreateErrorSheet. destruct (errorSheet w) as [|row rows]; cbn; eauto. }
  cbn [app]. rewrite getErrorEvents_header.
  apply errorEventsFrom_failureRows, Hfs.
Qed.

(** ** Lines *)

Lemma splitLines_nonempty s : splitLines s <> [].
Proof.
  induction s as [|c rest IH]; cbn; [discriminate|].
  destruct (c =? 10)%N; [discriminate|].
  destruct ((c =? 13)%N && startsWithLF rest); [exact IH|].
  destruct (splitLines rest); discriminate.
Qed.

Lemma splitLines_plain l :
  plainLine l ->
  splitLines l = [l]
  /\ (forall rest, splitLines (l ++ 10%N :: rest) = l :: splitLines rest)
  /\ (forall rest, splitLines (l ++ 13%N :: 10%N :: rest) = l :: splitLines rest).
Proof.
  induction l as [|c l IH]; intros [Hlf Hcr].
  - repeat split; reflexivity.
  - assert (c <> 10%N) as Hc by (intros ->; apply Hlf; left).
    assert (plainLine l) as Hl.
    { split; [intros Hin; apply Hlf; now right|].
      destruct l as [|c' l']; [discriminate|exact Hcr]. }
    destruct (IH Hl) as (IH1 & IH2 & IH3).
    assert (forall tail, (c =? 13)%N && startsWithLF (l ++ tail) = true ->
                         l = [] /\ c = 13%N) as Hsep.
    { intros tail H. apply andb_true_iff in H as [Hc13 Hnext].
      apply N.eqb_eq in Hc13. split; [|exact Hc13].
      destruct l as [|c' l']; [reflexivity|]. cbn in Hnext.
      apply N.eqb_eq in Hnext. subst c'. exfalso. apply Hlf. right. left. }
    assert (l <> [] \/ c <> 13%N) as Hnot.
    { destruct l as [|c' l']; [right|left; discriminate].
      cbn in Hcr. intros ->. now apply Hcr. }
    assert (forall tail, (c =? 13)%N && startsWithLF (l ++ tail) = false) as Hkeep.
    { intros tail. destruct ((c =? 13)%N && startsWithLF (l ++ tail)) eqn:H;
        [|reflexivity].
      destruct (Hsep tail H) as [-> ->]. destruct Hnot; congruence. }
    apply N.eqb_neq in Hc. repeat split.
    + cbn [splitLines]. rewrite Hc. specialize (Hkeep []). rewrite app_nil_r in Hkeep.
      rewrite Hkeep, IH1. reflexivity.
    + intros rest. cbn [splitLines app]. rewrite Hc, Hkeep, IH2. reflexivity.
    + intros rest. cbn [splitLines app]. rewrite Hc, Hkeep, IH3. reflexivity.
Qed.

Lemma splitLines_joinLines sep ls :
  sep = LF \/ sep = CRLF ->
  ls <> [] -> Forall plainLine ls -> splitLines (joinLines sep ls) = ls.
Proof.
  intros Hsep Hne Hls. induction Hls as [|l ls Hl Hls IH]; [contradiction|].
  destruct (splitLines_plain l Hl) as (H1 & H2 & H3).
  cbn [joinLines]. destruct ls as [|l' ls']; [exact H1|].
  destruct Hsep as [->| ->]; cbn [LF CRLF app].
  - rewrite H2, IH by discriminate. reflexivity.
  - rewrite H3, IH by discriminate. reflexivity.
Qed.

(** X9: the content is cut into the same lines whether its lines end
    with a line feed or with a carriage return and a line feed: for
    lines that hold no line feed and do not end with a carriage return,
    splitting the lines joined by either line end gives the lines back. *)
Theorem splitLines_line_ends ls :
  ls <> [] ->
  Forall plainLine ls ->
  splitLines (joinLines LF ls) = ls /\ splitLines (joinLines CRLF ls) = ls.
Proof.
  intros Hne Hls. split; apply splitLines_joinLines; auto.
Qed.

Lemma substringFrom_1 (l : jsstring) : substringFrom l 1 = drop 1 l.
Proof.
  unfold substringFrom, substring. destruct l as [|c l]; [reflexivity|].
  cbn [length]. rewrite Nat.min_id, !(Nat.min_l 1), Nat.max_r by lia.
  cbn [drop]. apply take_ge. rewrite drop_0. lia.
Qed.

(** X10: any number of continuation lines is folded into the line under
    construction: each loses its first character and nothing else, and
    the pieces are joined without separator, whatever follows. *)
Theorem parseLoop_continuations line conts rest st :
  Forall (fun l => isContinuation l = true) conts ->
  parseLoop line (conts ++ rest) st
  = parseLoop (line ++ concat (drop 1 <$> conts)) rest st.
Proof.
  intros Hconts. revert line.
  induction Hconts as [|c conts Hc _ IH]; intros line; cbn [app fmap list_fmap concat].
  - now rewrite app_nil_r.
  - cbn [parseLoop]. rewrite Hc, IH, substringFrom_1, <- app_assoc. reflexivity.
Qed.

(** ** Blocks *)

Lemma runLines_outside ls :
  Forall (fun l => l <> BEGIN_VEVENT) ls ->
  forall evs cur,
    runLines ls (mkParserState evs cur false) = Normal (mkParserState evs cur false).
Proof.
  induction 1 as [|l ls Hl _ IH]; intros evs cur; [reflexivity|].
  cbn [runLines]. unfold processLine at 1.
  rewrite (bool_decide_eq_false_2 _ Hl). cbn [inEvent]. rewrite andb_false_r.
  cbn [mbind Completion_bind]. apply IH.
Qed.

(** X11: outside a block every line is ignored, whatever it holds: a
    content without a logical line [BEGIN:VEVENT] is parsed, without
    exception, into no record. *)
Theorem parseIcsContent_without_block content :
  Forall (fun l => l <> BEGIN_VEVENT) (logicalLines content) ->
  parseIcsContent content = Normal [].
Proof.
  intros H. rewrite parseIcsContent_runLines, (runLines_outside _ H). reflexivity.
Qed.

(** X12: a [BEGIN:VEVENT] inside a block starts the record afresh: the
    properties read since the previous [BEGIN:VEVENT] leave no trace in
    the output, as if their lines were absent. *)
Theorem nested_begin_discards_partial_record pre body rest acc :
  Forall (fun l => l <> BEGIN_VEVENT /\ l <> END_VEVENT) body ->
  accumulate body emptyEvent = Normal acc ->
  runLines (pre ++ BEGIN_VEVENT :: body ++ BEGIN_VEVENT :: rest)
           (mkParserState [] None false)
  = runLines (pre ++ BEGIN_VEVENT :: rest) (mkParserState [] None false).
Proof.
  intros Hbody Hacc. rewrite !runLines_app.
  destruct (runLines pre (mkParserState [] None false)) as [st0|]; [|reflexivity].
  cbn [mbind Completion_bind].
  rewrite !runLines_cons, !processLine_BEGIN. cbn [mbind Completion_bind].
  rewrite (runLines_body body _ (events st0) emptyEvent acc Hbody Hacc).
  rewrite runLines_cons, processLine_BEGIN. reflexivity.
Qed.

(** X13: a [DTSTART:] or [DTEND:] property without ['T'] in its value,
    inside a block, makes the parser throw a [TypeError]: the parse
    returns no record at all, whatever the content holds before and
    after. *)
Theorem date_time_without_T_aborts_parse content pre body v post acc :
  Forall (fun l => l <> BEGIN_VEVENT /\ l <> END_VEVENT) body ->
  accumulate body emptyEvent = Normal acc ->
  84%N ∉ v ->
  (exists evs cur inE,
     runLines pre (mkParserState [] None false) = Normal (mkParserState evs cur inE)) ->
  logicalLines content = pre ++ BEGIN_VEVENT :: body ++ (DTSTART ++ v) :: post
  \/ logicalLines content = pre ++ BEGIN_VEVENT :: body ++ (DTEND ++ v) :: post ->
  parseIcsContent content = Throw TypeError.
Proof.
  intros Hbody Hacc Hv (evs & cur & inE & Hpre) Hlines.
  assert (parseIcsDateTime v = Throw TypeError) as Hthrow.
  { unfold parseIcsDateTime. destruct (split_first 84 v) as [dp ->].
    apply (split_second 84 v) in Hv. now rewrite Hv. }
  destruct (parseEventProperty_prefixed v acc) as (_ & _ & _ & _ & Hs & _ & He).
  rewrite Hthrow in Hs, He. cbn [mbind Completion_bind] in Hs, He.
  rewrite parseIcsContent_runLines.
  destruct Hlines as [-> | ->]; rewrite runLines_app, Hpre;
    cbn [mbind Completion_bind];
    rewrite runLines_cons, processLine_BEGIN; cbn [mbind Completion_bind events];
    rewrite (runLines_body body _ evs emptyEvent acc Hbody Hacc);
    rewrite runLines_cons; unfold processLine at 1.
  - change (bool_decide (DTSTART ++ v = BEGIN_VEVENT)) with false.
    change (bool_decide (DTSTART ++ v = END_VEVENT)) with false.
    cbn [andb inEvent currentEvent]. rewrite Hs. reflexivity.
  - change (bool_decide (DTEND ++ v = BEGIN_VEVENT)) with false.
    change (bool_decide (DTEND ++ v = END_VEVENT)) with false.
    cbn [andb inEvent currentEvent]. rewrite He. reflexivity.
Qed.

(** ** Decoding dates *)

Lemma daysInMonth_le_31 y mo : daysInMonth y mo <= 31.
Proof.
  unfold daysInMonth. destruct (leapOfYear_cases y) as [[-> _]|[-> _]];
    repeat match goal with |- context [if ?b then _ else _] => destruct b end; lia.
Qed.

Lemma TimeClip_calendar y mo d h mi s :
  inCalendarRange y mo d h mi s ->
  Z.abs tza <= msPerDay ->
  Z.abs (MakeDate (MakeDay y (mo - 1) d) (MakeTime h mi s 0) - tza) <= maxTime.
Proof.
  intros (Hy & Hmo & Hd & Hh & Hmi & Hs) Htza.
  destruct (civil_of_MakeDay y mo d Hmo Hd) as [-> _].
  assert (1 <= d <= 31) as Hd31.
  { unfold daysInMonth in Hd. destruct (leapOfYear_cases y) as [[Hl _]|[Hl _]];
      rewrite Hl in Hd;
      repeat match type of Hd with context [if ?b then _ else _] => destruct b end; lia. }
  assert (0 <= monthStart (mo - 1) (leapOfYear y) <= 335) as Hms.
  { unfold monthStart. destruct (leapOfYear_cases y) as [[-> _]|[-> _]];
      repeat match goal with |- context [if ?b then _ else _] => destruct b end; lia. }
  time_arith.
Qed.

(** X14: a date token [YYYYMMDD] whose fields are in calendar range,
    from year 100 on, is decoded by [parseIcsDate] to the instant at
    which that day begins in the script's time zone: its local year,
    month and day are the fields of the token, and its local time of day
    is midnight.  What follows the eight digits is not read. *)
Theorem parseIcsDate_local_midnight y mo d rest :
  inCalendarRange y mo d 0 0 0 ->
  100 <= y ->
  Z.abs tza <= msPerDay ->
  exists t,
    parseIcsDate (dateToken y mo d ++ rest) = DateAt t
    /\ getFullYear tza (DateAt t) = Some y
    /\ getMonth tza (DateAt t) = Some (mo - 1)
    /\ getDate tza (DateAt t) = Some d
    /\ TimeWithinDay (LocalTime tza t) = 0.
Proof.
  clear Date_parse calendar_getEvents toLowerCase.
  intros Hrange Hy100 Htza.
  pose proof (TimeClip_calendar y mo d 0 0 0 Hrange Htza) as Hclip.
  destruct Hrange as (Hy & Hmo & Hd & Hh & Hmi & Hs).
  pose proof (daysInMonth_le_31 y mo) as Hd31.
  exists (UTC tza (MakeDate (MakeDay y (mo - 1) d) (MakeTime 0 0 0 0))).
  pose proof (fields_of_MakeDate y mo d 0 0 0 Hmo Hd Hh Hmi Hs) as
    (HY & HM & HD & _).
  assert (LocalTime tza (UTC tza (MakeDate (MakeDay y (mo - 1) d) (MakeTime 0 0 0 0)))
          = MakeDate (MakeDay y (mo - 1) d) (MakeTime 0 0 0 0)) as Hlocal
    by (unfold LocalTime, UTC; lia).
  split.
  - unfold parseIcsDate, dateToken.
    change (substring ((digits4 y ++ digits2 mo ++ digits2 d) ++ rest) 0 4)
      with (digits4 y).
    change (substring ((digits4 y ++ digits2 mo ++ digits2 d) ++ rest) 4 6)
      with (digits2 mo).
    change (substring ((digits4 y ++ digits2 mo ++ digits2 d) ++ rest) 6 8)
      with (digits2 d).
    rewrite parseInt_digits4 by lia. rewrite !parseInt_digits2 by lia.
    cbn [Number_add Date_ofFields]. replace (mo + -1) with (mo - 1) by lia.
    unfold fullYear. replace ((0 <=? y) && (y <=? 99)) with false by lia.
    apply TimeClip_in_range. exact Hclip.
  - cbn [getFullYear getMonth getDate]. rewrite Hlocal, HY, HM, HD.
    repeat split. generalize (MakeDay y (mo - 1) d). intros D. time_arith.
Qed.

Lemma localToken_split y mo d h mi s :
  split 84 (localToken y mo d h mi s)
  = [digits4 y ++ digits2 mo ++ digits2 d; digits2 h ++ digits2 mi ++ digits2 s].
Proof.
  unfold localToken.
  replace (digits4 y ++ digits2 mo ++ digits2 d ++ lit "T"
           ++ digits2 h ++ digits2 mi ++ digits2 s)
    with ((digits4 y ++ digits2 mo ++ digits2 d)
          ++ 84%N :: (digits2 h ++ digits2 mi ++ digits2 s))
    by (rewrite <- !app_assoc; reflexivity).
  rewrite split_app_sep.
  - rewrite split_no_sep; [reflexivity|].
    rewrite !elem_of_app. intros [H|[H|H]]; exact (digits2_no_T _ H).
  - rewrite !elem_of_app. intros [H|[H|H]].
    + exact (digits4_no_T _ H).
    + exact (digits2_no_T _ H).
    + exact (digits2_no_T _ H).
Qed.

Lemma endsWith_last c (l : jsstring) x : endsWith [c] (l ++ [x]) = (c =? x)%N.
Proof.
  unfold endsWith. rewrite rev_app_distr. cbn. apply andb_true_r.
Qed.

Lemma localToken_no_Z y mo d h mi s :
  endsWith (lit "Z") (localToken y mo d h mi s) = false.
Proof.
  unfold localToken.
  replace (digits4 y ++ digits2 mo ++ digits2 d ++ lit "T"
           ++ digits2 h ++ digits2 mi ++ digits2 s)
    with ((digits4 y ++ digits2 mo ++ digits2 d ++ lit "T"
           ++ digits2 h ++ digits2 mi ++ [digitChar (s / 10 mod 10)])
          ++ [digitChar (s mod 10)])
    by (rewrite <- !app_assoc; reflexivity).
  change (lit "Z") with [90%N]. rewrite endsWith_last.
  pose proof (Z.mod_pos_bound s 10 ltac:(lia)).
  apply N.eqb_neq. unfold digitChar. lia.
Qed.

(** X15: a date-time token [YYYYMMDDTHHMMSS] without [Z] whose fields are
    in calendar range, from year 100 on, is decoded by
    [parseIcsDateTime] to the instant whose local year, month, day,
    hour, minute and second in the script's time zone are the fields of
    the token. *)
Theorem parseIcsDateTime_local_fields y mo d h mi s :
  inCalendarRange y mo d h mi s ->
  100 <= y ->
  Z.abs tza <= msPerDay ->
  exists t,
    parseIcsDateTime (localToken y mo d h mi s) = Normal (DateAt t)
    /\ getFullYear tza (DateAt t) = Some y
    /\ getMonth tza (DateAt t) = Some (mo - 1)
    /\ getDate tza (DateAt t) = Some d
    /\ HourFromTime (LocalTime tza t) = h
    /\ MinFromTime (LocalTime tza t) = mi
    /\ SecFromTime (LocalTime tza t) = s.
Proof.
  intros Hrange Hy100 Htza.
  pose proof (TimeClip_calendar y mo d h mi s Hrange Htza) as Hclip.
  destruct Hrange as (Hy & Hmo & Hd & Hh & Hmi & Hs).
  pose proof (daysInMonth_le_31 y mo) as Hd31.
  exists (UTC tza (MakeDate (MakeDay y (mo - 1) d) (MakeTime h mi s 0))).
  pose proof (fields_of_MakeDate y mo d h mi s Hmo Hd Hh Hmi Hs) as
    (HY & HM & HD & HH & HMi & HS).
  assert (LocalTime tza (UTC tza (MakeDate (MakeDay y (mo - 1) d) (MakeTime h mi s 0)))
          = MakeDate (MakeDay y (mo - 1) d) (MakeTime h mi s 0)) as Hlocal
    by (unfold LocalTime, UTC; lia).
  split.
  - unfold parseIcsDateTime. rewrite localToken_split, localToken_no_Z.
    cbn [lookup list_lookup].
    change (substring (digits4 y ++ digits2 mo ++ digits2 d) 0 4) with (digits4 y).
    change (substring (digits4 y ++ digits2 mo ++ digits2 d) 4 6) with (digits2 mo).
    change (substring (digits4 y ++ digits2 mo ++ digits2 d) 6 8) with (digits2 d).
    change (substring (digits2 h ++ digits2 mi ++ digits2 s) 0 2) with (digits2 h).
    change (substring (digits2 h ++ digits2 mi ++ digits2 s) 2 4) with (digits2 mi).
    change (substring (digits2 h ++ digits2 mi ++ digits2 s) 4 6) with (digits2 s).
    rewrite parseInt_digits4 by lia. rewrite !parseInt_digits2 by lia.
    cbn [Number_add Date_ofFields]. replace (mo + -1) with (mo - 1) by lia.
    unfold fullYear. replace ((0 <=? y) && (y <=? 99)) with false by lia.
    f_equal. apply TimeClip_in_range. exact Hclip.
  - cbn [getFullYear getMonth getDate]. rewrite Hlocal, HY, HM, HD, HH, HMi, HS.
    repeat split.
Qed.

(** X16: a date-time token [YYYYMMDDTHHMMSSZ] whose fields are in
    calendar range, from year 100 on, is decoded by [parseIcsDateTime]
    to the instant whose UTC year, month, day, hour, minute and second
    are the fields of the token, whatever the script's time zone. *)
Theorem parseIcsDateTime_utc_from_year_100 y mo d h mi s :
  inCalendarRange y mo d h mi s ->
  100 <= y ->
  exists t,
    parseIcsDateTime (utcToken y mo d h mi s) = Normal (DateAt t)
    /\ getUTCFullYear (DateAt t) = Some y
    /\ getUTCMonth (DateAt t) = Some (mo - 1)
    /\ getUTCDate (DateAt t) = Some d
    /\ getUTCHours (DateAt t) = Some h
    /\ getUTCMinutes (DateAt t) = Some mi
    /\ getUTCSeconds (DateAt t) = Some s.
Proof. apply parseIcsDateTime_utc_fields. Qed.

(** ** The call to the calendar *)

(** X17: [createCalendarEvent] passes the title and the start of the
    event as they are, and the empty string for a missing description
    or location.  An end that is present is passed as it is; without
    one, the end is the start plus 24 hours for an all-day event and
    plus one hour otherwise, an invalid date when the start is invalid,
    and the call throws a [TypeError] before reaching the calendar when
    the start is not a [Date]. *)
Theorem createCall_end_default e :
  (forall c,
      createCall e = Normal c ->
      call_allDay c = truthy (isAllDay e)
      /\ call_title c = title e
      /\ call_start c = start e
      /\ call_description c = orElse (description e) (VString [])
      /\ call_location c = orElse (location e) (VString []))
  /\ (truthy (end_ e) = true ->
      exists c, createCall e = Normal c /\ call_end c = end_ e)
  /\ (truthy (end_ e) = false ->
      forall t,
        start e = VDate (DateAt t) ->
        Z.abs t + msPerDay <= maxTime ->
        exists c,
          createCall e = Normal c
          /\ call_end c
             = VDate (DateAt (t + if truthy (isAllDay e) then msPerDay else msPerHour)))
  /\ (truthy (end_ e) = false ->
      start e = VDate InvalidDate ->
      exists c, createCall e = Normal c /\ call_end c = VDate InvalidDate)
  /\ (truthy (end_ e) = false ->
      (forall d, start e <> VDate d) ->
      createCall e = Throw TypeError).
Proof.
  unfold createCall, endOrDefault. repeat split.
  - destruct (truthy (isAllDay e)), (truthy (end_ e)); cbn in H;
      try (destruct (asDate (start e)); cbn in H; [|discriminate]);
      inversion H; reflexivity.
  - destruct (truthy (isAllDay e)), (truthy (end_ e)); cbn in H;
      try (destruct (asDate (start e)); cbn in H; [|discriminate]);
      inversion H; reflexivity.
  - destruct (truthy (isAllDay e)), (truthy (end_ e)); cbn in H;
      try (destruct (asDate (start e)); cbn in H; [|discriminate]);
      inversion H; reflexivity.
  - destruct (truthy (isAllDay e)), (truthy (end_ e)); cbn in H;
      try (destruct (asDate (start e)); cbn in H; [|discriminate]);
      inversion H; reflexivity.
  - destruct (truthy (isAllDay e)), (truthy (end_ e)); cbn in H;
      try (destruct (asDate (start e)); cbn in H; [|discriminate]);
      inversion H; reflexivity.
  - intros ->. destruct (truthy (isAllDay e)); eexists; split; reflexivity.
  - intros -> t -> Ht.
    assert (TimeClip (t + msPerDay) = DateAt (t + msPerDay)) as Hday
      by (apply TimeClip_in_range; unfold msPerDay, maxTime in *; lia).
    assert (TimeClip (t + msPerHour) = DateAt (t + msPerHour)) as Hhour
      by (apply TimeClip_in_range; unfold msPerDay, msPerHour, maxTime in *; lia).
    destruct (truthy (isAllDay e)); cbn [asDate mbind Completion_bind getTime
      Number_add Date_ofNumber];
      [change (24 * 60 * 60 * 1000) with msPerDay; rewrite Hday
      |change (60 * 60 * 1000) with msPerHour; rewrite Hhour];
      eexists; split; reflexivity.
  - intros -> ->. destruct (truthy (isAllDay e)); eexists; split; reflexivity.
  - intros -> Hs.
    assert (asDate (start e) = Throw TypeError) as ->.
    { destruct (start e) as [| | | |d]; try reflexivity. now destruct (Hs d). }
    destruct (truthy (isAllDay e)); reflexivity.
Qed.

(** ** The window and the query *)

Lemma rangeStep_invalid evs :
  fold_left rangeStep evs (InvalidDate, InvalidDate) = (InvalidDate, InvalidDate).
Proof.
  induction evs as [|e evs IH]; [reflexivity|]. cbn [fold_left].
  unfold rangeStep at 2. unfold Date_gt. cbn [Date_lt].
  destruct (newDate (start e)); exact IH.
Qed.

(** X18: when [new Date] of the first event's start is an invalid date,
    both ends of the window are invalid dates, whatever the starts of
    the other events; and [getExistingCalendarEvents] queries the
    calendar with these two invalid dates. *)
Theorem invalid_first_start_invalidates_window first rest :
  newDate (start first) = InvalidDate ->
  getEventDateRange (first :: rest) = mkDateRange (Some InvalidDate) (Some InvalidDate)
  /\ fst (getExistingCalendarEvents (first :: rest))
     = [GetCalendarById CALENDAR_ID; GetEvents InvalidDate InvalidDate].
Proof.
  intros Hfirst.
  assert (getEventDateRange (first :: rest)
          = mkDateRange (Some InvalidDate) (Some InvalidDate)) as Hrange.
  { unfold getEventDateRange. rewrite Hfirst, rangeStep_invalid. reflexivity. }
  split; [exact Hrange|].
  unfold getExistingCalendarEvents. rewrite Hrange. reflexivity.
Qed.

Lemma rangeStep_fold_valid evs :
  forall a b,
    fold_left rangeStep evs (DateAt a, DateAt b)
    = (DateAt (fold_left Z.min (validTimes evs) a),
       DateAt (fold_left Z.max (validTimes evs) b)).
Proof.
  induction evs as [|e evs IH]; intros a b; [reflexivity|].
  cbn [fold_left]. unfold rangeStep at 2, validTimes. cbn [omap list_omap].
  fold (validTimes evs). unfold Date_gt.
  destruct (newDate (start e)) as [t|]; cbn [Date_lt fold_left].
  - replace (if t <? a then DateAt t else DateAt a) with (DateAt (Z.min a t))
      by (destruct (Z.ltb_spec t a); f_equal; lia).
    replace (if b <? t then DateAt t else DateAt b) with (DateAt (Z.max b t))
      by (destruct (Z.ltb_spec b t); f_equal; lia).
    apply IH.
  - apply IH.
Qed.

(** X19: when [new Date] of the first event's start is a valid date,
    the window is computed from the events whose start gives a valid
    date, and the others are passed over: it runs from the start of the
    local day before the earliest of these starts to the end of the
    local day after the latest. *)
Theorem window_skips_invalid_starts first rest t0 :
  newDate (start first) = DateAt t0 ->
  Forall windowSafe (validTimes (first :: rest)) ->
  exists tmin tmax,
    tmin ∈ validTimes (first :: rest) /\ tmax ∈ validTimes (first :: rest)
    /\ Forall (fun t => tmin <= t <= tmax) (validTimes (first :: rest))
    /\ getEventDateRange (first :: rest)
       = mkDateRange (Some (DateAt (startOfLocalDay (tmin - msPerDay))))
                     (Some (DateAt (endOfLocalDay (tmax + msPerDay)))).
Proof.
  intros Hfirst Hsafe.
  set (ts := validTimes (first :: rest)) in *.
  assert (t0 ∈ ts) as Ht0.
  { unfold ts, validTimes. cbn [omap list_omap]. rewrite Hfirst. left. }
  destruct (fold_min_spec ts t0) as (Hmin_in & _ & Hmin_all).
  destruct (fold_max_spec ts t0) as (Hmax_in & _ & Hmax_all).
  assert (fold_left Z.min ts t0 ∈ ts) as Hmin
    by (destruct Hmin_in as [->|Hin]; assumption).
  assert (fold_left Z.max ts t0 ∈ ts) as Hmax
    by (destruct Hmax_in as [->|Hin]; assumption).
  exists (fold_left Z.min ts t0), (fold_left Z.max ts t0).
  split; [exact Hmin|]. split; [exact Hmax|]. split.
  - apply Forall_forall. intros t Ht.
    rewrite Forall_forall in Hmin_all, Hmax_all. split; auto.
  - rewrite Forall_forall in Hsafe.
    unfold getEventDateRange. rewrite Hfirst, rangeStep_fold_valid. fold ts.
    now rewrite (window_start _ (Hsafe _ Hmin)), (window_end _ (Hsafe _ Hmax)).
Qed.

Lemma fold_keys_elem_of (cal : list CalendarEvent) :
  forall (keys : gset jsstring) k,
    k ∈ fold_left (fun keys event => {[calendarEventKey event]} ∪ keys) cal keys
    <-> k ∈ keys \/ exists ev, ev ∈ cal /\ calendarEventKey ev = k.
Proof.
  induction cal as [|ev cal IH]; intros keys k; cbn [fold_left].
  - split; [auto|]. intros [H|(ev & Hev & _)]; [exact H|inversion Hev].
  - rewrite IH, elem_of_union, elem_of_singleton. split.
    + intros [[->|H]|(ev' & Hev' & Hk)]; [right|left|right].
      * exists ev. split; [left|reflexivity].
      * exact H.
      * exists ev'. split; [now right|exact Hk].
    + intros [H|(ev' & Hev' & Hk)]; [left; right; exact H|].
      apply elem_of_cons in Hev' as [->|Hev']; [left; left; now symmetry|].
      right. exists ev'. auto.
Qed.

(** X20: for a non-empty sequence of events [getExistingCalendarEvents]
    looks up the calendar and queries it once, with the window of
    [getEventDateRange].  An exception of the query is its exception;
    otherwise it returns the set of the keys of the events that the
    calendar returned: the day of the all-day start date of an all-day
    event, the day of the start time of another, and the title
    lower-cased and trimmed. *)
Theorem getExistingCalendarEvents_query evs :
  evs <> [] ->
  exists from to,
    getEventDateRange evs = mkDateRange (Some from) (Some to)
    /\ fst (getExistingCalendarEvents evs)
       = [GetCalendarById CALENDAR_ID; GetEvents from to]
    /\ (forall error,
          calendar_getEvents from to = Throw error ->
          snd (getExistingCalendarEvents evs) = Throw error)
    /\ (forall cal,
          calendar_getEvents from to = Normal cal ->
          exists keys,
            snd (getExistingCalendarEvents evs) = Normal keys
            /\ forall k,
                 k ∈ keys
                 <-> exists ev,
                       ev ∈ cal
                       /\ k = formatDateKey (calendarEventDate ev) ++ lit "|"
                                ++ trim (toLowerCase (getTitle ev))).
Proof.
  intros Hne. destruct evs as [|first rest]; [contradiction|].
  assert (exists from to,
             getEventDateRange (first :: rest) = mkDateRange (Some from) (Some to))
    as (from & to & Hrange).
  { unfold getEventDateRange.
    destruct (fold_left rangeStep (first :: rest) _) as [mn mx]. eauto. }
  exists from, to. split; [exact Hrange|].
  unfold getExistingCalendarEvents. rewrite Hrange. cbn [range_start range_end fst snd].
  split; [reflexivity|]. split.
  - intros err ->. reflexivity.
  - intros cal ->. cbn [mbind Completion_bind]. eexists. split; [reflexivity|].
    intros k. rewrite fold_keys_elem_of, elem_of_empty. split.
    + intros [[]|(ev & Hev & <-)]. exists ev. split; [exact Hev|reflexivity].
    + intros (ev & Hev & ->). right. exists ev. split; [exact Hev|reflexivity].
Qed.

(** ** More on keys *)

Lemma firstsFrom_covers X :
  forall earlier e,
    e ∈ X ->
    recordKey e ∈ earlier
    \/ exists e', e' ∈ firstsFrom earlier X /\ recordKey e' = recordKey e.
Proof.
  induction X as [|e0 X IH]; intros earlier e He; [inversion He|].
  cbn [firstsFrom]. apply elem_of_cons in He as [->|He].
  - destruct (decide (recordKey e0 ∈ earlier)) as [Hin|Hnot]; [left; exact Hin|].
    rewrite (bool_decide_eq_false_2 _ Hnot). right. exists e0. split; [left|reflexivity].
  - destruct (IH (earlier ++ [recordKey e0]) e He) as [Hin|(e' & He' & Hk)].
    + apply elem_of_app in Hin as [Hin|Hin]; [left; exact Hin|].
      apply list_elem_of_singleton in Hin.
      destruct (decide (recordKey e0 ∈ earlier)) as [Hin0|Hnot];
        [left; now rewrite Hin|].
      rewrite (bool_decide_eq_false_2 _ Hnot). right. exists e0.
      split; [left|now symmetry].
    + right. exists e'. split; [|exact Hk].
      destruct (bool_decide (recordKey e0 ∈ earlier)); [exact He'|now right].
Qed.

(** X21: on a sequence of records, the keys of the records that
    [removeDuplicateEvents] returns are pairwise distinct and are the
    keys of its argument, so that it returns as many records as its
    argument has distinct keys; a sequence whose keys are pairwise
    distinct is returned as it is. *)
Theorem removeDuplicateEvents_keys X :
  Forall isRecord X ->
  exists Y,
    removeDuplicateEvents X = Normal Y
    /\ NoDup (recordKey <$> Y)
    /\ (forall k, k ∈ recordKey <$> Y <-> k ∈ recordKey <$> X)
    /\ length Y = size (list_to_set (recordKey <$> X) : gset jsstring)
    /\ (NoDup (recordKey <$> X) -> Y = X).
Proof.
  intros HX. exists (firstsFrom [] X).
  destruct (firstsFrom_keys X []) as [Hnd _].
  assert (forall k, k ∈ recordKey <$> firstsFrom [] X <-> k ∈ recordKey <$> X) as Hkeys.
  { intros k. rewrite !list_elem_of_fmap. split.
    - intros (e & -> & He). exists e. split; [reflexivity|].
      eapply elem_of_sublist; [exact He|apply firstsFrom_sublist].
    - intros (e & -> & He).
      destruct (firstsFrom_covers X [] e He) as [Hin|(e' & He' & Hk)];
        [inversion Hin|].
      exists e'. split; [now symmetry|exact He']. }
  split.
  { unfold removeDuplicateEvents.
    rewrite (removeDuplicateLoop_firstsFrom X HX [] ∅ []); [reflexivity|].
    intros k. rewrite elem_of_empty, elem_of_nil. reflexivity. }
  split; [exact Hnd|]. split; [exact Hkeys|]. split.
  - replace (list_to_set (recordKey <$> X) : gset jsstring)
      with (list_to_set (recordKey <$> firstsFrom [] X) : gset jsstring).
    + rewrite size_list_to_set by exact Hnd. now rewrite length_fmap.
    + apply set_eq. intros k. rewrite !elem_of_list_to_set. apply Hkeys.
  - intros HndX. apply firstsFrom_fixed; [exact HndX|]. intros e _ Hin. inversion Hin.
Qed.

Lemma filter_firstsFrom_agree (K : gset jsstring) X :
  forall E E',
    (forall k, k ∉ K -> (k ∈ E <-> k ∈ E')) ->
    filter (fun e => recordKey e ∉ K) (firstsFrom E X)
    = filter (fun e => recordKey e ∉ K) (firstsFrom E' X).
Proof.
  induction X as [|e X IH]; intros E E' Hagree; [reflexivity|].
  cbn [firstsFrom].
  assert (forall k, k ∉ K ->
            (k ∈ E ++ [recordKey e] <-> k ∈ E' ++ [recordKey e])) as Hnext.
  { intros k Hk. rewrite !elem_of_app. now rewrite (Hagree k Hk). }
  specialize (IH _ _ Hnext).
  destruct (decide (recordKey e ∈ K)) as [HinK|HnotK].
  - destruct (bool_decide (recordKey e ∈ E)), (bool_decide (recordKey e ∈ E'));
      rewrite ?filter_cons_False by (intros Hn; apply Hn; exact HinK); exact IH.
  - pose proof (Hagree _ HnotK) as Hsame.
    destruct (decide (recordKey e ∈ E)) as [HinE|HnotE].
    + rewrite (bool_decide_eq_true_2 _ HinE).
      rewrite (bool_decide_eq_true_2 (recordKey e ∈ E')) by now apply Hsame.
      exact IH.
    + rewrite (bool_decide_eq_false_2 _ HnotE).
      rewrite (bool_decide_eq_false_2 (recordKey e ∈ E'))
        by (intros Hin; apply HnotE; now apply Hsame).
      rewrite !filter_cons_True by exact HnotK. now rewrite IH.
Qed.

Lemma filter_firstsFrom_commute (K : gset jsstring) X :
  forall E,
    filter (fun e => recordKey e ∉ K) (firstsFrom E X)
    = firstsFrom E (filter (fun e => recordKey e ∉ K) X).
Proof.
  induction X as [|e X IH]; intros E; [reflexivity|].
  destruct (decide (recordKey e ∈ K)) as [HinK|HnotK].
  - rewrite (filter_cons_False _ e X) by (intros Hn; apply Hn; exact HinK).
    rewrite <- IH. cbn [firstsFrom].
    assert (filter (fun e0 => recordKey e0 ∉ K) (firstsFrom (E ++ [recordKey e]) X)
            = filter (fun e0 => recordKey e0 ∉ K) (firstsFrom E X)) as Hdrop.
    { apply filter_firstsFrom_agree. intros k Hk.
      rewrite elem_of_app, list_elem_of_singleton. split; [|auto].
      intros [H| ->]; [exact H|contradiction]. }
    destruct (bool_decide (recordKey e ∈ E));
      rewrite ?filter_cons_False by (intros Hn; apply Hn; exact HinK); exact Hdrop.
  - rewrite (filter_cons_True _ e X) by exact HnotK. cbn [firstsFrom].
    destruct (bool_decide (recordKey e ∈ E)); [apply IH|].
    rewrite filter_cons_True by exact HnotK. now rewrite IH.
Qed.

(** X22: on records, filtering against the keys of the calendar after
    de-duplication gives what de-duplication gives after the filtering. *)
Theorem filter_and_deduplicate_commute (X : list Event) (existingKeys : gset jsstring) :
  Forall isRecord X ->
  exists unique kept,
    removeDuplicateEvents X = Normal unique
    /\ filterEventsToCreate X existingKeys = Normal kept
    /\ filterEventsToCreate unique existingKeys = removeDuplicateEvents kept.
Proof.
  intros HX.
  assert (forall Y, Forall isRecord Y -> removeDuplicateEvents Y = Normal (firstsFrom [] Y))
    as Hrun.
  { intros Y HY. unfold removeDuplicateEvents.
    rewrite (removeDuplicateLoop_firstsFrom Y HY [] ∅ []); [reflexivity|].
    intros k. rewrite elem_of_empty, elem_of_nil. reflexivity. }
  exists (firstsFrom [] X), (filter (fun e => recordKey e ∉ existingKeys) X).
  split; [exact (Hrun X HX)|]. split; [apply filterEventsToCreate_filter, HX|].
  rewrite filterEventsToCreate_filter by (apply firstsFrom_records, HX).
  rewrite Hrun.
  - now rewrite filter_firstsFrom_commute.
  - rewrite Forall_forall in HX. apply Forall_forall. intros e He.
    apply list_elem_of_filter in He as [_ He]. exact (HX e He).
Qed.

Lemma lit_inj s1 s2 : lit s1 = lit s2 -> s1 = s2.
Proof.
  revert s2. induction s1 as [|a s1 IH]; intros [|b s2] H; cbn in H;
    try discriminate; [reflexivity|].
  inversion H as [[Hab Hs]]. f_equal; [|exact (IH _ Hs)].
  rewrite <- (ascii_N_embedding a), <- (ascii_N_embedding b). now rewrite Hab.
Qed.

Lemma pretty_N_go_no_bar x :
  forall s, 124%N ∉ lit s -> 124%N ∉ lit (pretty_N_go x s).
Proof.
  induction (N.lt_wf_0 x) as [x _ IH]; intros s Hs.
  destruct (N.eq_dec x 0%N) as [->|Hx]; [now rewrite pretty_N_go_0|].
  rewrite pretty_N_go_step by lia. apply IH; [apply N.div_lt; lia|].
  cbn [lit]. intros Hin. apply elem_of_cons in Hin as [Hc|Hin]; [|exact (Hs Hin)].
  unfold pretty_N_char in Hc. repeat case_match; discriminate Hc.
Qed.

Lemma pretty_Z_no_bar (z : Z) : 124%N ∉ lit (pretty z).
Proof.
  assert (forall x : N, 124%N ∉ lit (pretty x)) as HN.
  { intros x. unfold pretty, pretty_N. case_decide.
    - cbn. intros Hin. apply list_elem_of_singleton in Hin. discriminate.
    - apply pretty_N_go_no_bar. cbn. apply not_elem_of_nil. }
  unfold pretty, pretty_Z. destruct z as [|x|x].
  - cbn. intros Hin. apply list_elem_of_singleton in Hin. discriminate.
  - apply (HN (N.pos x)).
  - cbn [append lit]. intros Hin. apply elem_of_cons in Hin as [Hc|Hin];
      [discriminate Hc|exact (HN (N.pos x) Hin)].
Qed.

Lemma digitChar_mod10_range n : (48 <= digitChar (n mod 10) <= 57)%N.
Proof.
  pose proof (Z.mod_pos_bound n 10 ltac:(lia)). unfold digitChar. lia.
Qed.

Lemma split_at_bar (a b x y : jsstring) :
  124%N ∉ a -> 124%N ∉ b -> a ++ 124%N :: x = b ++ 124%N :: y -> a = b /\ x = y.
Proof.
  revert b. induction a as [|c a IH]; intros [|c' b] Ha Hb H; cbn in H.
  - inversion H. auto.
  - inversion H; subst. exfalso. apply Hb. left.
  - inversion H; subst. exfalso. apply Ha. left.
  - inversion H; subst.
    destruct (IH b) as [-> ->]; auto.
    + intros Hin. apply Ha. now right.
    + intros Hin. apply Hb. now right.
Qed.

Lemma digits2_inj n m :
  0 <= n <= 99 -> 0 <= m <= 99 -> digits2 n = digits2 m -> n = m.
Proof.
  intros Hn Hm H. unfold digits2, digitChar in H. inversion H as [[H1 H2]].
  pose proof (Z.mod_pos_bound n 10 ltac:(lia)).
  pose proof (Z.mod_pos_bound m 10 ltac:(lia)).
  pose proof (Z.mod_pos_bound (n / 10) 10 ltac:(lia)).
  pose proof (Z.mod_pos_bound (m / 10) 10 ltac:(lia)).
  assert (n / 10 mod 10 = m / 10 mod 10) as Ht by lia.
  assert (n mod 10 = m mod 10) as Hu by lia.
  clear H H1 H2. Z.div_mod_to_equations. lia.
Qed.

Lemma Day_of_fields t :
  Day t = DayFromYear (YearFromTime t)
          + monthStart (MonthFromTime t) (leapOfYear (YearFromTime t))
          + DateFromTime t - 1.
Proof.
  unfold DateFromTime, DayWithinYear, InLeapYear. lia.
Qed.

Lemma formatDateKey_no_bar t : 124%N ∉ formatDateKey (DateAt t).
Proof.
  rewrite formatDateKey_valid. cbn [Number_toString].
  rewrite !elem_of_app. unfold digits2. cbn [lit].
  intros [H|[H|[H|[H|H]]]].
  - exact (pretty_Z_no_bar _ H).
  - apply list_elem_of_singleton in H. discriminate.
  - repeat (apply elem_of_cons in H as [H|H];
            [pose proof (digitChar_mod10_range (MonthFromTime (LocalTime tza t) + 1));
             pose proof (digitChar_mod10_range
                           ((MonthFromTime (LocalTime tza t) + 1) / 10)); lia|]).
    inversion H.
  - apply list_elem_of_singleton in H. discriminate.
  - repeat (apply elem_of_cons in H as [H|H];
            [pose proof (digitChar_mod10_range (DateFromTime (LocalTime tza t)));
             pose proof (digitChar_mod10_range
                           (DateFromTime (LocalTime tza t) / 10)); lia|]).
    inversion H.
Qed.

Lemma formatDateKey_inj t1 t2 :
  formatDateKey (DateAt t1) = formatDateKey (DateAt t2) ->
  Day (LocalTime tza t1) = Day (LocalTime tza t2).
Proof.
  rewrite !formatDateKey_valid. cbn [Number_toString]. intros H.
  apply app_inj_2 in H as [HY H]; [|reflexivity].
  apply lit_inj in HY. apply (inj pretty) in HY.
  cbn [lit app] in H. unfold digits2 in H. cbn [app] in H.
  inversion H as [[HM1 HM0 HD1 HD0]].
  pose proof (MonthFromTime_range (LocalTime tza t1)).
  pose proof (MonthFromTime_range (LocalTime tza t2)).
  pose proof (DateFromTime_range (LocalTime tza t1)).
  pose proof (DateFromTime_range (LocalTime tza t2)).
  assert (MonthFromTime (LocalTime tza t1) + 1 = MonthFromTime (LocalTime tza t2) + 1)
    as HM'.
  { apply digits2_inj; [lia|lia|]. unfold digits2. congruence. }
  assert (DateFromTime (LocalTime tza t1) = DateFromTime (LocalTime tza t2)) as HD'.
  { apply digits2_inj; [lia|lia|]. unfold digits2. congruence. }
  rewrite (Day_of_fields (LocalTime tza t1)), (Day_of_fields (LocalTime tza t2)).
  rewrite HY, HD'. replace (MonthFromTime (LocalTime tza t1))
    with (MonthFromTime (LocalTime tza t2)) by lia. reflexivity.
Qed.

(** X23: two records whose starts are valid dates have the same key if
    and only if their starts fall on the same local calendar day and
    their titles, lower-cased and trimmed, are equal: records of
    different days or of different titles are never merged. *)
Theorem generateEventKey_equal_iff e1 e2 s1 s2 t1 t2 :
  title e1 = VString s1 -> title e2 = VString s2 ->
  start e1 = VDate (DateAt t1) -> start e2 = VDate (DateAt t2) ->
  generateEventKey e1 = generateEventKey e2
  <-> Day (LocalTime tza t1) = Day (LocalTime tza t2)
      /\ trim (toLowerCase s1) = trim (toLowerCase s2).
Proof.
  intros Ht1 Ht2 Hs1 Hs2. unfold generateEventKey. rewrite Ht1, Ht2, Hs1, Hs2.
  cbn [asDate asString mbind Completion_bind lit app]. split.
  - intros H. inversion H as [Hkey].
    apply split_at_bar in Hkey as [Hdate Htitle]; try apply formatDateKey_no_bar.
    split; [apply formatDateKey_inj, Hdate|exact Htitle].
  - intros [Hday ->]. now rewrite (formatDateKey_same_day t1 t2 Hday).
Qed.

(** X24: an event that the calendar returns for the window keeps every
    parsed record of the same local calendar day and of the same title,
    lower-cased and trimmed, out of the events to create. *)
Theorem event_in_calendar_is_not_created content evs from to cal :
  parseIcsContent content = Normal evs ->
  getEventDateRange (firstOccurrences evs) = mkDateRange (Some from) (Some to) ->
  calendar_getEvents from to = Normal cal ->
  exists fresh,
    eventsToCreate content = Normal fresh
    /\ forall e ev s t1 t2,
         e ∈ evs -> ev ∈ cal ->
         title e = VString s -> start e = VDate (DateAt t1) ->
         calendarEventDate ev = DateAt t2 ->
         Day (LocalTime tza t1) = Day (LocalTime tza t2) ->
         trim (toLowerCase s) = trim (toLowerCase (getTitle ev)) ->
         e ∉ fresh.
Proof.
  intros Hparse Hrange Hcal.
  pose proof (parseIcsContent_parsed content evs Hparse) as Hparsed.
  assert (Forall isRecord evs) as Hrec.
  { eapply Forall_impl; [exact Hparsed|]. exact parsedRecord_isRecord. }
  unfold eventsToCreate. rewrite Hparse. cbn [mbind Completion_bind].
  unfold removeDuplicateEvents.
  rewrite (removeDuplicateLoop_firstsFrom evs Hrec [] ∅ [])
    by (intros k; rewrite elem_of_empty, elem_of_nil; reflexivity).
  cbn [mbind Completion_bind app]. rewrite firstsFrom_firstOccurrences.
  unfold getExistingCalendarEvents. rewrite Hrange.
  cbn [range_start range_end snd]. rewrite Hcal. cbn [mbind Completion_bind].
  rewrite filterEventsToCreate_filter
    by (rewrite <- firstsFrom_firstOccurrences; apply firstsFrom_records, Hrec).
  eexists. split; [reflexivity|].
  intros e ev s t1 t2 He Hev Ht Hs Hdate Hday Htitle Hin.
  apply list_elem_of_filter in Hin as [Hkey _]. apply Hkey.
  apply fold_keys_elem_of. right. exists ev. split; [exact Hev|].
  unfold calendarEventKey, recordKey, generateEventKey.
  fold (calendarEventDate ev). rewrite Hdate, Ht, Hs.
  cbn [asDate asString mbind Completion_bind].
  now rewrite (formatDateKey_same_day t1 t2 Hday), Htitle.
Qed.

(** ** The batch size *)

(** X25: the batch size decides the pauses and nothing else.  With two
    positive batch sizes the creation pass returns on every sequence of
    events, with the same calendar, the same error sheet and the same
    counters; the pauses are one less than the number of batches, each
    of [SLEEP_INTERVAL]. *)
Theorem batch_size_only_changes_pauses (b1 b2 : nat) evs w :
  (0 < b1)%nat -> (0 < b2)%nat ->
  exists w1 w2 r,
    processEventsInBatches b1 evs w = Some (w1, r)
    /\ processEventsInBatches b2 evs w = Some (w2, r)
    /\ calendar w1 = calendar w2
    /\ errorSheet w1 = errorSheet w2
    /\ sleeps w1 = sleeps w ++ replicate (pauses b1 (length evs)) SLEEP_INTERVAL
    /\ sleeps w2 = sleeps w ++ replicate (pauses b2 (length evs)) SLEEP_INTERVAL.
Proof.
  intros H1 H2.
  rewrite (processEventsInBatches_sequential b1 evs w H1).
  rewrite (processEventsInBatches_sequential b2 evs w H2).
  eexists _, _, _. repeat split; reflexivity.
Qed.

Lemma slice_empty {A} (l : list A) i : slice l i (i + 0) = [].
Proof. unfold slice. rewrite Nat.add_0_r, Nat.sub_diag. reflexivity. Qed.

(** X26: with the batch size 0 the index never advances: while an event
    is left, no number of rounds brings the loop of
    [processEventsInBatches] to its end. *)
Theorem zero_batch_size_never_returns evs i :
  (i < length evs)%nat ->
  forall fuel w r, batchLoop 0 fuel i evs w r = None.
Proof.
  intros Hi. induction fuel as [|fuel IH]; intros w r; [reflexivity|].
  cbn [batchLoop]. replace (i <? length evs)%nat with true
    by (symmetry; apply Nat.ltb_lt; exact Hi).
  rewrite slice_empty. cbn [fold_left]. rewrite Nat.add_0_r. apply IH.
Qed.

(** ** The test run and the clearing of the sheet *)

Lemma slice_0 {A} (l : list A) n : slice l 0 n = take n l.
Proof.
  unfold slice. cbn [Nat.min]. rewrite Nat.sub_0_r, drop_0.
  destruct (Nat.le_ge_cases n (length l)) as [Hle|Hge].
  - now rewrite Nat.min_l.
  - rewrite Nat.min_r by exact Hge. now rewrite !take_ge.
Qed.

Lemma testEventsToCreate_parsed content fresh :
  testEventsToCreate content = Normal fresh ->
  Forall parsedRecord fresh
  /\ exists evs, parseIcsContent content = Normal evs /\ sublist fresh (take 5 evs).
Proof.
  unfold testEventsToCreate. intros H.
  destruct (parseIcsContent content) as [evs|] eqn:Hparse;
    cbn [mbind Completion_bind] in H; [|discriminate].
  pose proof (parseIcsContent_parsed content evs Hparse) as Hparsed.
  rewrite slice_0 in H.
  assert (Forall parsedRecord (take 5 evs)) as Hfive.
  { rewrite Forall_forall in Hparsed. apply Forall_forall. intros e He.
    apply Hparsed. eapply elem_of_sublist; [exact He|apply sublist_take]. }
  assert (Forall isRecord (take 5 evs)) as Hrec.
  { eapply Forall_impl; [exact Hfive|]. exact parsedRecord_isRecord. }
  unfold removeDuplicateEvents in H.
  rewrite (removeDuplicateLoop_firstsFrom (take 5 evs) Hrec [] ∅ []) in H
    by (intros k; rewrite elem_of_empty, elem_of_nil; reflexivity).
  cbn [mbind Completion_bind app] in H.
  destruct (snd (getExistingCalendarEvents (firstsFrom [] (take 5 evs))))
    as [keys|] eqn:Hkeys; cbn [mbind Completion_bind] in H; [|discriminate].
  rewrite filterEventsToCreate_filter in H by (apply firstsFrom_records, Hrec).
  inversion H; subst.
  assert (sublist (filter (fun e => recordKey e ∉ keys) (firstsFrom [] (take 5 evs)))
                  (take 5 evs)) as Hsub.
  { etransitivity; [apply sublist_filter|apply firstsFrom_sublist]. }
  split; [|exists evs; split; [reflexivity|exact Hsub]].
  rewrite Forall_forall in Hfive. apply Forall_forall. intros e He.
  apply Hfive. eapply elem_of_sublist; eassumption.
Qed.

(** X27: [testImport] returns on every content.  When its steps before
    the creation pass return, [CONFIG.BATCH_SIZE] has its value of
    before again; when one of them throws, the calendar, the sheet and
    the pauses are as before, and [CONFIG.BATCH_SIZE] is left at 3. *)
Theorem testImport_batch_size_afterwards BATCH_SIZE content w :
  exists w' b,
    testImport BATCH_SIZE content w = Some (w', b)
    /\ ((exists fresh, testEventsToCreate content = Normal fresh) -> b = BATCH_SIZE)
    /\ ((exists error, testEventsToCreate content = Throw error) -> b = 3%nat /\ w' = w).
Proof.
  unfold testImport. destruct (testEventsToCreate content) as [fresh|error].
  - destruct (0 <? length fresh)%nat.
    + rewrite (processEventsInBatches_sequential 3 fresh w) by lia.
      eexists _, _. split; [reflexivity|]. split; [reflexivity|].
      intros [error Herr]. discriminate Herr.
    + eexists _, _. split; [reflexivity|]. split; [reflexivity|].
      intros [error Herr]. discriminate Herr.
  - eexists _, _. split; [reflexivity|]. split; [|auto].
    intros [fresh Hfresh]. discriminate Hfresh.
Qed.

(** X28: a test run whose steps before the creation pass return works on
    the first five parsed records at most: it puts at most five creation
    calls to the calendar, in order, and pauses once if they are more
    than three.  It does not read the error sheet: without an event to
    create it leaves everything as it is; with one, the sheet that
    accepts every row holds afterwards its first row and the failures of
    this run, and the rows recorded before are gone without a retry. *)
Theorem testImport_first_five BATCH_SIZE content w fresh :
  testEventsToCreate content = Normal fresh ->
  (forall rows row, appendRow_fails rows row = false) ->
  exists evs w',
    parseIcsContent content = Normal evs
    /\ sublist fresh (take 5 evs)
    /\ (length fresh <= 5)%nat
    /\ testImport BATCH_SIZE content w = Some (w', BATCH_SIZE)
    /\ calendar w' = (creationFailures (calendar w) fresh).2
    /\ sleeps w' = sleeps w ++ (if (3 <? length fresh)%nat then [SLEEP_INTERVAL] else [])
    /\ (fresh = [] -> w' = w)
    /\ (fresh <> [] ->
        errorSheet w'
        = take 1 (getOrCreateErrorSheet (errorSheet w))
          ++ failureRows (creationFailures (calendar w) fresh).1).
Proof.
  intros Hfresh Hok.
  destruct (testEventsToCreate_parsed content fresh Hfresh) as (Hparsed & evs & Hparse & Hsub).
  assert (Forall hasDateStart fresh) as Hdates.
  { eapply Forall_impl; [exact Hparsed|]. intros e He.
    destruct (parsedRecord_retriable e He) as (_ & Hs & _). exact Hs. }
  assert (length fresh <= 5)%nat as Hlen.
  { apply sublist_length in Hsub. rewrite length_take in Hsub. lia. }
  exists evs. unfold testImport. rewrite Hfresh.
  destruct fresh as [|e fresh'].
  - cbn [length Nat.ltb Nat.leb]. exists w.
    repeat split; try assumption; try reflexivity.
    + now rewrite app_nil_r.
    + intros Hne. now contradiction Hne.
  - set (fresh := e :: fresh') in *.
    replace (0 <? length fresh)%nat with true by reflexivity.
    rewrite (processEventsInBatches_sequential 3 fresh w) by lia.
    rewrite (fold_processEvent_failures fresh Hdates).
    cbn [fst snd calendar errorSheet sleeps].
    rewrite (fold_recordError_accepts _ Hok).
    eexists. split; [exact Hparse|]. split; [exact Hsub|]. split; [exact Hlen|].
    split; [reflexivity|]. cbn [calendar errorSheet sleeps].
    split; [reflexivity|]. split; [|split; [discriminate|reflexivity]].
    f_equal. subst fresh. cbn [length pauses] in *.
    destruct (Nat.ltb_spec 3 (S (length fresh'))) as [Hlt|Hge].
    + assert (length fresh' = 3 \/ length fresh' = 4)%nat as [->| ->] by lia;
        reflexivity.
    + rewrite Nat.div_small by lia. reflexivity.
Qed.

Lemma clearErrorSheet_first_row rows :
  clearErrorSheet rows = take 1 (getOrCreateErrorSheet rows)
  /\ length (clearErrorSheet rows) = 1%nat.
Proof.
  unfold clearErrorSheet. cbn zeta. rewrite cleared_sheet. split; [reflexivity|].
  unfold getOrCreateErrorSheet. destruct rows as [|row rows]; reflexivity.
Qed.

(** X29: [clearErrorSheet] keeps the first row of the sheet and nothing
    else, and clearing twice is clearing once.  The run of
    [importIcsToCalendar] that follows has no event to retry: its
    creation pass works on the events to create alone. *)
Theorem import_after_clearErrorSheet BATCH_SIZE content fresh st rows pauses0 :
  eventsToCreate content = Normal fresh ->
  clearErrorSheet rows = take 1 (getOrCreateErrorSheet rows)
  /\ clearErrorSheet (clearErrorSheet rows) = clearErrorSheet rows
  /\ getErrorEvents (Normal (clearErrorSheet rows)) = []
  /\ importIcsToCalendar BATCH_SIZE content (mkWorld st (clearErrorSheet rows) pauses0)
     = Normal (processEventsInBatches BATCH_SIZE fresh
                 (mkWorld st (clearErrorSheet rows) pauses0)).
Proof.
  intros Hfresh. destruct (clearErrorSheet_first_row rows) as [Hclear Hlen].
  assert (getOrCreateErrorSheet (clearErrorSheet rows) = clearErrorSheet rows) as Hsame.
  { unfold getOrCreateErrorSheet at 1. now rewrite Hlen. }
  assert (getErrorEvents (Normal (clearErrorSheet rows)) = []) as Hnone.
  { unfold getErrorEvents. now rewrite Hlen. }
  split; [exact Hclear|]. split.
  { unfold clearErrorSheet at 1. cbn zeta. rewrite Hsame, Hlen. reflexivity. }
  split; [exact Hnone|].
  unfold importIcsToCalendar. rewrite Hfresh. cbn [mbind Completion_bind errorSheet].
  rewrite Hsame, Hnone, app_nil_r. reflexivity.
Qed.

End Importer.

(* ===================================================================== *)
(** * Part IV.  The properties on the examples                             *)
(* ===================================================================== *)

(** C1, as stated, fails on a block with an empty SUMMARY: the title,
    the empty string, and the start have been accumulated at
    [END:VEVENT], and no record is emitted. *)
Lemma empty_summary_block_dropped :
  exists acc,
    accumulate tokyo [lit "SUMMARY:"; lit "DTSTART;VALUE=DATE:20240105"] emptyEvent
    = Normal acc
    /\ title acc = VString []
    /\ start acc = VDate (DateAt 1704380400000)
    /\ logicalLines emptySummaryBlock
       = [lit "BEGIN:VEVENT"; lit "SUMMARY:"; lit "DTSTART;VALUE=DATE:20240105";
          lit "END:VEVENT"; []]
    /\ parseIcsContent tokyo emptySummaryBlock = Normal [].
Proof.
  eexists. split; [vm_compute; reflexivity|].
  repeat split; vm_compute; reflexivity.
Qed.

(** C1 on the block of scenario A: the record [standupAllDay] is emitted. *)
Lemma vevent_block_emits_iff_witness :
  exists emitted,
    runLines tokyo
      ([] ++ BEGIN_VEVENT
          :: [lit "SUMMARY:Standup"; lit "DTSTART;VALUE=DATE:20240105"]
          ++ END_VEVENT :: [])
      (mkParserState [] None false)
    = runLines tokyo [] (mkParserState ([] ++ emitted) None false)
    /\ (emitted = [standupAllDay] \/ emitted = [])
    /\ (emitted = [standupAllDay]
        <-> (exists s, title standupAllDay = VString s /\ s <> [])
            /\ (exists d, start standupAllDay = VDate d)).
Proof.
  apply (vevent_block_emits_iff tokyo []
           [lit "SUMMARY:Standup"; lit "DTSTART;VALUE=DATE:20240105"] []
           (mkParserState [] None false) standupAllDay).
  - reflexivity.
  - repeat constructor; intros H; vm_compute in H; discriminate H.
  - vm_compute. reflexivity.
Defined.

(** C2 on three events, the first two of which have the same key. *)
Lemma removeDuplicateEvents_first_occurrences_witness :
  removeDuplicateEvents tokyo asciiToLowerCase [standupMorning; standupEvening; review]
  = Normal (firstOccurrences tokyo asciiToLowerCase [standupMorning; standupEvening; review])
  /\ sublist (firstOccurrences tokyo asciiToLowerCase [standupMorning; standupEvening; review])
             [standupMorning; standupEvening; review]
  /\ removeDuplicateEvents tokyo asciiToLowerCase
       (firstOccurrences tokyo asciiToLowerCase [standupMorning; standupEvening; review])
     = Normal (firstOccurrences tokyo asciiToLowerCase [standupMorning; standupEvening; review]).
Proof.
  apply (removeDuplicateEvents_first_occurrences tokyo asciiToLowerCase).
  repeat (apply List.Forall_cons; [split; eexists; reflexivity|]).
  apply List.Forall_nil.
Defined.

(** C3 on scenario B: the key of the stand-up exists in the calendar. *)
Lemma filterEventsToCreate_by_key_witness :
  filterEventsToCreate tokyo asciiToLowerCase [standupMorning; review]
    {[lit "2024-01-05|standup"]}
  = Normal (filter (fun e => recordKey tokyo asciiToLowerCase e ∉
                               ({[lit "2024-01-05|standup"]} : gset jsstring))
                   [standupMorning; review]).
Proof.
  refine (proj1 (filterEventsToCreate_by_key tokyo asciiToLowerCase
                   [standupMorning; review] {[lit "2024-01-05|standup"]} _)).
  repeat (apply List.Forall_cons; [split; eexists; reflexivity|]).
  apply List.Forall_nil.
Defined.

(** C4 on two events, of 5 and 6 January 2024 in Tokyo. *)
Lemma date_window_inference_witness :
  exists tmin tmax,
    tmin ∈ [1704412800000; 1704531600000] /\ tmax ∈ [1704412800000; 1704531600000]
    /\ Forall (fun t => tmin <= t <= tmax) [1704412800000; 1704531600000]
    /\ getEventDateRange tokyo (parseLocalIso tokyo) [standupMorning; review]
       = mkDateRange (Some (DateAt (startOfLocalDay tokyo (tmin - msPerDay))))
                     (Some (DateAt (endOfLocalDay tokyo (tmax + msPerDay)))).
Proof.
  apply (proj1 (date_window_inference tokyo asciiToLowerCase (parseLocalIso tokyo)
                  emptyCalendar)).
  - repeat constructor.
  - discriminate.
  - repeat constructor; unfold windowSafe, tokyo, msPerDay, msPerHour, maxTime; lia.
Defined.

(** C5 on scenario A as content and the sheet of scenario C. *)
Lemma retry_merge_appends_error_events_witness :
  allEventsToProcess tokyo asciiToLowerCase (parseLocalIso tokyo) emptyCalendar
    standupTwice (Normal syncSheet)
  = Normal ([standupAllDay] ++ getErrorEvents (parseLocalIso tokyo) (Normal syncSheet)).
Proof.
  apply (retry_merge_appends_error_events tokyo asciiToLowerCase (parseLocalIso tokyo)
           emptyCalendar standupTwice (Normal syncSheet) [standupAllDay]).
  vm_compute. reflexivity.
Defined.

(** C7, on the summary "Team meeting" folded after the space: the
    unfolder trims the first physical line before it appends the
    continuation, so that the logical line is "SUMMARY:Teammeeting" and
    the title of the record is "Teammeeting". *)
Theorem unfolding_drops_space_before_fold :
  logicalLines foldedSummaryBlock
  = [lit "BEGIN:VEVENT"; lit "SUMMARY:Teammeeting"; lit "DTSTART;VALUE=DATE:20240105";
     lit "END:VEVENT"; []]
  /\ parseIcsContent tokyo foldedSummaryBlock
     = Normal [mkEvent (VString (lit "Teammeeting")) (VDate (DateAt 1704380400000))
                       VUndefined (VBool true) VUndefined VUndefined VUndefined].
Proof.
  split; vm_compute; reflexivity.
Qed.

(** C8, as stated, fails on a date-only end property: the value is
    decoded as a date, and the all-day flag of the record is not set. *)
Lemma dtend_date_leaves_all_day_unset :
  exists e',
    parseEventProperty tokyo (lit "DTEND;VALUE=DATE:20240106") emptyEvent = Normal e'
    /\ end_ e' = VDate (parseIcsDate tokyo (lit "20240106"))
    /\ isAllDay e' = VUndefined.
Proof.
  eexists. split; [vm_compute; reflexivity|]. split; vm_compute; reflexivity.
Qed.

(** C10 on a token with a ['T'] and no time fields. *)
Lemma parseIcsDateTime_throws_iff_no_T_witness :
  parseIcsDateTime tokyo (lit "2024T") = Normal InvalidDate.
Proof.
  apply (proj2 (proj2 (parseIcsDateTime_throws_iff_no_T tokyo (lit "2024T")))
           (lit "2024") [] []).
  - reflexivity.
  - right. left. reflexivity.
Defined.

(** ** The further properties on the examples *)

(** X1 on a run of five events in batches of two: three creations, two
    failures, two pauses. *)
Lemma creation_pass_counts_witness :
  exists w' r,
    processEventsInBatches (list CreateCall) recordingCalendar acceptsRows errorName 2
      retryRun (mkWorld (list CreateCall) [] syncSheet []) = Some (w', r)
    /\ calendar (list CreateCall) w'
       = (creationFailures (list CreateCall) recordingCalendar
            (calendar (list CreateCall) (mkWorld (list CreateCall) [] syncSheet []))
            retryRun).2
    /\ (created r + errors r = length retryRun)%nat
    /\ errors r
       = length (creationFailures (list CreateCall) recordingCalendar
                   (calendar (list CreateCall) (mkWorld (list CreateCall) [] syncSheet []))
                   retryRun).1
    /\ skipped r = 0%nat
    /\ sleeps (list CreateCall) w'
       = sleeps (list CreateCall) (mkWorld (list CreateCall) [] syncSheet [])
         ++ replicate (pauses 2 (length retryRun)) SLEEP_INTERVAL.
Proof.
  apply (creation_pass_counts (list CreateCall) recordingCalendar acceptsRows errorName 2
           retryRun (mkWorld (list CreateCall) [] syncSheet [])).
  - lia.
  - repeat constructor; eexists; reflexivity.
Defined.

(** X2 on the same run: the row of the event "Sync" is gone, and the
    sheet holds the header and the rows of the two failures. *)
Lemma creation_pass_ledger_witness :
  exists w' r,
    processEventsInBatches (list CreateCall) recordingCalendar acceptsRows errorName 2
      retryRun (mkWorld (list CreateCall) [] syncSheet []) = Some (w', r)
    /\ errorSheet (list CreateCall) w'
       = take 1 (getOrCreateErrorSheet
                   (errorSheet (list CreateCall) (mkWorld (list CreateCall) [] syncSheet [])))
         ++ failureRows errorName
              (creationFailures (list CreateCall) recordingCalendar
                 (calendar (list CreateCall) (mkWorld (list CreateCall) [] syncSheet []))
                 retryRun).1
    /\ length (take 1 (getOrCreateErrorSheet
                         (errorSheet (list CreateCall)
                            (mkWorld (list CreateCall) [] syncSheet [])))) = 1%nat.
Proof.
  apply (creation_pass_ledger (list CreateCall) recordingCalendar acceptsRows errorName 2
           retryRun (mkWorld (list CreateCall) [] syncSheet [])).
  - lia.
  - repeat constructor; eexists; reflexivity.
  - reflexivity.
Defined.

(** X3 on the same run: the next run reads the two failed events back. *)
Lemma failed_events_are_read_back_witness :
  exists w' r,
    processEventsInBatches (list CreateCall) recordingCalendar acceptsRows errorName 2
      retryRun (mkWorld (list CreateCall) [] syncSheet []) = Some (w', r)
    /\ createCall <$> getErrorEvents (parseLocalIso tokyo)
                        (Normal (errorSheet (list CreateCall) w'))
       = createCall <$>
           (creationFailures (list CreateCall) recordingCalendar
              (calendar (list CreateCall) (mkWorld (list CreateCall) [] syncSheet []))
              retryRun).1.*1
    /\ title <$> getErrorEvents (parseLocalIso tokyo)
                   (Normal (errorSheet (list CreateCall) w'))
       = title <$>
           (creationFailures (list CreateCall) recordingCalendar
              (calendar (list CreateCall) (mkWorld (list CreateCall) [] syncSheet []))
              retryRun).1.*1
    /\ start <$> getErrorEvents (parseLocalIso tokyo)
                   (Normal (errorSheet (list CreateCall) w'))
       = start <$>
           (creationFailures (list CreateCall) recordingCalendar
              (calendar (list CreateCall) (mkWorld (list CreateCall) [] syncSheet []))
              retryRun).1.*1.
Proof.
  apply (failed_events_are_read_back (parseLocalIso tokyo) (list CreateCall)
           recordingCalendar acceptsRows errorName 2
           retryRun (mkWorld (list CreateCall) [] syncSheet [])).
  - lia.
  - repeat constructor; try (eexists; reflexivity); left; reflexivity.
  - reflexivity.
Defined.

(** X4 on scenario A: both records of the doubled block. *)
Lemma parseIcsContent_records_witness :
  Forall parsedRecord [standupAllDay; standupAllDay].
Proof.
  apply (parseIcsContent_records tokyo standupTwice). vm_compute. reflexivity.
Defined.

(** X5 on scenario A with an empty calendar: one event to create. *)
Lemma eventsToCreate_distinct_new_keys_witness :
  exists evs existingKeys,
    parseIcsContent tokyo standupTwice = Normal evs
    /\ snd (getExistingCalendarEvents tokyo asciiToLowerCase (parseLocalIso tokyo)
              emptyCalendar (firstOccurrences tokyo asciiToLowerCase evs))
       = Normal existingKeys
    /\ [standupAllDay]
       = filter (fun e => recordKey tokyo asciiToLowerCase e ∉ existingKeys)
                (firstOccurrences tokyo asciiToLowerCase evs)
    /\ sublist [standupAllDay] evs
    /\ Forall parsedRecord [standupAllDay]
    /\ NoDup (recordKey tokyo asciiToLowerCase <$> [standupAllDay])
    /\ (forall e, e ∈ [standupAllDay] -> recordKey tokyo asciiToLowerCase e ∉ existingKeys).
Proof.
  apply (eventsToCreate_distinct_new_keys tokyo asciiToLowerCase (parseLocalIso tokyo)
           emptyCalendar standupTwice [standupAllDay]).
  vm_compute. reflexivity.
Defined.

(** X6 on a block whose DTSTART lacks the ['T']: the parser throws. *)
Lemma eventsToCreate_throws_witness :
  parseIcsContent tokyo dateTimeWithoutT = Throw TypeError
  \/ exists evs,
       parseIcsContent tokyo dateTimeWithoutT = Normal evs
       /\ snd (getExistingCalendarEvents tokyo asciiToLowerCase (parseLocalIso tokyo)
                 emptyCalendar (firstOccurrences tokyo asciiToLowerCase evs))
          = Throw TypeError.
Proof.
  apply (eventsToCreate_throws tokyo asciiToLowerCase (parseLocalIso tokyo)
           emptyCalendar dateTimeWithoutT TypeError).
  vm_compute. reflexivity.
Defined.

(** X8 on scenario A with the sheet of scenario C: the event of the
    content and the event "Sync" of the sheet are processed. *)
Lemma importIcsToCalendar_run_witness :
  exists w' r,
    importIcsToCalendar tokyo asciiToLowerCase (parseLocalIso tokyo) emptyCalendar
      (list CreateCall) recordingCalendar acceptsRows errorName 10 standupTwice
      (mkWorld (list CreateCall) [] syncSheet []) = Normal (Some (w', r))
    /\ (created r + errors r
        = length [standupAllDay]
          + length (getErrorEvents (parseLocalIso tokyo)
                      (Normal (getOrCreateErrorSheet
                                 (errorSheet (list CreateCall)
                                    (mkWorld (list CreateCall) [] syncSheet []))))))%nat
    /\ errors r
       = length (creationFailures (list CreateCall) recordingCalendar
                   (calendar (list CreateCall) (mkWorld (list CreateCall) [] syncSheet []))
                   ([standupAllDay]
                    ++ getErrorEvents (parseLocalIso tokyo)
                         (Normal (getOrCreateErrorSheet
                                    (errorSheet (list CreateCall)
                                       (mkWorld (list CreateCall) [] syncSheet [])))))).1
    /\ createCall <$> getErrorEvents (parseLocalIso tokyo)
                        (Normal (errorSheet (list CreateCall) w'))
       = createCall <$>
           (creationFailures (list CreateCall) recordingCalendar
              (calendar (list CreateCall) (mkWorld (list CreateCall) [] syncSheet []))
              ([standupAllDay]
               ++ getErrorEvents (parseLocalIso tokyo)
                    (Normal (getOrCreateErrorSheet
                               (errorSheet (list CreateCall)
                                  (mkWorld (list CreateCall) [] syncSheet [])))))).1.*1.
Proof.
  apply (importIcsToCalendar_run tokyo asciiToLowerCase (parseLocalIso tokyo) emptyCalendar
           (list CreateCall) recordingCalendar acceptsRows errorName 10 standupTwice
           (mkWorld (list CreateCall) [] syncSheet []) [standupAllDay]).
  - vm_compute. reflexivity.
  - lia.
  - reflexivity.
Defined.

(** X9 on the lines of an empty block. *)
Lemma splitLines_line_ends_witness :
  splitLines (joinLines LF [BEGIN_VEVENT; END_VEVENT]) = [BEGIN_VEVENT; END_VEVENT]
  /\ splitLines (joinLines CRLF [BEGIN_VEVENT; END_VEVENT]) = [BEGIN_VEVENT; END_VEVENT].
Proof.
  apply (splitLines_line_ends [BEGIN_VEVENT; END_VEVENT]).
  - discriminate.
  - repeat constructor; compute_done.
Defined.

(** X10 on a title folded twice. *)
Lemma parseLoop_continuations_witness :
  parseLoop tokyo (lit "SUMMARY:Team")
    ([lit " meet"; [9%N] ++ lit "ing"] ++ [END_VEVENT])
    (mkParserState [] (Some emptyEvent) true)
  = parseLoop tokyo
      (lit "SUMMARY:Team" ++ concat (drop 1 <$> [lit " meet"; [9%N] ++ lit "ing"]))
      [END_VEVENT] (mkParserState [] (Some emptyEvent) true).
Proof.
  apply (parseLoop_continuations tokyo (lit "SUMMARY:Team")
           [lit " meet"; [9%N] ++ lit "ing"] [END_VEVENT]
           (mkParserState [] (Some emptyEvent) true)).
  repeat constructor.
Defined.

(** X11 on a calendar file without an event. *)
Lemma parseIcsContent_without_block_witness :
  parseIcsContent tokyo calendarWithoutEvent = Normal [].
Proof.
  apply (parseIcsContent_without_block tokyo calendarWithoutEvent).
  assert (logicalLines calendarWithoutEvent
          = [lit "BEGIN:VCALENDAR"; lit "VERSION:2.0"; lit "END:VCALENDAR"; []]) as ->
    by (vm_compute; reflexivity).
  repeat constructor; discriminate.
Defined.

(** X12 on a block that starts again after a draft title. *)
Lemma nested_begin_discards_partial_record_witness :
  runLines tokyo
    ([] ++ BEGIN_VEVENT :: [lit "SUMMARY:Draft"] ++ BEGIN_VEVENT
        :: [lit "SUMMARY:Standup"; lit "DTSTART;VALUE=DATE:20240105"; END_VEVENT])
    (mkParserState [] None false)
  = runLines tokyo
      ([] ++ BEGIN_VEVENT
          :: [lit "SUMMARY:Standup"; lit "DTSTART;VALUE=DATE:20240105"; END_VEVENT])
      (mkParserState [] None false).
Proof.
  apply (nested_begin_discards_partial_record tokyo [] [lit "SUMMARY:Draft"]
           [lit "SUMMARY:Standup"; lit "DTSTART;VALUE=DATE:20240105"; END_VEVENT]
           (set_title (VString (lit "Draft")) emptyEvent)).
  - repeat constructor; discriminate.
  - vm_compute. reflexivity.
Defined.

(** X13 on a block whose DTSTART lacks the ['T']. *)
Lemma date_time_without_T_aborts_parse_witness :
  parseIcsContent tokyo dateTimeWithoutT = Throw TypeError.
Proof.
  apply (date_time_without_T_aborts_parse tokyo dateTimeWithoutT []
           [lit "SUMMARY:Standup"] (lit "20240105") [END_VEVENT; []]
           (set_title (VString (lit "Standup")) emptyEvent)).
  - repeat constructor; discriminate.
  - vm_compute. reflexivity.
  - compute_done.
  - eexists _, _, _. reflexivity.
  - left. vm_compute. reflexivity.
Defined.

(** X14 on 5 January 2024 in Tokyo. *)
Lemma parseIcsDate_local_midnight_witness :
  exists t,
    parseIcsDate tokyo (dateToken 2024 1 5 ++ lit "T090000") = DateAt t
    /\ getFullYear tokyo (DateAt t) = Some 2024
    /\ getMonth tokyo (DateAt t) = Some (1 - 1)
    /\ getDate tokyo (DateAt t) = Some 5
    /\ TimeWithinDay (LocalTime tokyo t) = 0.
Proof.
  apply (parseIcsDate_local_midnight tokyo 2024 1 5 (lit "T090000")).
  - unfold inCalendarRange. change (daysInMonth 2024 1) with 31. lia.
  - lia.
  - vm_compute. discriminate.
Defined.

(** X15 on 29 February 2024, 23:59:58, in Tokyo. *)
Lemma parseIcsDateTime_local_fields_witness :
  exists t,
    parseIcsDateTime tokyo (localToken 2024 2 29 23 59 58) = Normal (DateAt t)
    /\ getFullYear tokyo (DateAt t) = Some 2024
    /\ getMonth tokyo (DateAt t) = Some (2 - 1)
    /\ getDate tokyo (DateAt t) = Some 29
    /\ HourFromTime (LocalTime tokyo t) = 23
    /\ MinFromTime (LocalTime tokyo t) = 59
    /\ SecFromTime (LocalTime tokyo t) = 58.
Proof.
  apply (parseIcsDateTime_local_fields tokyo 2024 2 29 23 59 58).
  - unfold inCalendarRange. change (daysInMonth 2024 2) with 29. lia.
  - lia.
  - vm_compute. discriminate.
Defined.

(** X16 on 31 December 1999, 23:59:59 UTC, read in Tokyo. *)
Lemma parseIcsDateTime_utc_from_year_100_witness :
  exists t,
    parseIcsDateTime tokyo (utcToken 1999 12 31 23 59 59) = Normal (DateAt t)
    /\ getUTCFullYear (DateAt t) = Some 1999
    /\ getUTCMonth (DateAt t) = Some (12 - 1)
    /\ getUTCDate (DateAt t) = Some 31
    /\ getUTCHours (DateAt t) = Some 23
    /\ getUTCMinutes (DateAt t) = Some 59
    /\ getUTCSeconds (DateAt t) = Some 59.
Proof.
  apply (parseIcsDateTime_utc_from_year_100 tokyo 1999 12 31 23 59 59).
  - unfold inCalendarRange. change (daysInMonth 1999 12) with 31. lia.
  - lia.
Defined.

(** X18 on an event without start followed by a dated event. *)
Lemma invalid_first_start_invalidates_window_witness :
  getEventDateRange tokyo (parseLocalIso tokyo) (withoutStart :: [review])
  = mkDateRange (Some InvalidDate) (Some InvalidDate)
  /\ fst (getExistingCalendarEvents tokyo asciiToLowerCase (parseLocalIso tokyo)
            emptyCalendar (withoutStart :: [review]))
     = [GetCalendarById CALENDAR_ID; GetEvents InvalidDate InvalidDate].
Proof.
  apply (invalid_first_start_invalidates_window tokyo asciiToLowerCase
           (parseLocalIso tokyo) emptyCalendar withoutStart [review]).
  reflexivity.
Defined.

(** X19 on two dated events around an event without start. *)
Lemma window_skips_invalid_starts_witness :
  exists tmin tmax,
    tmin ∈ validTimes (parseLocalIso tokyo) (standupAllDay :: [withoutStart; review])
    /\ tmax ∈ validTimes (parseLocalIso tokyo) (standupAllDay :: [withoutStart; review])
    /\ Forall (fun t => tmin <= t <= tmax)
              (validTimes (parseLocalIso tokyo) (standupAllDay :: [withoutStart; review]))
    /\ getEventDateRange tokyo (parseLocalIso tokyo)
         (standupAllDay :: [withoutStart; review])
       = mkDateRange (Some (DateAt (startOfLocalDay tokyo (tmin - msPerDay))))
                     (Some (DateAt (endOfLocalDay tokyo (tmax + msPerDay)))).
Proof.
  apply (window_skips_invalid_starts tokyo (parseLocalIso tokyo) standupAllDay
           [withoutStart; review] 1704380400000).
  - reflexivity.
  - repeat constructor; vm_compute; discriminate.
Defined.

(** X20 on scenario A's record and an empty calendar. *)
Lemma getExistingCalendarEvents_query_witness :
  exists from to,
    getEventDateRange tokyo (parseLocalIso tokyo) [standupAllDay]
    = mkDateRange (Some from) (Some to)
    /\ fst (getExistingCalendarEvents tokyo asciiToLowerCase (parseLocalIso tokyo)
              emptyCalendar [standupAllDay])
       = [GetCalendarById CALENDAR_ID; GetEvents from to]
    /\ (forall error,
          emptyCalendar from to = Throw error ->
          snd (getExistingCalendarEvents tokyo asciiToLowerCase (parseLocalIso tokyo)
                 emptyCalendar [standupAllDay]) = Throw error)
    /\ (forall cal,
          emptyCalendar from to = Normal cal ->
          exists keys,
            snd (getExistingCalendarEvents tokyo asciiToLowerCase (parseLocalIso tokyo)
                   emptyCalendar [standupAllDay]) = Normal keys
            /\ forall k,
                 k ∈ keys
                 <-> exists ev,
                       ev ∈ cal
                       /\ k = formatDateKey tokyo (calendarEventDate ev) ++ lit "|"
                                ++ trim (asciiToLowerCase (getTitle ev))).
Proof.
  apply (getExistingCalendarEvents_query tokyo asciiToLowerCase (parseLocalIso tokyo)
           emptyCalendar [standupAllDay]).
  discriminate.
Defined.

(** X21 on the two stand-ups of one day and the review. *)
Lemma removeDuplicateEvents_keys_witness :
  exists Y,
    removeDuplicateEvents tokyo asciiToLowerCase [standupMorning; standupEvening; review]
    = Normal Y
    /\ NoDup (recordKey tokyo asciiToLowerCase <$> Y)
    /\ (forall k,
          k ∈ recordKey tokyo asciiToLowerCase <$> Y
          <-> k ∈ recordKey tokyo asciiToLowerCase
                    <$> [standupMorning; standupEvening; review])
    /\ length Y
       = size (list_to_set (recordKey tokyo asciiToLowerCase
                              <$> [standupMorning; standupEvening; review])
               : gset jsstring)
    /\ (NoDup (recordKey tokyo asciiToLowerCase
                 <$> [standupMorning; standupEvening; review])
        -> Y = [standupMorning; standupEvening; review]).
Proof.
  apply (removeDuplicateEvents_keys tokyo asciiToLowerCase
           [standupMorning; standupEvening; review]).
  repeat constructor; eexists; reflexivity.
Defined.

(** X22 on the same records and the key of the stand-up. *)
Lemma filter_and_deduplicate_commute_witness :
  exists unique kept,
    removeDuplicateEvents tokyo asciiToLowerCase [standupMorning; standupEvening; review]
    = Normal unique
    /\ filterEventsToCreate tokyo asciiToLowerCase
         [standupMorning; standupEvening; review] {[ lit "2024-01-05|standup" ]}
       = Normal kept
    /\ filterEventsToCreate tokyo asciiToLowerCase unique {[ lit "2024-01-05|standup" ]}
       = removeDuplicateEvents tokyo asciiToLowerCase kept.
Proof.
  apply (filter_and_deduplicate_commute tokyo asciiToLowerCase
           [standupMorning; standupEvening; review] {[ lit "2024-01-05|standup" ]}).
  repeat constructor; eexists; reflexivity.
Defined.

(** X23 on the two stand-ups of 5 January 2024. *)
Lemma generateEventKey_equal_iff_witness :
  generateEventKey tokyo asciiToLowerCase standupMorning
  = generateEventKey tokyo asciiToLowerCase standupEvening
  <-> Day (LocalTime tokyo 1704412800000) = Day (LocalTime tokyo 1704445200000)
      /\ trim (asciiToLowerCase (lit "Standup")) = trim (asciiToLowerCase (lit " STANDUP ")).
Proof.
  apply (generateEventKey_equal_iff tokyo asciiToLowerCase standupMorning standupEvening
           (lit "Standup") (lit " STANDUP ") 1704412800000 1704445200000);
    reflexivity.
Defined.

(** X24 on scenario A and a calendar that holds the stand-up. *)
Lemma event_in_calendar_is_not_created_witness :
  exists fresh,
    eventsToCreate tokyo asciiToLowerCase (parseLocalIso tokyo) calendarWithStandup
      standupTwice = Normal fresh
    /\ forall e ev s t1 t2,
         e ∈ [standupAllDay; standupAllDay] -> ev ∈ [standupInCalendar] ->
         title e = VString s -> start e = VDate (DateAt t1) ->
         calendarEventDate ev = DateAt t2 ->
         Day (LocalTime tokyo t1) = Day (LocalTime tokyo t2) ->
         trim (asciiToLowerCase s) = trim (asciiToLowerCase (getTitle ev)) ->
         e ∉ fresh.
Proof.
  eapply (event_in_calendar_is_not_created tokyo asciiToLowerCase (parseLocalIso tokyo)
            calendarWithStandup standupTwice [standupAllDay; standupAllDay]).
  - vm_compute. reflexivity.
  - vm_compute. reflexivity.
  - reflexivity.
Defined.

(** X25 on the run of five events, in batches of ten and of three. *)
Lemma batch_size_only_changes_pauses_witness :
  exists w1 w2 r,
    processEventsInBatches (list CreateCall) recordingCalendar acceptsRows errorName 10
      retryRun (mkWorld (list CreateCall) [] syncSheet []) = Some (w1, r)
    /\ processEventsInBatches (list CreateCall) recordingCalendar acceptsRows errorName 3
         retryRun (mkWorld (list CreateCall) [] syncSheet []) = Some (w2, r)
    /\ calendar (list CreateCall) w1 = calendar (list CreateCall) w2
    /\ errorSheet (list CreateCall) w1 = errorSheet (list CreateCall) w2
    /\ sleeps (list CreateCall) w1
       = sleeps (list CreateCall) (mkWorld (list CreateCall) [] syncSheet [])
         ++ replicate (pauses 10 (length retryRun)) SLEEP_INTERVAL
    /\ sleeps (list CreateCall) w2
       = sleeps (list CreateCall) (mkWorld (list CreateCall) [] syncSheet [])
         ++ replicate (pauses 3 (length retryRun)) SLEEP_INTERVAL.
Proof.
  apply (batch_size_only_changes_pauses (list CreateCall) recordingCalendar acceptsRows
           errorName 10 3 retryRun (mkWorld (list CreateCall) [] syncSheet [])); lia.
Defined.

(** X26 on the run of five events: a thousand rounds do not end the loop. *)
Lemma zero_batch_size_never_returns_witness :
  batchLoop (list CreateCall) recordingCalendar acceptsRows errorName 0 1000 0 retryRun
    (mkWorld (list CreateCall) [] syncSheet []) (mkBatchResult 0 0 0) = None.
Proof.
  apply (zero_batch_size_never_returns (list CreateCall) recordingCalendar acceptsRows
           errorName retryRun 0).
  cbn. lia.
Defined.

(** X28 on scenario A with the sheet of scenario C: the stand-up is
    created, and the row of "Sync" is cleared. *)
Lemma testImport_first_five_witness :
  exists evs w',
    parseIcsContent tokyo standupTwice = Normal evs
    /\ sublist [standupAllDay] (take 5 evs)
    /\ (length [standupAllDay] <= 5)%nat
    /\ testImport tokyo asciiToLowerCase (parseLocalIso tokyo) emptyCalendar
         (list CreateCall) recordingCalendar acceptsRows errorName 10 standupTwice
         (mkWorld (list CreateCall) [] syncSheet []) = Some (w', 10%nat)
    /\ calendar (list CreateCall) w'
       = (creationFailures (list CreateCall) recordingCalendar
            (calendar (list CreateCall) (mkWorld (list CreateCall) [] syncSheet []))
            [standupAllDay]).2
    /\ sleeps (list CreateCall) w'
       = sleeps (list CreateCall) (mkWorld (list CreateCall) [] syncSheet [])
         ++ (if (3 <? length [standupAllDay])%nat then [SLEEP_INTERVAL] else [])
    /\ ([standupAllDay] = [] -> w' = mkWorld (list CreateCall) [] syncSheet [])
    /\ ([standupAllDay] <> [] ->
        errorSheet (list CreateCall) w'
        = take 1 (getOrCreateErrorSheet
                    (errorSheet (list CreateCall)
                       (mkWorld (list CreateCall) [] syncSheet [])))
          ++ failureRows errorName
               (creationFailures (list CreateCall) recordingCalendar
                  (calendar (list CreateCall) (mkWorld (list CreateCall) [] syncSheet []))
                  [standupAllDay]).1).
Proof.
  apply (testImport_first_five tokyo asciiToLowerCase (parseLocalIso tokyo) emptyCalendar
           (list CreateCall) recordingCalendar acceptsRows errorName 10 standupTwice
           (mkWorld (list CreateCall) [] syncSheet []) [standupAllDay]).
  - vm_compute. reflexivity.
  - reflexivity.
Defined.

(** X29 on scenario A after the sheet of scenario C has been cleared. *)
Lemma import_after_clearErrorSheet_witness :
  clearErrorSheet syncSheet = take 1 (getOrCreateErrorSheet syncSheet)
  /\ clearErrorSheet (clearErrorSheet syncSheet) = clearErrorSheet syncSheet
  /\ getErrorEvents (parseLocalIso tokyo) (Normal (clearErrorSheet syncSheet)) = []
  /\ importIcsToCalendar tokyo asciiToLowerCase (parseLocalIso tokyo) emptyCalendar
       (list CreateCall) recordingCalendar acceptsRows errorName 10 standupTwice
       (mkWorld (list CreateCall) [] (clearErrorSheet syncSheet) [])
     = Normal (processEventsInBatches (list CreateCall) recordingCalendar acceptsRows
                 errorName 10 [standupAllDay]
                 (mkWorld (list CreateCall) [] (clearErrorSheet syncSheet) [])).
Proof.
  apply (import_after_clearErrorSheet tokyo asciiToLowerCase (parseLocalIso tokyo)
           emptyCalendar (list CreateCall) recordingCalendar acceptsRows errorName 10
           standupTwice [standupAllDay] [] syncSheet []).
  vm_compute. reflexivity.
Defined.
